(** * OpenHamClock: spot aggregation, locator decoding, great-circle paths

    A shallow embedding of the propagation-report core of OpenHamClock:

    - [useDXClusterData]  (the DX cluster hook: filter, merge, evict, cap),
    - [usePSKReporter.js] (locator decoding and the coordinate filter),
    - [useWSPR.js]        (locator decoding, SNR classes, great-circle path),
    - [PSKReporterPanel.jsx] (the panel's SNR colour).

    JavaScript values are modelled as follows.  A number that the code only
    compares, adds and multiplies is a rational ([Q]) or an integer ([Z],
    for millisecond timestamps); a number that can be [NaN] is a [JS.num];
    a property that can be missing is an [option] ([None] is [undefined]);
    strings are [string]s of 8-bit characters, so [toUpperCase] is the ASCII
    one.  The great-circle routine is written once over an abstract
    [Math] interface and instantiated with IEEE binary64 and with the
    real numbers. *)

From Stdlib Require Import ZArith QArith Qround List String Ascii Bool Lia Lqa.
From Stdlib Require Import Permutation Sorted.
From Stdlib Require Import Reals Lra Floats.
Import ListNotations.

Local Close Scope Q_scope.
Local Open Scope string_scope.

(* ================================================================== *)
(** * JavaScript values *)
(* ================================================================== *)

Module JS.

(** A JavaScript number that is either [NaN] or a (rational) value. *)
Inductive num : Type :=
| NaN : num
| Num (q : Q) : num.

Definition lift2 (f : Q -> Q -> Q) (a b : num) : num :=
  match a, b with
  | Num x, Num y => Num (f x y)
  | _, _ => NaN
  end.

Definition add : num -> num -> num := lift2 Qplus.
Definition sub : num -> num -> num := lift2 Qminus.
Definition mul : num -> num -> num := lift2 Qmult.

Definition ofZ (z : Z) : num := Num (inject_Z z).

(** [a < b] and [a >= b] on rationals. *)
Definition ltb (a b : Q) : bool := negb (Qle_bool b a).
Definition geb (a b : Q) : bool := Qle_bool b a.

(** Equality of numbers as values ([NaN] is only related to itself here:
    the relation compares results of the model, it is not [===]). *)
Definition num_eq (a b : num) : Prop :=
  match a, b with
  | NaN, NaN => True
  | Num x, Num y => (x == y)%Q
  | _, _ => False
  end.

(** The values a coordinate property can hold. *)
Inductive value : Type :=
| VUndefined : value
| VNull : value
| VNum (n : num) : value.

(** [ToBoolean] on those values: [undefined], [null], [NaN] and [0] are
    falsy. *)
Definition truthy (v : value) : bool :=
  match v with
  | VNum (Num q) => negb (Qeq_bool q 0%Q)
  | _ => false
  end.

(** [a || b]. *)
Definition or_else (a b : value) : value := if truthy a then a else b.

(** [ToBoolean] on an optional string: [undefined] and [""] are falsy. *)
Definition truthy_str (s : option string) : bool :=
  match s with
  | Some s => negb (String.eqb s "")
  | None => false
  end.

(** [ToBoolean] on an optional integer. *)
Definition truthy_Z (z : option Z) : bool :=
  match z with
  | Some z => negb (Z.eqb z 0)
  | None => false
  end.

(** [ToString] of an optional string property inside a template literal. *)
Definition show (s : option string) : string :=
  match s with
  | Some s => s
  | None => "undefined"
  end.

(** ** Strings *)

Definition is_lower (c : ascii) : bool :=
  let n := nat_of_ascii c in (97 <=? n)%nat && (n <=? 122)%nat.

Definition is_upper (c : ascii) : bool :=
  let n := nat_of_ascii c in (65 <=? n)%nat && (n <=? 90)%nat.

Definition is_digit (c : ascii) : bool :=
  let n := nat_of_ascii c in (48 <=? n)%nat && (n <=? 57)%nat.

Definition upper_char (c : ascii) : ascii :=
  if is_lower c then ascii_of_nat (nat_of_ascii c - 32) else c.

(** [s.toUpperCase()] on a string of ASCII characters: the letters [a]-[z]
    change and nothing else does.  (Beyond ASCII the method can also change
    the length of a string; such strings are not in the range of this
    definition.) *)
Fixpoint toUpperCase (s : string) : string :=
  match s with
  | EmptyString => EmptyString
  | String c s' => String (upper_char c) (toUpperCase s')
  end.

(** [s.charCodeAt(i)]: [NaN] past the end. *)
Definition charCodeAt (s : string) (i : nat) : num :=
  match String.get i s with
  | Some c => ofZ (Z.of_nat (nat_of_ascii c))
  | None => NaN
  end.

(** [parseInt(s[i])]: the digit's value, and [NaN] for any other
    character or for [undefined]. *)
Definition parseInt_at (s : string) (i : nat) : num :=
  match String.get i s with
  | Some c => if is_digit c then ofZ (Z.of_nat (nat_of_ascii c - 48)) else NaN
  | None => NaN
  end.

(** [s.startsWith(p)]. *)
Definition startsWith (s p : string) : bool := String.prefix p s.

(** [s.includes(p)]. *)
Fixpoint includes (s p : string) : bool :=
  String.prefix p s ||
  match s with
  | EmptyString => false
  | String _ s' => includes s' p
  end.

Definition is_space (c : ascii) : bool :=
  let n := nat_of_ascii c in
  (n =? 32)%nat || ((9 <=? n)%nat && (n <=? 13)%nat).

Fixpoint trimStart (s : string) : string :=
  match s with
  | String c s' => if is_space c then trimStart s' else s
  | EmptyString => EmptyString
  end.

Fixpoint trimEnd (s : string) : string :=
  match s with
  | String c s' =>
      match trimEnd s' with
      | EmptyString => if is_space c then EmptyString else String c EmptyString
      | t => String c t
      end
  | EmptyString => EmptyString
  end.

Definition trim (s : string) : string := trimEnd (trimStart s).

End JS.

(* ================================================================== *)
(** * Locator decoding: [gridToLatLon] *)
(* ================================================================== *)

Record LatLon : Type := mkLatLon { lat : JS.num; lon : JS.num }.

(** [usePSKReporter.js], lines 12-32. *)
Module PSK.
Import JS.

Definition gridToLatLon (grid : option string) : option LatLon :=
  match grid with
  | None => None
  | Some grid =>
      if negb (truthy_str (Some grid)) || (String.length grid <? 4)%nat
      then None
      else
        let g := toUpperCase grid in
        let lon := sub (mul (sub (charCodeAt g 0) (ofZ 65)) (ofZ 20)) (ofZ 180) in
        let lat := sub (mul (sub (charCodeAt g 1) (ofZ 65)) (ofZ 10)) (ofZ 90) in
        let lonMin := mul (parseInt_at g 2) (ofZ 2) in
        let latMin := mul (parseInt_at g 3) (ofZ 1) in
        let finalLon := add (add lon lonMin) (ofZ 1) in
        let finalLat := add (add lat latMin) (Num (5 # 10)%Q) in
        if (6 <=? String.length grid)%nat then
          let lonSec := mul (sub (charCodeAt g 4) (ofZ 65)) (Num (2 / 24)%Q) in
          let latSec := mul (sub (charCodeAt g 5) (ofZ 65)) (Num (1 / 24)%Q) in
          let finalLon := add (add (add lon lonMin) lonSec) (Num (1 / 24)%Q) in
          let finalLat := add (add (add lat latMin) latSec) (Num ((5 # 10) / 24)%Q) in
          Some (mkLatLon finalLat finalLon)
        else Some (mkLatLon finalLat finalLon)
  end.

(** ** The report pipeline of [fetchData], lines 66-89 *)

(** A report of the [/api/pskreporter] response, with the properties the
    hook reads or overwrites. *)
Record Report : Type := mkReport {
  r_lat : value;
  r_lon : value;
  receiverGrid : option string;
  senderGrid : option string;
  r_age : value;
  r_timestamp : value
}.

(** [grid ? gridToLatLon(grid)?.lat : null], and the same for [lon]. *)
Definition grid_lat (grid : option string) : value :=
  if truthy_str grid
  then match gridToLatLon grid with
       | Some p => VNum (lat p)
       | None => VUndefined
       end
  else VNull.

Definition grid_lon (grid : option string) : value :=
  if truthy_str grid
  then match gridToLatLon grid with
       | Some p => VNum (lon p)
       | None => VUndefined
       end
  else VNull.

(** [Math.floor((Date.now() - r.timestamp) / 60000)]. *)
Definition toNumber (v : value) : num :=
  match v with
  | VUndefined => NaN
  | VNull => ofZ 0
  | VNum n => n
  end.

Definition age_of (now : Z) (ts : value) : value :=
  match sub (ofZ now) (toNumber ts) with
  | Num q => VNum (ofZ (Qfloor (q / 60000)))
  | NaN => VNum NaN
  end.

(** The callback of [.map], lines 69-75 and 82-87, for the grid property
    that [grid] selects. *)
Definition resolve (grid : Report -> option string) (now : Z) (r : Report) : Report :=
  mkReport (or_else (r_lat r) (grid_lat (grid r)))
           (or_else (r_lon r) (grid_lon (grid r)))
           (receiverGrid r) (senderGrid r)
           (or_else (r_age r) (age_of now (r_timestamp r)))
           (r_timestamp r).

(** The callback of [.filter], lines 76 and 88: [r.lat && r.lon]. *)
Definition located (r : Report) : bool := truthy (r_lat r) && truthy (r_lon r).

Definition processed (grid : Report -> option string) (now : Z) (maxSpots : nat)
           (data : list Report) : list Report :=
  firstn maxSpots (filter located (List.map (resolve grid now) data)).

Definition processedTx := processed receiverGrid.

End PSK.

(** [useWSPR.js], lines 28-48 (and the identical copy at 269-289). *)
Module WSPR.
Import JS.

Definition gridToLatLon (grid : option string) : option LatLon :=
  match grid with
  | None => None
  | Some grid =>
      if negb (truthy_str (Some grid)) || (String.length grid <? 4)%nat
      then None
      else
        let grid := toUpperCase grid in
        let lon := sub (mul (sub (charCodeAt grid 0) (ofZ 65)) (ofZ 20)) (ofZ 180) in
        let lat := sub (mul (sub (charCodeAt grid 1) (ofZ 65)) (ofZ 10)) (ofZ 90) in
        let lon2 := mul (parseInt_at grid 2) (ofZ 2) in
        let lat2 := parseInt_at grid 3 in
        let longitude := add (add lon lon2) (ofZ 1) in
        let latitude := add (add lat lat2) (Num (5 # 10)%Q) in
        if (6 <=? String.length grid)%nat then
          let lon3 := mul (sub (charCodeAt grid 4) (ofZ 65)) (Num (2 / 24)%Q) in
          let lat3 := mul (sub (charCodeAt grid 5) (ofZ 65)) (Num (1 / 24)%Q) in
          let longitude := add (add (add lon lon2) lon3) (Num (1 / 24)%Q) in
          let latitude := add (add (add lat lat2) lat3) (Num ((5 # 10) / 24)%Q) in
          Some (mkLatLon latitude longitude)
        else Some (mkLatLon latitude longitude)
  end.

(** ** SNR classes, lines 51-68 *)

(** [getSNRColor]: [None] is [null] / [undefined]. *)
Definition getSNRColor (snr : option Q) : string :=
  match snr with
  | None => "#888888"
  | Some snr =>
      if JS.ltb snr (-20)%Q then "#ff0000"
      else if JS.ltb snr (-10)%Q then "#ff6600"
      else if JS.ltb snr 0%Q then "#ffaa00"
      else if JS.ltb snr 5%Q then "#ffff00"
      else "#00ff00"
  end.

Definition getLineWeight (snr : option Q) : Q :=
  match snr with
  | None => 1%Q
  | Some snr =>
      if JS.ltb snr (-20)%Q then 1%Q
      else if JS.ltb snr (-10)%Q then (15 # 10)%Q
      else if JS.ltb snr 0%Q then 2%Q
      else if JS.ltb snr 5%Q then (25 # 10)%Q
      else 3%Q
  end.

End WSPR.

(** [PSKReporterPanel.jsx], lines 42-48. *)
Module Panel.

Definition getSnrColor (snr : option Q) : string :=
  match snr with
  | None => "var(--text-muted)"
  | Some snr =>
      if JS.geb snr 0%Q then "#4ade80"
      else if JS.geb snr (-10)%Q then "#fbbf24"
      else if JS.geb snr (-15)%Q then "#f97316"
      else "#ef4444"
  end.

End Panel.

(* ================================================================== *)
(** * The DX cluster hook: [useDXClusterData] *)
(* ================================================================== *)

Module DXCluster.
Import JS.

(** A record of the [/api/dxcluster/paths] feed, with the properties the
    hook reads.  [freq] holds the text the template literal prints. *)
Record Item : Type := mkItem {
  dxCall : option string;
  call : option string;
  freq : option string;
  spotter : option string;
  timestamp : option Z;
  comment : option string;
  spotterLat : option Q;
  spotterLon : option Q;
  dxLat : option Q;
  dxLon : option Q
}.

(** The [filters] object. *)
Record Filters : Type := mkFilters {
  watchlistOnly : option bool;
  watchlist : option (list string);
  excludeList : option (list string);
  cqZones : option (list Z);
  ituZones : option (list Z);
  continents : option (list string);
  bands : option (list string);
  modes : option (list string);
  callsign : option string;
  spotRetentionMinutes : option Z
}.

(** What [getCallsignInfo] returns. *)
Record CallsignInfo : Type := mkInfo {
  cqZone : option Z;
  ituZone : option Z;
  continent : option string
}.

(** [x?.length > 0]. *)
Definition nonempty {A : Type} (l : option (list A)) : bool :=
  match l with
  | Some (_ :: _) => true
  | _ => false
  end.

Definition elems {A : Type} (l : option (list A)) : list A :=
  match l with
  | Some l => l
  | None => []
  end.

(** [l.includes(x)] for an optional integer and for an optional string. *)
Definition includesZ (l : list Z) (x : option Z) : bool :=
  match x with
  | Some x => existsb (Z.eqb x) l
  | None => false
  end.

Definition includesStr (l : list string) (x : option string) : bool :=
  match x with
  | Some x => existsb (String.eqb x) l
  | None => false
  end.

(** [Object.keys(filters).length === 0]. *)
Definition no_keys (f : Filters) : bool :=
  match watchlistOnly f, watchlist f, excludeList f, cqZones f, ituZones f,
        continents f, bands f, modes f, callsign f, spotRetentionMinutes f with
  | None, None, None, None, None, None, None, None, None, None => true
  | _, _, _, _, _, _, _, _, _, _ => false
  end.

(** [(filters?.spotRetentionMinutes || 30) * 60 * 1000], line 16. *)
Definition spotRetentionMs (filters : option Filters) : Z :=
  let minutes :=
    match filters with
    | Some f => if truthy_Z (spotRetentionMinutes f)
                then match spotRetentionMinutes f with Some m => m | None => 30%Z end
                else 30%Z
    | None => 30%Z
    end in
  (minutes * 60 * 1000)%Z.

(** ** [applyFilters], lines 20-94 *)

Section ApplyFilters.

(** The helpers imported from [../utils/callsign.js]: the metadata
    resolver, [getBandFromFreq(parseFloat(freq) * 1000)] as one function
    of the [freq] property, and [detectMode]. *)
Variable getCallsignInfo : option string -> CallsignInfo.
Variable getBandFromFreq : option string -> option string.
Variable detectMode : option string -> option string.

(** [call?.toUpperCase().includes(w)], a missing call giving the falsy
    [undefined]. *)
Definition call_includes (call : option string) (w : string) : bool :=
  match call with
  | Some c => includes (toUpperCase c) w
  | None => false
  end.

(** [call?.toUpperCase().startsWith(exc.toUpperCase())]. *)
Definition call_startsWith (call : option string) (exc : string) : bool :=
  match call with
  | Some c => startsWith (toUpperCase c) (toUpperCase exc)
  | None => false
  end.

(** [item.dxCall || item.call], line 26. *)
Definition dx_call (item : Item) : option string :=
  if truthy_str (dxCall item) then dxCall item else call item.

(** The callback of [data.filter], lines 23-93. *)
Definition keep (filters : Filters) (item : Item) : bool :=
  let spotterInfo := getCallsignInfo (spotter item) in
  let call := dx_call item in
  let dxInfo := getCallsignInfo call in
  if (match watchlistOnly filters with Some b => b | None => false end
      && nonempty (watchlist filters))
     && negb (existsb (fun w => call_includes call (toUpperCase w))
                         (elems (watchlist filters)))
  then false
  else if nonempty (excludeList filters)
          && existsb (call_startsWith call) (elems (excludeList filters))
  then false
  else if nonempty (cqZones filters)
          && (negb (truthy_Z (cqZone spotterInfo))
              || negb (includesZ (elems (cqZones filters)) (cqZone spotterInfo)))
  then false
  else if nonempty (ituZones filters)
          && (negb (truthy_Z (ituZone spotterInfo))
              || negb (includesZ (elems (ituZones filters)) (ituZone spotterInfo)))
  then false
  else if nonempty (continents filters)
          && (negb (truthy_str (continent spotterInfo))
              || negb (includesStr (elems (continents filters)) (continent spotterInfo)))
  then false
  else if nonempty (continents filters)
          && (truthy_str (continent dxInfo)
              && includesStr (elems (continents filters)) (continent dxInfo))
  then false
  else if nonempty (bands filters)
          && negb (includesStr (elems (bands filters)) (getBandFromFreq (freq item)))
  then false
  else if nonempty (modes filters)
          && (negb (truthy_str (detectMode (comment item)))
              || negb (includesStr (elems (modes filters)) (detectMode (comment item))))
  then false
  else if truthy_str (callsign filters)
          && truthy_str (option_map trim (callsign filters))
  then
    let search := toUpperCase (trim (show (callsign filters))) in
    let matchesCall := call_includes call search in
    let matchesSpotter := call_includes (spotter item) search in
    negb (negb matchesCall && negb matchesSpotter)
  else true.

Definition applyFilters (data : list Item) (filters : option Filters) : list Item :=
  match filters with
  | None => data
  | Some f => if no_keys f then data else filter (keep f) data
  end.

End ApplyFilters.

(** ** The merge of a fetched batch, lines 105-125 *)

(** The identity key, lines 108 and 113. *)
Definition key (item : Item) : string :=
  show (dxCall item) ++ "-" ++ show (freq item) ++ "-" ++ show (spotter item).

(** A [Map] with string keys, as the list of its entries in insertion
    order. *)
Definition JMap : Type := list (string * Item).

(** [m.set(k, v)]: an existing key keeps its place, a new one goes last. *)
Fixpoint map_set (m : JMap) (k : string) (v : Item) : JMap :=
  match m with
  | [] => [(k, v)]
  | (k', v') :: m' =>
      if String.eqb k' k then (k, v) :: m'
      else (k', v') :: map_set m' k v
  end.

Fixpoint map_get (m : JMap) (k : string) : option Item :=
  match m with
  | [] => None
  | (k', v') :: m' => if String.eqb k' k then Some v' else map_get m' k
  end.

(** [new Map(entries)]. *)
Definition map_of (entries : list (string * Item)) : JMap :=
  fold_left (fun m e => map_set m (fst e) (snd e)) entries [].

(** [Array.from(m.values())]. *)
Definition map_values (m : JMap) : list Item := List.map snd m.

(** [item.timestamp || d]. *)
Definition timestamp_or (item : Item) (d : Z) : Z :=
  if truthy_Z (timestamp item)
  then match timestamp item with Some t => t | None => d end
  else d.

(** [{ ...item, timestamp: item.timestamp || now }], line 114. *)
Definition stamp (now : Z) (item : Item) : Item :=
  mkItem (dxCall item) (call item) (freq item) (spotter item)
         (Some (timestamp_or item now)) (comment item)
         (spotterLat item) (spotterLon item) (dxLat item) (dxLon item).

(** One turn of [newData.forEach], lines 112-115. *)
Definition merge_item (now : Z) (m : JMap) (item : Item) : JMap :=
  map_set m (key item) (stamp now item).

Definition merge_batch (now : Z) (m : JMap) (newData : list Item) : JMap :=
  fold_left (merge_item now) newData m.

(** The retention test, lines 119 and 145. *)
Definition fresh (now spotRetentionMs : Z) (item : Item) : bool :=
  (now - timestamp_or item now <? spotRetentionMs)%Z.

(** [sort((a, b) => (b.timestamp || 0) - (a.timestamp || 0))]: the sort
    is stable, so an element moves only past strictly newer ones. *)
Fixpoint insert_newest (a : Item) (l : list Item) : list Item :=
  match l with
  | [] => [a]
  | b :: l' =>
      if (0 <? timestamp_or b 0 - timestamp_or a 0)%Z
      then b :: insert_newest a l'
      else a :: b :: l'
  end.

Definition sort_newest (l : list Item) : list Item :=
  fold_right insert_newest [] l.

(** [slice(0, 200)]. *)
Definition maxCapacity : nat := 200.

(** The items that survive the age test after the merge, lines 107-119. *)
Definition validItems (now retention : Z) (newData prev : list Item) : list Item :=
  let existingMap := map_of (List.map (fun item => (key item, item)) prev) in
  let existingMap := merge_batch now existingMap newData in
  filter (fresh now retention) (map_values existingMap).

(** The updater passed to [setAllData] on a successful fetch,
    lines 105-125. *)
Definition ingest (now retention : Z) (newData prev : list Item) : list Item :=
  firstn maxCapacity (sort_newest (validItems now retention newData prev)).

(** The updater of the retention-change effect, lines 142-147. *)
Definition cleanup (now retention : Z) (prev : list Item) : list Item :=
  filter (fresh now retention) prev.

(** ** The hook's state over time *)

(** What can happen to [allData]: a fetch delivers a batch at time [now]
    under the retention in force, or the retention changes. *)
Inductive Event : Type :=
| Fetched (now retention : Z) (newData : list Item)
| RetentionChanged (now retention : Z).

Definition step (allData : list Item) (e : Event) : list Item :=
  match e with
  | Fetched now retention newData => ingest now retention newData allData
  | RetentionChanged now retention => cleanup now retention allData
  end.

(** [useState([])] followed by the events in order. *)
Definition run (events : list Event) : list Item := fold_left step events [].

(** ** Vocabulary for the properties *)


Definition only_continents (cs : list string) : Filters :=
  mkFilters None None None None None (Some cs) None None None None.

(** A small resolver to run the filter on: German calls are in Europe,
    [K] and [W] calls in North America, anything else does not
    resolve. *)
Definition sample_getCallsignInfo (c : option string) : CallsignInfo :=
  match c with
  | Some s =>
      if startsWith s "DL" then mkInfo (Some 14%Z) (Some 28%Z) (Some "EU")
      else if startsWith s "K" || startsWith s "W"
           then mkInfo (Some 5%Z) (Some 8%Z) (Some "NA")
           else mkInfo None None None
  | None => mkInfo None None None
  end.

Definition sample_getBandFromFreq (f : option string) : option string :=
  match f with
  | Some "14074.0" => Some "20m"
  | Some "7074.0" => Some "40m"
  | _ => Some "other"
  end.

Definition sample_detectMode (comment : option string) : option string :=
  match comment with
  | Some c => if includes (toUpperCase c) "FT8" then Some "FT8" else None
  | None => None
  end.

(** [newest_first a b]: the comparator lets [a] stand before [b]. *)
Definition newest_first (a b : Item) : Prop :=
  (timestamp_or b 0 <= timestamp_or a 0)%Z.

(** A stored item carries a timestamp, and a truthy one. *)
Definition stamped (item : Item) : Prop :=
  exists t : Z, timestamp item = Some t /\ t <> 0%Z.

(** No character of [s] is the separator of the key. *)
Fixpoint no_dash (s : string) : Prop :=
  match s with
  | EmptyString => True
  | String c s' => c <> "-"%char /\ no_dash s'
  end.

(** [Date.now()] is not [0] when a batch arrives. *)
Definition clock_set (e : Event) : Prop :=
  match e with
  | Fetched now _ _ => now <> 0%Z
  | RetentionChanged _ _ => True
  end.

End DXCluster.

(* ================================================================== *)
(** * The great-circle path: [getGreatCirclePath] *)
(* ================================================================== *)

Module GreatCircle.

(** The arithmetic and the [Math] functions the routine uses, over a
    number type [F]. *)
Record Math (F : Type) : Type := mkMath {
  m_pi : F;
  m_add : F -> F -> F;
  m_sub : F -> F -> F;
  m_mul : F -> F -> F;
  m_div : F -> F -> F;
  m_sin : F -> F;
  m_cos : F -> F;
  m_acos : F -> F;
  m_sqrt : F -> F;
  m_atan2 : F -> F -> F;
  m_nat : nat -> F
}.

Arguments m_pi {F}.
Arguments m_add {F}.
Arguments m_sub {F}.
Arguments m_mul {F}.
Arguments m_div {F}.
Arguments m_sin {F}.
Arguments m_cos {F}.
Arguments m_acos {F}.
Arguments m_sqrt {F}.
Arguments m_atan2 {F}.
Arguments m_nat {F}.

Section Path.

Context {F : Type} (M : Math F).

Local Notation "a + b" := (m_add M a b).
Local Notation "a - b" := (m_sub M a b).
Local Notation "a * b" := (m_mul M a b).
Local Notation "a / b" := (m_div M a b).

Definition toRad (deg : F) : F := (deg * m_pi M) / m_nat M 180.
Definition toDeg (rad : F) : F := (rad * m_nat M 180) / m_pi M.

(** The great circle distance, lines 326-329. *)
Definition distance (lat1Rad lon1Rad lat2Rad lon2Rad : F) : F :=
  m_acos M
    (m_sin M lat1Rad * m_sin M lat2Rad +
     m_cos M lat1Rad * m_cos M lat2Rad * m_cos M (lon2Rad - lon1Rad)).

(** The body of the loop for one [i], lines 333-345. *)
Definition point (lat1Rad lon1Rad lat2Rad lon2Rad d : F) (numPoints i : nat) : F * F :=
  let f := m_nat M i / m_nat M numPoints in
  let A := m_sin M ((m_nat M 1 - f) * d) / m_sin M d in
  let B := m_sin M (f * d) / m_sin M d in
  let x := A * m_cos M lat1Rad * m_cos M lon1Rad + B * m_cos M lat2Rad * m_cos M lon2Rad in
  let y := A * m_cos M lat1Rad * m_sin M lon1Rad + B * m_cos M lat2Rad * m_sin M lon2Rad in
  let z := A * m_sin M lat1Rad + B * m_sin M lat2Rad in
  let lat := toDeg (m_atan2 M z (m_sqrt M (x * x + y * y))) in
  let lon := toDeg (m_atan2 M y x) in
  (lat, lon).

(** [getGreatCirclePath], lines 313-349: the points for
    [i = 0, ..., numPoints], in that order. *)
Definition getGreatCirclePath (lat1 lon1 lat2 lon2 : F) (numPoints : nat) : list (F * F) :=
  let lat1Rad := toRad lat1 in
  let lon1Rad := toRad lon1 in
  let lat2Rad := toRad lat2 in
  let lon2Rad := toRad lon2 in
  let d := distance lat1Rad lon1Rad lat2Rad lon2Rad in
  List.map (point lat1Rad lon1Rad lat2Rad lon2Rad d numPoints)
           (List.seq 0 (S numPoints)).

End Path.

(** ** IEEE binary64 *)

(** The transcendental functions of the host's [Math] object; their
    results are implementation-approximated, so they are a parameter. *)
Record Libm : Type := mkLibm {
  fsin : float -> float;
  fcos : float -> float;
  facos : float -> float;
  fatan2 : float -> float -> float
}.

(** [Math.PI]. *)
Definition float_pi : float := 0x1.921fb54442d18p+1%float.

Definition float_of_nat (n : nat) : float :=
  PrimFloat.of_uint63 (Uint63.of_Z (Z.of_nat n)).

Definition Float64 (L : Libm) : Math float :=
  mkMath float float_pi PrimFloat.add PrimFloat.sub PrimFloat.mul PrimFloat.div
         (fsin L) (fcos L) (facos L) PrimFloat.sqrt (fatan2 L) float_of_nat.

(** The values ECMA-262 fixes exactly: [Math.sin] returns its argument
    when it is [NaN], [+0] or [-0]; [Math.cos(+0)] is [1];
    [Math.acos(1)] is [+0]; [Math.atan2] returns [NaN] when an argument
    is [NaN]. *)
Record Ecma262 (L : Libm) : Prop := mkEcma262 {
  sin_zero : fsin L 0%float = 0%float;
  sin_neg_zero : fsin L (-0)%float = (-0)%float;
  sin_nan : fsin L nan = nan;
  cos_zero : fcos L 0%float = 1%float;
  acos_one : facos L 1%float = 0%float;
  atan2_nan_l : forall x, fatan2 L nan x = nan;
  atan2_nan_r : forall y, fatan2 L y nan = nan
}.

(** A low-order [Math] library that meets those clauses. *)
Definition series_sin (x : float) : float := (x * (1 - x * x / 6))%float.
Definition series_cos (x : float) : float := (1 - x * x / 2)%float.
Definition series_acos (x : float) : float := PrimFloat.sqrt (2 * (1 - x))%float.
Definition series_atan2 (y x : float) : float :=
  if PrimFloat.is_nan y || PrimFloat.is_nan x then nan
  else (2 * (y / (PrimFloat.sqrt (x * x + y * y) + x)))%float.

Definition series_libm : Libm :=
  mkLibm series_sin series_cos series_acos series_atan2.

(** ** The real numbers *)

(** [Math.atan2(y, x)] on the reals: the angle of the point [(x, y)] in
    [(-PI, PI]], and [0] at the origin. *)
Definition Ratan2 (y x : R) : R :=
  if Rlt_dec 0 x then atan (y / x)
  else if Rlt_dec x 0 then
    if Rle_dec 0 y then (atan (y / x) + PI)%R else (atan (y / x) - PI)%R
  else if Rlt_dec 0 y then (PI / 2)%R
  else if Rlt_dec y 0 then (- (PI / 2))%R
  else 0%R.

Definition Real : Math R :=
  mkMath R PI Rplus Rminus Rmult Rdiv sin cos acos R_sqrt.sqrt Ratan2 INR.

(** The angular separation [d] of two points given in degrees, as the
    routine computes it. *)
Definition separation (lat1 lon1 lat2 lon2 : R) : R :=
  distance Real (toRad Real lat1) (toRad Real lon1) (toRad Real lat2) (toRad Real lon2).

(** The point of the unit sphere that a pair of coordinates in degrees
    names; two pairs name the same point when the vectors are equal (at a
    pole whatever the longitudes, and for the longitudes -180 and 180). *)
Definition unit_vector (p : R * R) : R * R * R :=
  let phi := toRad Real (fst p) in
  let lam := toRad Real (snd p) in
  (cos phi * cos lam, cos phi * sin lam, sin phi)%R.


(** What the loop body returns for the vector of [(phi, lam)] alone,
    that is for the weights 1 and 0. *)
Definition back_from_vector (phi lam : R) : R * R :=
  (toDeg Real
     (Ratan2 (sin phi)
             (R_sqrt.sqrt (cos phi * cos lam * (cos phi * cos lam)
                           + cos phi * sin lam * (cos phi * sin lam))%R)),
   toDeg Real (Ratan2 (cos phi * sin lam) (cos phi * cos lam))%R).

End GreatCircle.

(* ================================================================== *)
(** * The locator decoding, as specified *)
(* ================================================================== *)

Module Locator.

(** The specification reads a locator as digits at three tiers: a field
    (two letters), a square (two digits) and an optional sub-square (two
    letters), letters counting from [A] whatever their case. *)
Definition letter_index (c : ascii) : option Z :=
  if JS.is_upper c then Some (Z.of_nat (nat_of_ascii c) - 65)%Z
  else if JS.is_lower c then Some (Z.of_nat (nat_of_ascii c) - 97)%Z
  else None.

Definition digit_value (c : ascii) : option Z :=
  if JS.is_digit c then Some (Z.of_nat (nat_of_ascii c) - 48)%Z else None.

Record Cell : Type := mkCell {
  field_lon : Z;
  field_lat : Z;
  square_lon : Z;
  square_lat : Z;
  subsquare : option (Z * Z)
}.

(** The sub-square is read when 6 or more characters are present; a
    fifth character alone is ignored. *)
Definition read_subsquare (rest : string) : option (option (Z * Z)) :=
  match rest with
  | String c4 (String c5 _) =>
      match letter_index c4, letter_index c5 with
      | Some a, Some b => Some (Some (a, b))
      | _, _ => None
      end
  | _ => Some None
  end.

Definition read (locator : string) : option Cell :=
  match locator with
  | String c0 (String c1 (String c2 (String c3 rest))) =>
      match letter_index c0, letter_index c1, digit_value c2, digit_value c3,
            read_subsquare rest with
      | Some f0, Some f1, Some d0, Some d1, Some sub =>
          Some (mkCell f0 f1 d0 d1 sub)
      | _, _, _, _, _ => None
      end
  | _ => None
  end.

(** The center of the cell: the base [(-180, -90)], 20 and 10 degrees per
    field letter, 2 and 1 degrees per square digit, then either the
    offset [+1] / [+0.5] of a square's center, or [2/24] and [1/24] of a
    degree per sub-square letter and the offset [1/24] / [0.5/24]. *)
Definition center_lon (c : Cell) : Q :=
  (-180 + 20 * inject_Z (field_lon c) + 2 * inject_Z (square_lon c)
   + match subsquare c with
     | None => 1
     | Some (a, _) => (2 / 24) * inject_Z a + 1 / 24
     end)%Q.

Definition center_lat (c : Cell) : Q :=
  (-90 + 10 * inject_Z (field_lat c) + 1 * inject_Z (square_lat c)
   + match subsquare c with
     | None => 5 # 10
     | Some (_, b) => (1 / 24) * inject_Z b + (5 # 10) / 24
     end)%Q.

(** Two results of a decoder are the same when both are [null] or both
    hold equal coordinates. *)
Definition same_result (a b : option LatLon) : Prop :=
  match a, b with
  | None, None => True
  | Some p, Some q => JS.num_eq (lat p) (lat q) /\ JS.num_eq (lon p) (lon q)
  | _, _ => False
  end.

End Locator.

(* ================================================================== *)
(** * The views of the DX cluster hook *)
(* ================================================================== *)

Module DXViews.
Import DXCluster.



Section Views.

Variable getCallsignInfo : option string -> CallsignInfo.
Variable getBandFromFreq : option string -> option string.
Variable detectMode : option string -> option string.



End Views.

End DXViews.

(* ================================================================== *)
(** * Filter objects that differ in one property *)
(* ================================================================== *)

Module DXFilters.
Import DXCluster.

(** [{ ...filters, callsign }]. *)
Definition with_callsign (filters : Filters) (c : option string) : Filters :=
  mkFilters (watchlistOnly filters) (watchlist filters) (excludeList filters)
            (cqZones filters) (ituZones filters) (continents filters)
            (bands filters) (modes filters) c (spotRetentionMinutes filters).

(** No criterion of [filters] is in force: every list is missing or
    empty, the watchlist is not exclusive, and the search text is
    missing or blank. *)
Definition idle (filters : Filters) : Prop :=
  (watchlistOnly filters <> Some true \/ nonempty (watchlist filters) = false)
  /\ nonempty (excludeList filters) = false
  /\ nonempty (cqZones filters) = false
  /\ nonempty (ituZones filters) = false
  /\ nonempty (continents filters) = false
  /\ nonempty (bands filters) = false
  /\ nonempty (modes filters) = false
  /\ (JS.truthy_str (callsign filters) = false
      \/ JS.truthy_str (option_map JS.trim (callsign filters)) = false).

End DXFilters.

(* ================================================================== *)
(** * The statistics of [usePSKReporter] *)
(* ================================================================== *)

Module PSKStats.
Import JS.

(** A report of [txReports], with the properties the statistics read
    beside those of the pipeline. *)
Record Heard : Type := mkHeard {
  report : PSK.Report;
  band : option string;
  mode : option string;
  snr : option Q
}.

Definition same (a b : option string) : bool :=
  match a, b with
  | Some x, Some y => String.eqb x y
  | None, None => true
  | _, _ => false
  end.

(** [[...new Set(l)]]: the values of [l] in the order of their first
    occurrence, [seen] being the values already in the set. *)
Fixpoint spread_set (seen l : list (option string)) : list (option string) :=
  match l with
  | [] => []
  | x :: l' =>
      if existsb (same x) seen then spread_set seen l'
      else x :: spread_set (x :: seen) l'
  end.

(** [txBands], line 121. *)
Definition txBands (txReports : list Heard) : list (option string) :=
  filter (fun b => truthy_str b && negb (same b (Some "Unknown")))
         (spread_set [] (List.map band txReports)).

(** [txModes], line 122. *)
Definition txModes (txReports : list Heard) : list (option string) :=
  filter truthy_str (spread_set [] (List.map mode txReports)).

(** [r.snr || -99], and [max?.snr || -99] for the accumulator. *)
Definition snr_or_floor (snr : option Q) : Q :=
  match snr with
  | Some q => if Qeq_bool q 0%Q then (-99)%Q else q
  | None => (-99)%Q
  end.

Definition rank (r : option Heard) : Q :=
  match r with
  | Some r => snr_or_floor (snr r)
  | None => (-99)%Q
  end.

(** The callback of [reduce], line 130. *)
Definition better (max : option Heard) (r : Heard) : option Heard :=
  if ltb (rank max) (rank (Some r)) then Some r else max.

(** [stats.bestSnr], lines 129-131. *)
Definition bestSnr (txReports : list Heard) : option Heard :=
  match txReports with
  | [] => None
  | _ :: _ => fold_left better txReports None
  end.

Definition txCount (txReports : list Heard) : nat := List.length txReports.

End PSKStats.

(* ================================================================== *)
(** * Maidenhead cells *)
(* ================================================================== *)

Module Maidenhead.
Import Locator.

(** The cells of the Maidenhead system: fields [A]-[R], squares [0]-[9],
    sub-squares [A]-[X]. *)
Definition in_range (c : Cell) : Prop :=
  (0 <= field_lon c <= 17)%Z /\ (0 <= field_lat c <= 17)%Z
  /\ (0 <= square_lon c <= 9)%Z /\ (0 <= square_lat c <= 9)%Z
  /\ match subsquare c with
     | Some (a, b) => (0 <= a <= 23)%Z /\ (0 <= b <= 23)%Z
     | None => True
     end.

(** The square a cell lies in: the cell without its sub-square. *)
Definition square_of (c : Cell) : Cell :=
  mkCell (field_lon c) (field_lat c) (square_lon c) (square_lat c) None.

(** The longitude of a center in 24ths of a degree and its latitude in
    48ths, as integers. *)
Definition lon_units (c : Cell) : Z :=
  (24 * (-180 + 20 * field_lon c + 2 * square_lon c)
   + match subsquare c with
     | Some (a, _) => 2 * a + 1
     | None => 24
     end)%Z.

Definition lat_units (c : Cell) : Z :=
  (48 * (-90 + 10 * field_lat c + square_lat c)
   + match subsquare c with
     | Some (_, b) => 2 * b + 1
     | None => 24
     end)%Z.

(** A string of ASCII characters only.  On such a string
    [String.prototype.toUpperCase] changes the letters [a]-[z], keeps
    every other character and keeps the length, as [JS.toUpperCase] does;
    beyond ASCII it need not (the sharp s, code 223, becomes [SS] and
    moves the characters behind it). *)
Fixpoint ascii_only (s : string) : bool :=
  match s with
  | EmptyString => true
  | String c s' => (nat_of_ascii c <? 128)%nat && ascii_only s'
  end.

End Maidenhead.

(* ================================================================== *)
(** * The station markers of the WSPR layer *)
(* ================================================================== *)

Module WSPRLayer.

(** A spot of [/api/wspr/heatmap], with the properties the loop of
    [useLayer] keys its markers on and the ones it draws from. *)
Record Spot : Type := mkSpot {
  sender : option string;
  senderGrid : option string;
  receiver : option string;
  receiverGrid : option string;
  senderLat : Q;
  senderLon : Q;
  receiverLat : Q;
  receiverLon : Q;
  snr : option Q
}.

(** A layer the loop adds to the map: the path of a spot, with its
    colour and weight, or the marker of a station, at the position the
    spot gives for it. *)
Inductive Layer : Type :=
| Path (spot : Spot) (color : string) (weight : Q)
| TxMarker (key : string) (position : Q * Q)
| RxMarker (key : string) (position : Q * Q).

(** [`${spot.sender}-${spot.senderGrid}`] and
    [`${spot.receiver}-${spot.receiverGrid}`], lines 447 and 465. *)
Definition txKey (spot : Spot) : string :=
  JS.show (sender spot) ++ "-" ++ JS.show (senderGrid spot).

Definition rxKey (spot : Spot) : string :=
  JS.show (receiver spot) ++ "-" ++ JS.show (receiverGrid spot).

(** [set.has(k)] on a [Set] of strings, kept as the list of its
    members, the latest first. *)
Definition has (set : list string) (k : string) : bool :=
  existsb (String.eqb k) set.

(** What the loop carries: [newPaths], [newMarkers] (both in the order
    of [push]), [txStations] and [rxStations]. *)
Record Drawn : Type := mkDrawn {
  newPaths : list Layer;
  newMarkers : list Layer;
  txStations : list string;
  rxStations : list string
}.

(** One turn of [limitedData.forEach], lines 409-482. *)
Definition draw (d : Drawn) (spot : Spot) : Drawn :=
  let path := Path spot (WSPR.getSNRColor (snr spot)) (WSPR.getLineWeight (snr spot)) in
  let newPaths := (newPaths d ++ [path])%list in
  let d1 :=
    if has (txStations d) (txKey spot) then
      mkDrawn newPaths (newMarkers d) (txStations d) (rxStations d)
    else
      mkDrawn newPaths
              (newMarkers d ++ [TxMarker (txKey spot) (senderLat spot, senderLon spot)])%list
              (txKey spot :: txStations d) (rxStations d) in
  if has (rxStations d1) (rxKey spot) then d1
  else
    mkDrawn (WSPRLayer.newPaths d1)
            (newMarkers d1 ++ [RxMarker (rxKey spot) (receiverLat spot, receiverLon spot)])%list
            (txStations d1) (rxKey spot :: rxStations d1).

(** [wsprData.slice(0, 500)] and the loop over it, lines 401-482. *)
Definition render (wsprData : list Spot) : Drawn :=
  fold_left draw (firstn 500 wsprData) (mkDrawn [] [] [] []).

(** The keys of the markers of one kind, in the order they were
    added. *)
Definition tx_keys (layers : list Layer) : list string :=
  flat_map (fun l => match l with TxMarker k _ => [k] | _ => [] end) layers.

Definition rx_keys (layers : list Layer) : list string :=
  flat_map (fun l => match l with RxMarker k _ => [k] | _ => [] end) layers.

(** What holds of the loop's state after the spots [seen]. *)
Record consistent (seen : list Spot) (d : Drawn) : Prop := mkConsistent {
  paths_counted : List.length (newPaths d) = List.length seen;
  markers_counted :
    List.length (newMarkers d)
    = List.length (txStations d) + List.length (rxStations d);
  tx_unique : NoDup (txStations d);
  rx_unique : NoDup (rxStations d);
  tx_marked : tx_keys (newMarkers d) = rev (txStations d);
  rx_marked : rx_keys (newMarkers d) = rev (rxStations d);
  tx_complete : forall k, In k (txStations d) <-> exists s, In s seen /\ txKey s = k;
  rx_complete : forall k, In k (rxStations d) <-> exists s, In s seen /\ rxKey s = k
}.

End WSPRLayer.

(* ================================================================== *)
(** * Vectors of the unit sphere *)
(* ================================================================== *)

Module Sphere.

Local Open Scope R_scope.

(** The vector of a latitude and a longitude in radians; it is what
    [GreatCircle.unit_vector] takes of a pair in degrees. *)
Definition vector (phi lam : R) : R * R * R :=
  (cos phi * cos lam, cos phi * sin lam, sin phi).

Definition dot (u v : R * R * R) : R :=
  let '(ux, uy, uz) := u in
  let '(vx, vy, vz) := v in
  ux * vx + uy * vy + uz * vz.

(** The weighted sum [x], [y], [z] of lines 339-341 of [getGreatCirclePath],
    for the fraction [f] and the separation [d]. *)
Definition weighted (f d : R) (u v : R * R * R) : R * R * R :=
  let A := sin ((1 - f) * d) / sin d in
  let B := sin (f * d) / sin d in
  let '(ux, uy, uz) := u in
  let '(vx, vy, vz) := v in
  (A * ux + B * vx, A * uy + B * vy, A * uz + B * vz).

End Sphere.

(* ================================================================== *)
(** * The retention window over time *)
(* ================================================================== *)

Module DXWindow.
Import DXCluster.

(** [spotRetentionMs] is computed at each render (line 16) and the fetch
    effect is set up anew when it changes (line 139), so the window the
    hook is configured with after some events is the one the last change
    set, or the one it was mounted with.  The updater of a fetch reads the
    window of the render that started the request, which [Fetched]
    carries. *)
Definition configured (mounted : Z) (events : list Event) : Z :=
  fold_left (fun window e =>
               match e with
               | RetentionChanged _ retention => retention
               | Fetched _ _ _ => window
               end) events mounted.

(** The age of lines 119 and 145: [now - (item.timestamp || now)]. *)
Definition age (now : Z) (item : Item) : Z := (now - timestamp_or item now)%Z.

(** The [filters] object with [spotRetentionMinutes] alone. *)
Definition with_retention (minutes : Z) : Filters :=
  mkFilters None None None None None None None None None (Some minutes).

(** A spot reported by the feed with its own timestamp, and a session.
    The hook is mounted with a window of 60 minutes; its first fetch,
    9 minutes 40 seconds after the spot was made, brings the spot.  The
    next poll, 30 seconds later, sends its request; half a second later,
    with the request under way, the user sets the window to 5 minutes;
    another half second later the response arrives, with the same spot. *)
Definition spot_time : Z := 1700000000000.

Definition old_spot : Item :=
  mkItem (Some "K1ABC") None (Some "14074.0") (Some "W1AW") (Some spot_time)
         None None None None None.

Definition mounted_window : Z := spotRetentionMs (Some (with_retention 60)).

Definition window_changed_in_flight : list Event :=
  [ Fetched (spot_time + 580000) mounted_window [old_spot];
    RetentionChanged (spot_time + 610500) (spotRetentionMs (Some (with_retention 5)));
    Fetched (spot_time + 611000) mounted_window [old_spot] ].

(** ** What a fetch should leave, in the words of the specification *)

(** The batch's last report under its key: each report of the batch sets
    its key anew, so within the batch the last one stays. *)
Definition last_of_batch (newData : list Item) (item : Item) : Prop :=
  exists before after,
    newData = (before ++ item :: after)%list
    /\ forall other, In other after -> key other <> key item.

(** The merged set: the last report of the batch under each key, stamped
    with the time of the fetch where it has no timestamp, and the items
    held before whose key the batch does not bring. *)
Definition merged (now : Z) (newData prev : list Item) (x : Item) : Prop :=
  (exists item, last_of_batch newData item /\ x = stamp now item)
  \/ (In x prev /\ forall item, In item newData -> key item <> key x).

(** An entry of the merged set survives the eviction when its age is
    below the window. *)
Definition survives (now retention : Z) (newData prev : list Item) (x : Item) : Prop :=
  merged now newData prev x /\ (age now x < retention)%Z.

End DXWindow.

(* ================================================================== *)
(** * Properties of the great-circle path *)
(* ================================================================== *)

Section PathShape.
Import GreatCircle.
Context {F : Type} (M : Math F).


(** The [i]-th element is the loop body at [i]. *)
Lemma path_nth (lat1 lon1 lat2 lon2 : F) (numPoints i : nat) :
  i <= numPoints ->
  nth_error (getGreatCirclePath M lat1 lon1 lat2 lon2 numPoints) i =
  Some (point M (toRad M lat1) (toRad M lon1) (toRad M lat2) (toRad M lon2)
              (distance M (toRad M lat1) (toRad M lon1) (toRad M lat2) (toRad M lon2))
              numPoints i).
Proof.
  intros Hi. unfold getGreatCirclePath.
  apply map_nth_error. rewrite nth_error_seq.
  destruct (Nat.ltb_spec i (S numPoints)); [reflexivity | lia].
Qed.

Lemma map_constant {A B : Type} (f : A -> B) (b : B) (l : list A) :
  (forall a, f a = b) -> List.map f l = repeat b (List.length l).
Proof.
  intros Hf. induction l as [| a l IH]; simpl; [reflexivity |].
  rewrite Hf, IH. reflexivity.
Qed.

End PathShape.

(** ** Binary64: coincident endpoints *)

Section Float64Path.
Import GreatCircle.
Variable L : Libm.
Hypothesis E : Ecma262 L.

(** A product with zero is a zero or [NaN]. *)
Lemma mul_zero_cases (x : float) :
  (x * 0 = 0 \/ x * 0 = -0 \/ x * 0 = nan)%float.
Proof.
  rewrite <- (SF2Prim_Prim2SF (x * 0)%float), mul_spec.
  destruct (Prim2SF x) as [[|]|[|]| |[|] m e]; cbn; auto.
Qed.

(** With [d = 0] both weights are [0 / 0]. *)
Lemma weight_nan (x : float) : (fsin L (x * 0) / fsin L 0 = nan)%float.
Proof.
  rewrite (sin_zero L E).
  destruct (mul_zero_cases x) as [-> | [-> | ->]].
  - rewrite (sin_zero L E). reflexivity.
  - rewrite (sin_neg_zero L E). reflexivity.
  - rewrite (sin_nan L E). reflexivity.
Qed.

Lemma point_nan (numPoints i : nat) :
  point (Float64 L) 0%float 0%float 0%float 0%float 0%float numPoints i = (nan, nan).
Proof.
  unfold point, toDeg.
  cbn [m_add m_sub m_mul m_div m_sin m_cos m_atan2 m_sqrt m_nat m_pi Float64].
  rewrite !weight_nan.
  rewrite (sin_zero L E), (cos_zero L E).
  cbn.
  rewrite (atan2_nan_l L E). reflexivity.
Qed.

Lemma distance_zero :
  distance (Float64 L) (toRad (Float64 L) 0%float) (toRad (Float64 L) 0%float)
           (toRad (Float64 L) 0%float) (toRad (Float64 L) 0%float) = 0%float.
Proof.
  unfold distance, toRad.
  cbn [m_add m_sub m_mul m_div m_sin m_cos m_acos m_nat m_pi Float64].
  change (0 * float_pi / float_of_nat 180)%float with 0%float.
  change (0 - 0)%float with 0%float.
  rewrite (sin_zero L E), (cos_zero L E).
  change (0 * 0 + 1 * 1 * 1)%float with 1%float.
  apply (acos_one L E).
Qed.

End Float64Path.

(** C2.  The claim is that for endpoints whose angular separation is below
    a small epsilon the interpolator returns a repeat of the first
    endpoint instead of [NaN] coordinates.  The routine has no such case:
    for the coincident endpoints [(0, 0)] and [(0, 0)], on any host whose
    [Math] object follows ECMA-262, the distance is [+0], both weights are
    [0 / 0], and every one of the [numPoints + 1] points is
    [[NaN, NaN]]. *)
Theorem C2_coincident_endpoints_give_NaN (L : GreatCircle.Libm) (numPoints : nat) :
  GreatCircle.Ecma262 L ->
  GreatCircle.getGreatCirclePath (GreatCircle.Float64 L)
    0%float 0%float 0%float 0%float numPoints
  = repeat (nan, nan) (S numPoints).
Proof.
  intros E. unfold GreatCircle.getGreatCirclePath.
  rewrite (distance_zero L E).
  change (GreatCircle.toRad (GreatCircle.Float64 L) 0%float) with 0%float.
  rewrite (map_constant _ (nan, nan)).
  - rewrite length_seq. reflexivity.
  - intros i. apply point_nan. exact E.
Qed.

Lemma series_libm_ecma262 : GreatCircle.Ecma262 GreatCircle.series_libm.
Proof.
  constructor; try reflexivity.
  intros y. unfold GreatCircle.series_libm, GreatCircle.fatan2, GreatCircle.series_atan2.
  destruct (is_nan y); reflexivity.
Qed.

Lemma C2_coincident_endpoints_give_NaN_witness :
  GreatCircle.getGreatCirclePath (GreatCircle.Float64 GreatCircle.series_libm)
    0%float 0%float 0%float 0%float 30
  = repeat (nan, nan) 31.
Proof.
  apply (C2_coincident_endpoints_give_NaN GreatCircle.series_libm 30).
  exact series_libm_ecma262.
Defined.

(** ** Exact arithmetic: the endpoints *)

Section RealPath.
Import GreatCircle.
Local Open Scope R_scope.

Lemma tan_plus_PI (x : R) : cos x <> 0 -> tan (x + PI) = tan x.
Proof.
  intros Hc. unfold tan. rewrite neg_sin, neg_cos. field. exact Hc.
Qed.

Lemma Ratan2_right (y x : R) : 0 < x -> Ratan2 y x = atan (y / x).
Proof.
  intros H. unfold Ratan2. destruct (Rlt_dec 0 x); [reflexivity | lra].
Qed.

Lemma Ratan2_upper_left (y x : R) :
  x < 0 -> 0 <= y -> Ratan2 y x = atan (y / x) + PI.
Proof.
  intros Hx Hy. unfold Ratan2.
  destruct (Rlt_dec 0 x); [lra |].
  destruct (Rlt_dec x 0); [| lra].
  destruct (Rle_dec 0 y); [reflexivity | lra].
Qed.

Lemma Ratan2_lower_left (y x : R) :
  x < 0 -> y < 0 -> Ratan2 y x = atan (y / x) - PI.
Proof.
  intros Hx Hy. unfold Ratan2.
  destruct (Rlt_dec 0 x); [lra |].
  destruct (Rlt_dec x 0); [| lra].
  destruct (Rle_dec 0 y); [lra | reflexivity].
Qed.

Lemma Ratan2_up (y : R) : 0 < y -> Ratan2 y 0 = PI / 2.
Proof.
  intros Hy. unfold Ratan2.
  destruct (Rlt_dec 0 0); [lra |].
  destruct (Rlt_dec 0 y); [reflexivity | lra].
Qed.

Lemma Ratan2_down (y : R) : y < 0 -> Ratan2 y 0 = - (PI / 2).
Proof.
  intros Hy. unfold Ratan2.
  destruct (Rlt_dec 0 0); [lra |].
  destruct (Rlt_dec 0 y); [lra |].
  destruct (Rlt_dec y 0); [reflexivity | lra].
Qed.

Lemma polar_quotient (c t : R) :
  0 < c -> cos t <> 0 -> c * sin t / (c * cos t) = tan t.
Proof. intros Hc Ht. unfold tan. field. split; lra. Qed.

(** [atan2] recovers the angle of a point given in polar form, one
    quadrant (or half-axis) at a time. *)
Lemma Ratan2_polar (c t : R) :
  0 < c -> - PI < t <= PI -> Ratan2 (c * sin t) (c * cos t) = t.
Proof.
  intros Hc [Hlo Hhi].
  pose proof PI_RGT_0 as Hpi.
  destruct (Rtotal_order t (- (PI / 2))) as [Hl | [He | Hg]].
  - assert (Hcos : cos t < 0).
    { rewrite <- cos_neg. apply cos_lt_0; lra. }
    assert (Hsin : sin t < 0) by (apply sin_lt_0_var; lra).
    rewrite Ratan2_lower_left by nra.
    rewrite polar_quotient by lra.
    rewrite <- (tan_plus_PI t) by lra.
    rewrite atan_tan by lra. ring.
  - subst t. rewrite cos_neg, sin_neg, cos_PI2, sin_PI2.
    replace (c * 0) with 0 by ring.
    apply Ratan2_down. lra.
  - destruct (Rtotal_order t (PI / 2)) as [Hl | [He | Hg']].
    + assert (Hcos : 0 < cos t) by (apply cos_gt_0; lra).
      rewrite Ratan2_right by nra.
      rewrite polar_quotient by lra.
      apply atan_tan. lra.
    + subst t. rewrite cos_PI2, sin_PI2.
      replace (c * 0) with 0 by ring.
      rewrite Ratan2_up by lra. reflexivity.
    + assert (Hcos : cos t < 0) by (apply cos_lt_0; lra).
      assert (Hsin : 0 <= sin t) by (apply sin_ge_0; lra).
      rewrite Ratan2_upper_left by nra.
      rewrite polar_quotient by lra.
      assert (Hc' : cos (t - PI) <> 0).
      { replace (t - PI) with (- (PI - t)) by ring. rewrite cos_neg.
        replace (PI - t) with (- t + PI) by ring. rewrite neg_cos, cos_neg. lra. }
      replace (tan t) with (tan (t - PI)).
      2:{ rewrite <- (tan_plus_PI (t - PI)) by exact Hc'. f_equal. ring. }
      rewrite atan_tan by lra. ring.
Qed.

Lemma sqrt_polar (c t : R) :
  0 <= c ->
  R_sqrt.sqrt (c * cos t * (c * cos t) + c * sin t * (c * sin t)) = c.
Proof.
  intros Hc.
  replace (c * cos t * (c * cos t) + c * sin t * (c * sin t))
    with (c * c * (Rsqr (sin t) + Rsqr (cos t))) by (unfold Rsqr; ring).
  rewrite sin2_cos2, Rmult_1_r. apply sqrt_square. exact Hc.
Qed.

(** The conversion back from the unit vector of [(phi, lam)]: the
    latitude comes back as it is. *)
Lemma latitude_angle (phi lam : R) :
  - (PI / 2) <= phi <= PI / 2 ->
  Ratan2 (sin phi)
         (R_sqrt.sqrt (cos phi * cos lam * (cos phi * cos lam)
                       + cos phi * sin lam * (cos phi * sin lam))) = phi.
Proof.
  intros [Hlo Hhi].
  assert (Hc : 0 <= cos phi) by (apply cos_ge_0; assumption).
  rewrite sqrt_polar by exact Hc.
  pose proof PI_RGT_0 as Hpi.
  destruct (Req_dec phi (PI / 2)) as [-> | Hne1].
  - rewrite sin_PI2, cos_PI2. apply Ratan2_up. lra.
  - destruct (Req_dec phi (- (PI / 2))) as [-> | Hne2].
    + rewrite sin_neg, cos_neg, sin_PI2, cos_PI2. apply Ratan2_down. lra.
    + pose proof (Ratan2_polar 1 phi) as H.
      rewrite !Rmult_1_l in H. apply H; lra.
Qed.


Lemma INR_180 : INR 180 = 180.
Proof. rewrite INR_IZR_INZ. reflexivity. Qed.

Lemma toDeg_toRad (x : R) : toDeg Real (toRad Real x) = x.
Proof.
  unfold toDeg, toRad. cbn [m_mul m_div m_pi m_nat Real].
  rewrite INR_180. field. apply PI_neq0.
Qed.

Lemma toRad_toDeg (x : R) : toRad Real (toDeg Real x) = x.
Proof.
  unfold toDeg, toRad. cbn [m_mul m_div m_pi m_nat Real].
  rewrite INR_180. field. apply PI_neq0.
Qed.

Lemma toRad_lat (x : R) : -90 <= x <= 90 -> - (PI / 2) <= toRad Real x <= PI / 2.
Proof.
  intros H. unfold toRad. cbn [m_mul m_div m_pi m_nat Real].
  rewrite INR_180. pose proof PI_RGT_0. split; nra.
Qed.

Lemma toRad_lon (x : R) : -180 <= x <= 180 -> - PI <= toRad Real x <= PI.
Proof.
  intros H. unfold toRad. cbn [m_mul m_div m_pi m_nat Real].
  rewrite INR_180. pose proof PI_RGT_0. split; nra.
Qed.

Lemma toRad_lon_strict (x : R) : -180 < x -> - PI < toRad Real x.
Proof.
  intros H. unfold toRad. cbn [m_mul m_div m_pi m_nat Real].
  rewrite INR_180. pose proof PI_RGT_0. nra.
Qed.

Lemma toRad_lat_strict (x : R) :
  -90 < x < 90 -> - (PI / 2) < toRad Real x < PI / 2.
Proof.
  intros H. unfold toRad. cbn [m_mul m_div m_pi m_nat Real].
  rewrite INR_180. pose proof PI_RGT_0. split; nra.
Qed.

(** At [i = 0] the weights are [A = 1] and [B = 0]. *)
Lemma point_first (p1 l1 p2 l2 d : R) (n : nat) :
  sin d <> 0 ->
  point Real p1 l1 p2 l2 d n 0 = back_from_vector p1 l1.
Proof.
  intros Hd. unfold point, back_from_vector.
  cbn [m_add m_sub m_mul m_div m_sin m_cos m_atan2 m_sqrt m_nat m_pi Real].
  replace (INR 0 / INR n) with 0 by (simpl; unfold Rdiv; ring).
  replace (sin ((INR 1 - 0) * d) / sin d) with 1
    by (simpl; replace ((1 - 0) * d) with d by ring; field; exact Hd).
  replace (sin (0 * d) / sin d) with 0
    by (rewrite Rmult_0_l, sin_0; unfold Rdiv; ring).
  replace (1 * cos p1 * cos l1 + 0 * cos p2 * cos l2) with (cos p1 * cos l1) by ring.
  replace (1 * cos p1 * sin l1 + 0 * cos p2 * sin l2) with (cos p1 * sin l1) by ring.
  replace (1 * sin p1 + 0 * sin p2) with (sin p1) by ring.
  reflexivity.
Qed.



Lemma back_from_vector_coordinates (lat lon : R) :
  -90 < lat < 90 -> -180 < lon <= 180 ->
  back_from_vector (toRad Real lat) (toRad Real lon) = (lat, lon).
Proof.
  intros Hlat Hlon. unfold back_from_vector.
  assert (Hlat' : -90 <= lat <= 90) by lra.
  rewrite (latitude_angle _ _ (toRad_lat lat Hlat')).
  rewrite Ratan2_polar.
  - rewrite !toDeg_toRad. reflexivity.
  - apply cos_gt_0; apply (toRad_lat_strict lat Hlat).
  - split; [apply toRad_lon_strict; lra | apply toRad_lon; lra].
Qed.

End RealPath.


Lemma separation_quarter_turn :
  GreatCircle.separation 0%R 0%R 0%R 90%R = (PI / 2)%R.
Proof.
  unfold GreatCircle.separation, GreatCircle.distance, GreatCircle.toRad.
  cbn [GreatCircle.m_add GreatCircle.m_sub GreatCircle.m_mul GreatCircle.m_div
       GreatCircle.m_sin GreatCircle.m_cos GreatCircle.m_acos GreatCircle.m_nat
       GreatCircle.m_pi GreatCircle.Real].
  rewrite INR_180.
  replace (0 * PI / 180)%R with 0%R by (unfold Rdiv; ring).
  replace (90 * PI / 180 - 0)%R with (PI / 2)%R by field.
  rewrite sin_0, cos_0, cos_PI2.
  replace (0 * 0 + 1 * 1 * 0)%R with 0%R by ring.
  apply acos_0.
Qed.


(* ================================================================== *)
(** * Properties of the locator decoding *)
(* ================================================================== *)

Section LocatorProofs.
Import JS Locator.

Lemma upper_char_idempotent (c : ascii) : upper_char (upper_char c) = upper_char c.
Proof. destruct c as [[] [] [] [] [] [] [] []]; reflexivity. Qed.

Lemma toUpperCase_idempotent (s : string) : toUpperCase (toUpperCase s) = toUpperCase s.
Proof.
  induction s as [| c s IH]; simpl; [reflexivity |].
  rewrite upper_char_idempotent, IH. reflexivity.
Qed.


Lemma toUpperCase_empty (s : string) : String.eqb (toUpperCase s) "" = String.eqb s "".
Proof. destruct s; reflexivity. Qed.

(** The code of the upper-cased letter is [65] more than its index. *)
Lemma letter_code (c : ascii) (k : Z) :
  letter_index c = Some k ->
  Z.of_nat (nat_of_ascii (upper_char c)) = (k + 65)%Z.
Proof.
  destruct c as [[] [] [] [] [] [] [] []]; vm_compute; intros H;
    first [discriminate H | injection H as <-; reflexivity].
Qed.

(** Upper-casing leaves a digit alone, and [parseInt] reads its value. *)
Lemma digit_code (c : ascii) (k : Z) :
  digit_value c = Some k ->
  is_digit (upper_char c) = true
  /\ Z.of_nat (nat_of_ascii (upper_char c) - 48) = k.
Proof.
  destruct c as [[] [] [] [] [] [] [] []]; vm_compute; intros H;
    first [discriminate H | injection H as <-; split; reflexivity].
Qed.

End LocatorProofs.
Section LocatorDecoding.
Import JS Locator.

Lemma read_shape (s : string) (cell : Cell) :
  read s = Some cell ->
  exists c0 c1 c2 c3 rest,
    s = String c0 (String c1 (String c2 (String c3 rest)))
    /\ letter_index c0 = Some (field_lon cell)
    /\ letter_index c1 = Some (field_lat cell)
    /\ digit_value c2 = Some (square_lon cell)
    /\ digit_value c3 = Some (square_lat cell)
    /\ read_subsquare rest = Some (subsquare cell).
Proof.
  destruct s as [| c0 [| c1 [| c2 [| c3 rest]]]]; try discriminate.
  unfold read.
  destruct (letter_index c0) as [f0 |] eqn:E0; [| discriminate].
  destruct (letter_index c1) as [f1 |] eqn:E1; [| discriminate].
  destruct (digit_value c2) as [d0 |] eqn:E2; [| discriminate].
  destruct (digit_value c3) as [d1 |] eqn:E3; [| discriminate].
  destruct (read_subsquare rest) as [sub |] eqn:E4; [| discriminate].
  intros H. injection H as <-. simpl.
  exists c0, c1, c2, c3, rest. repeat split; assumption.
Qed.

(** Evaluate a decoder on a locator whose characters are known, then
    compare the coordinates by ring arithmetic. *)
Ltac decode_cell :=
  cbn -[Qplus Qmult Qminus Qdiv inject_Z nat_of_ascii upper_char is_digit Nat.sub];
  unfold charCodeAt, parseInt_at; cbn [String.get];
  repeat match goal with
         | H : is_digit _ = true |- _ => rewrite H
         | H : Z.of_nat _ = _ |- _ => rewrite H
         end;
  eexists; split; [reflexivity |];
  unfold center_lat, center_lon; cbn -[Qplus Qmult Qminus Qdiv inject_Z];
  rewrite ?inject_Z_plus; split; field.

Ltac decode_by_shape f :=
  let H := fresh "H" in
  intros H;
  match type of H with
  | read ?s = Some ?cell =>
      destruct (read_shape s cell H)
        as (c0 & c1 & c2 & c3 & rest & -> & H0 & H1 & H2 & H3 & Hsub);
      destruct cell as [f0 f1 d0 d1 sub]; simpl in H0, H1, H2, H3, Hsub;
      clear H;
      destruct (digit_code c2 d0 H2) as [Hd2 Hv2];
      destruct (digit_code c3 d1 H3) as [Hd3 Hv3];
      pose proof (letter_code c0 f0 H0) as Hc0;
      pose proof (letter_code c1 f1 H1) as Hc1;
      clear H0 H1 H2 H3;
      unfold f;
      destruct rest as [| c4 [| c5 rest]];
      [ injection Hsub as <-; decode_cell
      | injection Hsub as <-; decode_cell
      | simpl in Hsub;
        destruct (letter_index c4) as [a |] eqn:E4; [| discriminate Hsub];
        destruct (letter_index c5) as [b |] eqn:E5; [| discriminate Hsub];
        injection Hsub as <-;
        pose proof (letter_code c4 a E4) as Hc4;
        pose proof (letter_code c5 b E5) as Hc5;
        clear E4 E5;
        decode_cell ]
  end.

Lemma PSK_decodes (s : string) (cell : Cell) :
  read s = Some cell ->
  exists p, PSK.gridToLatLon (Some s) = Some p
            /\ num_eq (lat p) (Num (center_lat cell))
            /\ num_eq (lon p) (Num (center_lon cell)).
Proof. decode_by_shape PSK.gridToLatLon. Qed.

Lemma WSPR_decodes (s : string) (cell : Cell) :
  read s = Some cell ->
  exists p, WSPR.gridToLatLon (Some s) = Some p
            /\ num_eq (lat p) (Num (center_lat cell))
            /\ num_eq (lon p) (Num (center_lon cell)).
Proof. decode_by_shape WSPR.gridToLatLon. Qed.

End LocatorDecoding.

Section LocatorContract.
Import JS Locator.






End LocatorContract.



(* ================================================================== *)
(** * Properties of the SNR classes *)
(* ================================================================== *)

Section SnrClasses.
Local Open Scope Q_scope.

Lemma ltb_true_iff (a b : Q) : JS.ltb a b = true <-> a < b.
Proof.
  unfold JS.ltb. rewrite negb_true_iff.
  split.
  - intros H. apply Qnot_le_lt. intros Hle.
    apply Qle_bool_iff in Hle. congruence.
  - intros H. destruct (Qle_bool b a) eqn:E; [| reflexivity].
    apply Qle_bool_iff in E. exfalso. apply (Qlt_not_le _ _ H E).
Qed.

Lemma ltb_false_iff (a b : Q) : JS.ltb a b = false <-> b <= a.
Proof.
  unfold JS.ltb. rewrite negb_false_iff. apply Qle_bool_iff.
Qed.

Lemma geb_true_iff (a b : Q) : JS.geb a b = true <-> b <= a.
Proof. unfold JS.geb. apply Qle_bool_iff. Qed.

Lemma geb_false_iff (a b : Q) : JS.geb a b = false <-> a < b.
Proof.
  unfold JS.geb. split.
  - intros H. apply Qnot_le_lt. intros Hle.
    apply Qle_bool_iff in Hle. congruence.
  - intros H. destruct (Qle_bool b a) eqn:E; [| reflexivity].
    apply Qle_bool_iff in E. exfalso. apply (Qlt_not_le _ _ H E).
Qed.

(** Decide every comparison of the classifiers and keep the facts. *)
Ltac split_bands :=
  repeat match goal with
         | |- context [JS.ltb ?a ?b] =>
             let E := fresh "E" in
             destruct (JS.ltb a b) eqn:E;
             [apply ltb_true_iff in E | apply ltb_false_iff in E]
         | |- context [JS.geb ?a ?b] =>
             let E := fresh "E" in
             destruct (JS.geb a b) eqn:E;
             [apply geb_true_iff in E | apply geb_false_iff in E]
         end.

Lemma WSPR_bands (s : Q) :
  (s < -20 ->
   WSPR.getSNRColor (Some s) = "#ff0000" /\ WSPR.getLineWeight (Some s) = 1)
  /\ (-20 <= s < -10 ->
      WSPR.getSNRColor (Some s) = "#ff6600" /\ WSPR.getLineWeight (Some s) = 15 # 10)
  /\ (-10 <= s < 0 ->
      WSPR.getSNRColor (Some s) = "#ffaa00" /\ WSPR.getLineWeight (Some s) = 2)
  /\ (0 <= s < 5 ->
      WSPR.getSNRColor (Some s) = "#ffff00" /\ WSPR.getLineWeight (Some s) = 25 # 10)
  /\ (5 <= s ->
      WSPR.getSNRColor (Some s) = "#00ff00" /\ WSPR.getLineWeight (Some s) = 3).
Proof.
  unfold WSPR.getSNRColor, WSPR.getLineWeight.
  repeat split; intros; split_bands; first [reflexivity | exfalso; Lqa.lra].
Qed.

Lemma WSPR_weight_monotone (a b : Q) :
  a <= b -> WSPR.getLineWeight (Some a) <= WSPR.getLineWeight (Some b).
Proof.
  intros Hab. unfold WSPR.getLineWeight.
  split_bands; first [Lqa.lra | apply Qle_refl | discriminate | (unfold Qle; simpl; lia)].
Qed.

Lemma WSPR_weight_minimum (snr : option Q) :
  WSPR.getLineWeight None <= WSPR.getLineWeight snr.
Proof.
  destruct snr as [s |]; unfold WSPR.getLineWeight;
    split_bands; unfold Qle; simpl; lia.
Qed.

Lemma WSPR_neutral_distinct (s : Q) :
  WSPR.getSNRColor (Some s) <> WSPR.getSNRColor None.
Proof.
  unfold WSPR.getSNRColor. split_bands; discriminate.
Qed.

Lemma Panel_bands (s : Q) :
  (s < -15 -> Panel.getSnrColor (Some s) = "#ef4444")
  /\ (-15 <= s < -10 -> Panel.getSnrColor (Some s) = "#f97316")
  /\ (-10 <= s < 0 -> Panel.getSnrColor (Some s) = "#fbbf24")
  /\ (0 <= s -> Panel.getSnrColor (Some s) = "#4ade80").
Proof.
  unfold Panel.getSnrColor.
  repeat split; intros; split_bands; first [reflexivity | exfalso; Lqa.lra].
Qed.

End SnrClasses.

(** C8, as the code has it.  [getSNRColor] and [getLineWeight] of
    [useWSPR.js] use the five half-open bands with boundaries -20, -10, 0
    and 5 dB, give an absent SNR a neutral colour of its own and the
    minimum weight, and give weights that never decrease with the SNR.
    [getSnrColor] of [PSKReporterPanel.jsx] does not use those bands: it
    has four, with boundaries -15, -10 and 0 dB, and its own colour for an
    absent SNR. *)
Theorem C8_snr_bands_per_classifier :
  (forall s : Q,
      (s < -20 ->
       WSPR.getSNRColor (Some s) = "#ff0000" /\ WSPR.getLineWeight (Some s) = 1)
      /\ (-20 <= s < -10 ->
          WSPR.getSNRColor (Some s) = "#ff6600"
          /\ WSPR.getLineWeight (Some s) = 15 # 10)
      /\ (-10 <= s < 0 ->
          WSPR.getSNRColor (Some s) = "#ffaa00" /\ WSPR.getLineWeight (Some s) = 2)
      /\ (0 <= s < 5 ->
          WSPR.getSNRColor (Some s) = "#ffff00"
          /\ WSPR.getLineWeight (Some s) = 25 # 10)
      /\ (5 <= s ->
          WSPR.getSNRColor (Some s) = "#00ff00" /\ WSPR.getLineWeight (Some s) = 3))%Q
  /\ WSPR.getSNRColor None = "#888888"
  /\ (forall s : Q, WSPR.getSNRColor (Some s) <> WSPR.getSNRColor None)
  /\ (forall snr : option Q, WSPR.getLineWeight None <= WSPR.getLineWeight snr)%Q
  /\ (forall a b : Q,
         a <= b -> WSPR.getLineWeight (Some a) <= WSPR.getLineWeight (Some b))%Q
  /\ (forall s : Q,
         (s < -15 -> Panel.getSnrColor (Some s) = "#ef4444")
         /\ (-15 <= s < -10 -> Panel.getSnrColor (Some s) = "#f97316")
         /\ (-10 <= s < 0 -> Panel.getSnrColor (Some s) = "#fbbf24")
         /\ (0 <= s -> Panel.getSnrColor (Some s) = "#4ade80"))%Q
  /\ (forall s : Q, Panel.getSnrColor (Some s) <> Panel.getSnrColor None).
Proof.
  split; [exact WSPR_bands |].
  split; [reflexivity |].
  split; [exact WSPR_neutral_distinct |].
  split; [exact WSPR_weight_minimum |].
  split; [exact WSPR_weight_monotone |].
  split; [exact Panel_bands |].
  intros s. unfold Panel.getSnrColor.
  destruct (JS.geb s 0); [discriminate |].
  destruct (JS.geb s (-10)); [discriminate |].
  destruct (JS.geb s (-15)); discriminate.
Qed.

(** The README's sample spot, at -15 dB. *)
Lemma C8_snr_bands_per_classifier_witness :
  WSPR.getSNRColor (Some (-15)%Q) = "#ff6600"
  /\ WSPR.getLineWeight (Some (-15)%Q) = (15 # 10)%Q
  /\ Panel.getSnrColor (Some (-15)%Q) = "#f97316".
Proof.
  destruct C8_snr_bands_per_classifier as (Hw & _ & _ & _ & _ & Hp & _).
  destruct (Hw (-15)%Q) as (_ & Hband & _).
  destruct (Hp (-15)%Q) as (_ & Hpanel & _).
  split; [| split].
  - apply Hband. split; [discriminate | reflexivity].
  - apply Hband. split; [discriminate | reflexivity].
  - apply Hpanel. split; [discriminate | reflexivity].
Defined.

(** C8, as claimed, fails: -18 and -12 dB lie in one band, [-20, -10), and
    the panel gives them two colours; 2 and 7 dB lie in two bands, [0, 5)
    and [>= 5], and the panel gives them one. *)
Lemma C8_panel_bands_differ :
  (WSPR.getSNRColor (Some (-18)%Q) = WSPR.getSNRColor (Some (-12)%Q)
   /\ Panel.getSnrColor (Some (-18)%Q) <> Panel.getSnrColor (Some (-12)%Q))
  /\ (WSPR.getSNRColor (Some 2%Q) <> WSPR.getSNRColor (Some 7%Q)
      /\ Panel.getSnrColor (Some 2%Q) = Panel.getSnrColor (Some 7%Q)).
Proof.
  repeat split; try reflexivity; vm_compute; discriminate.
Qed.

(* ================================================================== *)
(** * Properties of the PSKReporter report pipeline *)
(* ================================================================== *)

Section CoordinateFilter.
Import JS Locator.

(** The center of a cell is never on the equator or the prime meridian:
    taken 2-, 24- or 48-fold it is an odd integer. *)
Lemma odd_not_zero (q : Q) (m k : Z) :
  (inject_Z m * q == inject_Z (2 * k + 1))%Q -> ~ (q == 0)%Q.
Proof.
  intros E H. rewrite H in E.
  unfold Qeq, Qmult, inject_Z in E. cbn [Qnum Qden] in E. lia.
Qed.

Lemma center_lat_nonzero (cell : Cell) : ~ (center_lat cell == 0)%Q.
Proof.
  destruct cell as [f0 f1 d0 d1 [[a b] |]]; unfold center_lat;
    cbn [subsquare field_lat square_lat].
  - apply (odd_not_zero _ 48 (24 * (-90 + 10 * f1 + d1) + b)).
    repeat (rewrite inject_Z_plus || rewrite inject_Z_mult); field.
  - apply (odd_not_zero _ 2 (-90 + 10 * f1 + d1)).
    repeat (rewrite inject_Z_plus || rewrite inject_Z_mult); field.
Qed.

Lemma center_lon_nonzero (cell : Cell) : ~ (center_lon cell == 0)%Q.
Proof.
  destruct cell as [f0 f1 d0 d1 [[a b] |]]; unfold center_lon;
    cbn [subsquare field_lon square_lon].
  - apply (odd_not_zero _ 24 (12 * (-180 + 20 * f0 + 2 * d0) + a)).
    repeat (rewrite inject_Z_plus || rewrite inject_Z_mult); field.
  - apply (odd_not_zero _ 1 (-90 + 10 * f0 + d0)).
    repeat (rewrite inject_Z_plus || rewrite inject_Z_mult); field.
Qed.

Lemma truthy_num_eq (n : num) (q : Q) :
  num_eq n (Num q) -> ~ (q == 0)%Q -> truthy (VNum n) = true.
Proof.
  destruct n as [| q']; simpl; [intros [] |].
  intros Heq Hq. apply negb_true_iff.
  destruct (Qeq_bool q' 0) eqn:E; [| reflexivity].
  apply Qeq_bool_iff in E. exfalso. apply Hq. rewrite <- Heq. exact E.
Qed.

Lemma read_nonempty (s : string) (cell : Cell) :
  read s = Some cell -> truthy_str (Some s) = true.
Proof. destruct s; [discriminate | reflexivity]. Qed.

(** A locator that reads as a cell yields two truthy coordinates. *)
Lemma grid_coordinates_truthy (s : string) (cell : Cell) :
  read s = Some cell ->
  truthy (PSK.grid_lat (Some s)) = true /\ truthy (PSK.grid_lon (Some s)) = true.
Proof.
  intros H. unfold PSK.grid_lat, PSK.grid_lon.
  rewrite (read_nonempty s cell H).
  destruct (PSK_decodes s cell H) as (p & -> & Hlat & Hlon).
  split.
  - apply (truthy_num_eq _ _ Hlat), center_lat_nonzero.
  - apply (truthy_num_eq _ _ Hlon), center_lon_nonzero.
Qed.

Lemma or_else_truthy_l (a b : value) : truthy a = true -> or_else a b = a.
Proof. intros H. unfold or_else. rewrite H. reflexivity. Qed.

Lemma or_else_truthy (a b : value) :
  truthy (or_else a b) = truthy a || truthy b.
Proof. unfold or_else. destruct (truthy a) eqn:E; [exact E | reflexivity]. Qed.

Variable grid : PSK.Report -> option string.
Variable now : Z.

Lemma located_resolve (r : PSK.Report) :
  PSK.located (PSK.resolve grid now r) =
  (truthy (PSK.r_lat r) || truthy (PSK.grid_lat (grid r)))
  && (truthy (PSK.r_lon r) || truthy (PSK.grid_lon (grid r))).
Proof.
  unfold PSK.located, PSK.resolve. simpl. rewrite !or_else_truthy. reflexivity.
Qed.

(** Without a grid the fallback is [null]. *)
Lemma no_grid_no_fallback (r : PSK.Report) :
  truthy_str (grid r) = false ->
  PSK.grid_lat (grid r) = VNull /\ PSK.grid_lon (grid r) = VNull.
Proof.
  intros H. unfold PSK.grid_lat, PSK.grid_lon. rewrite H. split; reflexivity.
Qed.

Lemma falsy_without_grid (r : PSK.Report) :
  truthy (PSK.r_lat r) = false \/ truthy (PSK.r_lon r) = false ->
  truthy_str (grid r) = false ->
  PSK.located (PSK.resolve grid now r) = false.
Proof.
  intros Hz Hg. rewrite located_resolve.
  destruct (no_grid_no_fallback r Hg) as [-> ->]. simpl.
  destruct Hz as [-> | ->]; simpl; [reflexivity | apply andb_false_r].
Qed.

Lemma located_with_grid (r : PSK.Report) (s : string) (cell : Cell) :
  grid r = Some s -> read s = Some cell ->
  PSK.located (PSK.resolve grid now r) = true.
Proof.
  intros Hg Hr. rewrite located_resolve, Hg.
  destruct (grid_coordinates_truthy s cell Hr) as [-> ->].
  rewrite !orb_true_r. reflexivity.
Qed.

Lemma located_as_supplied (r : PSK.Report) :
  truthy (PSK.r_lat r) = true -> truthy (PSK.r_lon r) = true ->
  PSK.located (PSK.resolve grid now r) = true
  /\ PSK.r_lat (PSK.resolve grid now r) = PSK.r_lat r
  /\ PSK.r_lon (PSK.resolve grid now r) = PSK.r_lon r.
Proof.
  intros Hlat Hlon. rewrite located_resolve, Hlat, Hlon.
  unfold PSK.resolve. simpl.
  rewrite (or_else_truthy_l _ _ Hlat), (or_else_truthy_l _ _ Hlon).
  repeat split.
Qed.

Lemma in_firstn {A : Type} (n : nat) (l : list A) (x : A) :
  In x (firstn n l) -> In x l.
Proof.
  intros H. rewrite <- (firstn_skipn n l). apply in_or_app. left. exact H.
Qed.

Lemma processed_sound (maxSpots : nat) (data : list PSK.Report) (r' : PSK.Report) :
  In r' (PSK.processed grid now maxSpots data) ->
  PSK.located r' = true /\ exists r, In r data /\ r' = PSK.resolve grid now r.
Proof.
  unfold PSK.processed. intros H.
  apply in_firstn in H. apply filter_In in H. destruct H as [Hin Hloc].
  apply in_map_iff in Hin. destruct Hin as (r & <- & Hin).
  split; [exact Hloc | exists r; split; [exact Hin | reflexivity]].
Qed.

Lemma processed_keeps_first (maxSpots : nat) (data : list PSK.Report) (i : nat) :
  i < maxSpots ->
  nth_error (PSK.processed grid now maxSpots data) i =
  nth_error (filter PSK.located (List.map (PSK.resolve grid now) data)) i.
Proof.
  intros Hi. unfold PSK.processed. rewrite nth_error_firstn.
  destruct (Nat.ltb_spec i maxSpots); [reflexivity | lia].
Qed.

(** The view is the front of the located, resolved reports: nothing is
    left out before the limit is reached. *)
Lemma processed_prefix (maxSpots : nat) (data : list PSK.Report) :
  exists rest,
    filter PSK.located (List.map (PSK.resolve grid now) data)
    = (PSK.processed grid now maxSpots data ++ rest)%list
    /\ (rest <> [] -> List.length (PSK.processed grid now maxSpots data) = maxSpots).
Proof.
  unfold PSK.processed.
  set (l := filter PSK.located (List.map (PSK.resolve grid now) data)).
  exists (skipn maxSpots l). split.
  - symmetry. apply firstn_skipn.
  - intros Hrest. rewrite length_firstn.
    destruct (Nat.le_gt_cases (List.length l) maxSpots) as [Hle | Hgt]; [| lia].
    exfalso. apply Hrest. apply skipn_all2. exact Hle.
Qed.

Lemma processed_length (maxSpots : nat) (data : list PSK.Report) :
  List.length (PSK.processed grid now maxSpots data) <= maxSpots.
Proof. unfold PSK.processed. rewrite length_firstn. lia. Qed.

Lemma processed_complete (maxSpots : nat) (data : list PSK.Report) (r : PSK.Report) :
  In r data -> PSK.located (PSK.resolve grid now r) = true ->
  In (PSK.resolve grid now r) (PSK.processed grid now maxSpots data)
  \/ List.length (PSK.processed grid now maxSpots data) = maxSpots.
Proof.
  intros Hin Hloc.
  destruct (processed_prefix maxSpots data) as (rest & Hsplit & Hfull).
  assert (Hall : In (PSK.resolve grid now r)
                    (filter PSK.located (List.map (PSK.resolve grid now) data))).
  { apply filter_In. split; [apply in_map; exact Hin | exact Hloc]. }
  rewrite Hsplit in Hall. apply in_app_or in Hall.
  destruct Hall as [Hview | Hrest]; [left; exact Hview | right].
  apply Hfull. intros E. rewrite E in Hrest. exact Hrest.
Qed.

Lemma processed_located_only (maxSpots : nat) (data : list PSK.Report) (r' : PSK.Report) :
  PSK.located r' = false -> ~ In r' (PSK.processed grid now maxSpots data).
Proof.
  intros Hloc Hin. apply processed_sound in Hin. destruct Hin as [Ht _].
  rewrite Hloc in Ht. discriminate Ht.
Qed.

(** What the fallback stores: the center of the cell in the place of a
    falsy coordinate, and a truthy coordinate as it was supplied. *)
Lemma resolved_from_grid (r : PSK.Report) (s : string) (cell : Cell) :
  grid r = Some s -> read s = Some cell ->
  (truthy (PSK.r_lat r) = false ->
   exists q, PSK.r_lat (PSK.resolve grid now r) = VNum (Num q)
             /\ (q == center_lat cell)%Q)
  /\ (truthy (PSK.r_lon r) = false ->
      exists q, PSK.r_lon (PSK.resolve grid now r) = VNum (Num q)
                /\ (q == center_lon cell)%Q)
  /\ (truthy (PSK.r_lat r) = true ->
      PSK.r_lat (PSK.resolve grid now r) = PSK.r_lat r)
  /\ (truthy (PSK.r_lon r) = true ->
      PSK.r_lon (PSK.resolve grid now r) = PSK.r_lon r).
Proof.
  intros Hg Hr. unfold PSK.resolve. cbn [PSK.r_lat PSK.r_lon].
  unfold or_else, PSK.grid_lat, PSK.grid_lon.
  rewrite Hg, (read_nonempty s cell Hr).
  destruct (PSK_decodes s cell Hr) as (p & -> & Hlat & Hlon).
  split; [| split; [| split]]; intros ->; try reflexivity.
  - destruct (lat p) as [| q]; [destruct Hlat |]. exists q. split; [reflexivity | exact Hlat].
  - destruct (lon p) as [| q]; [destruct Hlon |]. exists q. split; [reflexivity | exact Hlon].
Qed.

End CoordinateFilter.

(** C10, as the code has it.  The view holds resolved reports whose two
    coordinates are truthy and only those; it is the front of the list of
    all such reports, in the order of the data, cut at [maxSpots], so a
    report with truthy resolved coordinates is left out only when the
    limit is reached.  A server-supplied coordinate that is exactly 0 (or
    absent) is treated as missing: without a grid locator the report is
    excluded; with a locator that reads as a cell, the coordinate is
    replaced by that of the center of the cell (the latitude by the
    center's latitude, the longitude by its longitude), a truthy
    coordinate stays as supplied, and the report is kept up to the limit.
    A report whose two supplied coordinates are nonzero is kept with
    them, up to the limit. *)
Theorem C10_zero_coordinate_falls_back_to_grid
        (grid : PSK.Report -> option string) (now : Z) (maxSpots : nat)
        (data : list PSK.Report) :
  let view := PSK.processed grid now maxSpots data in
  let resolved := PSK.resolve grid now in
  (forall r', In r' view ->
              PSK.located r' = true /\ exists r, In r data /\ r' = resolved r)
  /\ (exists rest,
        filter PSK.located (List.map resolved data) = (view ++ rest)%list
        /\ (rest <> [] -> List.length view = maxSpots))
  /\ List.length view <= maxSpots
  /\ (forall r, In r data -> PSK.located (resolved r) = true ->
                In (resolved r) view \/ List.length view = maxSpots)
  /\ (forall r', PSK.located r' = false -> ~ In r' view)
  /\ JS.truthy (JS.VNum (JS.Num 0%Q)) = false
  /\ (forall r,
         JS.truthy (PSK.r_lat r) = false \/ JS.truthy (PSK.r_lon r) = false ->
         JS.truthy_str (grid r) = false ->
         PSK.located (resolved r) = false /\ ~ In (resolved r) view)
  /\ (forall r s cell,
         grid r = Some s -> Locator.read s = Some cell ->
         (JS.truthy (PSK.r_lat r) = false ->
          exists q, PSK.r_lat (resolved r) = JS.VNum (JS.Num q)
                    /\ (q == Locator.center_lat cell)%Q)
         /\ (JS.truthy (PSK.r_lon r) = false ->
             exists q, PSK.r_lon (resolved r) = JS.VNum (JS.Num q)
                       /\ (q == Locator.center_lon cell)%Q)
         /\ (JS.truthy (PSK.r_lat r) = true -> PSK.r_lat (resolved r) = PSK.r_lat r)
         /\ (JS.truthy (PSK.r_lon r) = true -> PSK.r_lon (resolved r) = PSK.r_lon r)
         /\ PSK.located (resolved r) = true
         /\ (In r data -> In (resolved r) view \/ List.length view = maxSpots))
  /\ (forall r,
         JS.truthy (PSK.r_lat r) = true -> JS.truthy (PSK.r_lon r) = true ->
         PSK.located (resolved r) = true
         /\ PSK.r_lat (resolved r) = PSK.r_lat r
         /\ PSK.r_lon (resolved r) = PSK.r_lon r
         /\ (In r data -> In (resolved r) view \/ List.length view = maxSpots)).
Proof.
  intros view resolved. unfold view, resolved.
  split; [intros r'; apply processed_sound |].
  split; [apply processed_prefix |].
  split; [apply processed_length |].
  split; [intros r; apply processed_complete |].
  split; [intros r'; apply processed_located_only |].
  split; [reflexivity |].
  split; [| split].
  - intros r Hz Hg.
    pose proof (falsy_without_grid grid now r Hz Hg) as Hloc.
    split; [exact Hloc | apply processed_located_only, Hloc].
  - intros r s cell Hg Hr.
    destruct (resolved_from_grid grid now r s cell Hg Hr) as (H1 & H2 & H3 & H4).
    pose proof (located_with_grid grid now r s cell Hg Hr) as Hloc.
    repeat (split; [assumption |]).
    intros Hin. apply processed_complete; assumption.
  - intros r Hlat Hlon.
    destruct (located_as_supplied grid now r Hlat Hlon) as (Hloc & H1 & H2).
    repeat (split; [assumption |]).
    intros Hin. apply processed_complete; assumption.
Qed.

(** A receiver reported with [lat: 0], [lon: 10] and the locator [JJ00]:
    the latitude stored is that of the center of the square, 0.5, and the
    longitude stays as supplied. *)
Lemma C10_zero_coordinate_falls_back_to_grid_witness :
  let r := PSK.mkReport (JS.VNum (JS.Num 0%Q)) (JS.VNum (JS.Num 10%Q))
                        (Some "JJ00") None (JS.VNum (JS.Num 3%Q)) JS.VUndefined in
  (exists q, PSK.r_lat (PSK.resolve PSK.receiverGrid 0%Z r) = JS.VNum (JS.Num q)
             /\ (q == Locator.center_lat (Locator.mkCell 9 9 0 0 None))%Q)
  /\ PSK.r_lon (PSK.resolve PSK.receiverGrid 0%Z r) = JS.VNum (JS.Num 10%Q)
  /\ (In (PSK.resolve PSK.receiverGrid 0%Z r) (PSK.processed PSK.receiverGrid 0%Z 100 [r])
      \/ List.length (PSK.processed PSK.receiverGrid 0%Z 100 [r]) = 100).
Proof.
  intros r.
  pose proof (C10_zero_coordinate_falls_back_to_grid PSK.receiverGrid 0%Z 100 [r]) as H.
  cbv zeta in H.
  destruct H as (_ & _ & _ & _ & _ & _ & _ & Hgrid & _).
  destruct (Hgrid r "JJ00" (Locator.mkCell 9 9 0 0 None) eq_refl eq_refl)
    as (Hlat & _ & _ & Hlon & _ & Hkept).
  split; [apply Hlat; reflexivity |].
  split; [apply Hlon; reflexivity |].
  apply Hkept. left. reflexivity.
Defined.

(** C10, as claimed, fails: a report with [lat: 0], [lon: 10] and the
    locator [JJ00] is not excluded; it is kept, moved to the center of
    the square (latitude 0.5). *)
Lemma C10_zero_latitude_with_grid_is_kept :
  let r := PSK.mkReport (JS.VNum (JS.Num 0%Q)) (JS.VNum (JS.Num 10%Q))
                        (Some "JJ00") None (JS.VNum (JS.Num 3%Q)) JS.VUndefined in
  PSK.processedTx 0%Z 100 [r]
  = [PSK.mkReport (JS.VNum (JS.Num (5 # 10)%Q)) (JS.VNum (JS.Num 10%Q))
                  (Some "JJ00") None (JS.VNum (JS.Num 3%Q)) JS.VUndefined].
Proof. vm_compute. reflexivity. Qed.

(* ================================================================== *)
(** * Properties of the DX cluster hook *)
(* ================================================================== *)

Section MapFacts.
Import DXCluster.

Lemma map_get_set_same (m : JMap) (k : string) (v : Item) :
  map_get (map_set m k v) k = Some v.
Proof.
  induction m as [| [k' v'] m IH]; simpl.
  - rewrite String.eqb_refl. reflexivity.
  - destruct (String.eqb k' k) eqn:E; simpl.
    + rewrite String.eqb_refl. reflexivity.
    + rewrite E. exact IH.
Qed.

Lemma map_get_set_other (m : JMap) (k k' : string) (v : Item) :
  k' <> k -> map_get (map_set m k v) k' = map_get m k'.
Proof.
  intros Hne. induction m as [| [k0 v0] m IH]; simpl.
  - destruct (String.eqb_spec k k'); [congruence | reflexivity].
  - destruct (String.eqb_spec k0 k) as [-> | Hk0]; simpl.
    + destruct (String.eqb_spec k k'); [congruence | reflexivity].
    + destruct (String.eqb k0 k'); [reflexivity | exact IH].
Qed.

Lemma map_set_values (m : JMap) (k : string) (v x : Item) :
  In x (map_values (map_set m k v)) -> x = v \/ In x (map_values m).
Proof.
  induction m as [| [k' v'] m IH]; simpl.
  - intros [<- | []]. left. reflexivity.
  - destruct (String.eqb k' k); simpl.
    + intros [<- | H]; [left; reflexivity | right; right; exact H].
    + intros [<- | H]; [right; left; reflexivity |].
      destruct (IH H) as [-> | H']; [left; reflexivity | right; right; exact H'].
Qed.

Lemma map_get_in_values (m : JMap) (k : string) (v : Item) :
  map_get m k = Some v -> In v (map_values m).
Proof.
  induction m as [| [k' v'] m IH]; simpl; [discriminate |].
  destruct (String.eqb k' k).
  - intros H. injection H as <-. left. reflexivity.
  - intros H. right. apply IH, H.
Qed.

(** Setting a key that is present keeps every key in its place. *)
Lemma map_set_keeps_order (m : JMap) (k : string) (v : Item) :
  In k (List.map fst m) -> List.map fst (map_set m k v) = List.map fst m.
Proof.
  induction m as [| [k' v'] m IH]; simpl; [intros [] |].
  destruct (String.eqb_spec k' k) as [-> | Hne]; simpl; [reflexivity |].
  intros [H | H]; [congruence |]. rewrite (IH H). reflexivity.
Qed.

(** The values of a map property [P] holds for, after a batch of values
    with [P] is merged in. *)
Lemma fold_set_values (P : Item -> Prop) (f : Item -> string * Item)
      (l : list Item) (m : JMap) :
  Forall P (map_values m) ->
  Forall (fun x => P (snd (f x))) l ->
  Forall P (map_values (fold_left (fun m x => map_set m (fst (f x)) (snd (f x))) l m)).
Proof.
  revert m. induction l as [| x l IH]; simpl; intros m Hm Hl; [exact Hm |].
  apply IH.
  - apply Forall_forall. intros y Hy.
    destruct (map_set_values _ _ _ _ Hy) as [-> | Hy'].
    + apply (Forall_inv Hl).
    + rewrite Forall_forall in Hm. apply Hm, Hy'.
  - apply (Forall_inv_tail Hl).
Qed.

End MapFacts.

Section SortFacts.
Import DXCluster.

Lemma insert_newest_perm (a : Item) (l : list Item) :
  Permutation (a :: l) (insert_newest a l).
Proof.
  induction l as [| b l IH]; simpl; [apply Permutation_refl |].
  destruct (0 <? timestamp_or b 0 - timestamp_or a 0)%Z.
  - apply perm_trans with (b :: a :: l); [apply perm_swap |].
    apply perm_skip, IH.
  - apply Permutation_refl.
Qed.

Lemma sort_newest_perm (l : list Item) : Permutation l (sort_newest l).
Proof.
  induction l as [| a l IH]; simpl; [apply perm_nil |].
  apply perm_trans with (a :: sort_newest l).
  - apply perm_skip, IH.
  - apply insert_newest_perm.
Qed.

Lemma insert_newest_sorted (a : Item) (l : list Item) :
  StronglySorted newest_first l -> StronglySorted newest_first (insert_newest a l).
Proof.
  induction l as [| b l IH]; simpl; intros Hs.
  - constructor; constructor.
  - apply StronglySorted_inv in Hs. destruct Hs as [Hl Hb].
    destruct (Z.ltb_spec 0 (timestamp_or b 0 - timestamp_or a 0)) as [Hlt | Hge].
    + constructor; [apply IH, Hl |].
      apply (Permutation_Forall (insert_newest_perm a l)).
      constructor; [unfold newest_first; lia | exact Hb].
    + constructor; [constructor; assumption |].
      constructor; [unfold newest_first; lia |].
      apply Forall_forall. intros c Hc.
      rewrite Forall_forall in Hb. specialize (Hb c Hc).
      unfold newest_first in *. lia.
Qed.

Lemma sort_newest_sorted (l : list Item) : StronglySorted newest_first (sort_newest l).
Proof.
  induction l as [| a l IH]; simpl; [constructor |].
  apply insert_newest_sorted, IH.
Qed.

(** In a sorted list whatever [slice] keeps is at least as new as
    whatever it drops. *)
Lemma sorted_slice (n : nat) (l : list Item) :
  StronglySorted newest_first l ->
  forall k d, In k (firstn n l) -> In d (skipn n l) -> newest_first k d.
Proof.
  revert n. induction l as [| a l IH]; intros n Hs k d Hk Hd.
  - destruct n; simpl in Hk; contradiction.
  - destruct n as [| n]; simpl in Hk, Hd; [contradiction |].
    apply StronglySorted_inv in Hs. destruct Hs as [Hl Ha].
    destruct Hk as [<- | Hk].
    + rewrite Forall_forall in Ha. apply Ha.
      rewrite <- (firstn_skipn n l). apply in_or_app. right. exact Hd.
    + apply (IH n Hl k d Hk Hd).
Qed.

End SortFacts.

Section Retention.
Import DXCluster.

Lemma stamp_stamped (now : Z) (item : Item) : now <> 0%Z -> stamped (stamp now item).
Proof.
  intros Hnow. exists (timestamp_or item now). split; [reflexivity |].
  unfold timestamp_or, JS.truthy_Z.
  destruct (timestamp item) as [t |]; [| exact Hnow].
  destruct (Z.eqb_spec t 0); simpl; assumption.
Qed.

(** For a stamped item the fallbacks of [item.timestamp || d] are dead. *)
Lemma stamped_timestamp (item : Item) (t d : Z) :
  timestamp item = Some t -> t <> 0%Z -> timestamp_or item d = t.
Proof.
  intros Ht Hne. unfold timestamp_or, JS.truthy_Z. rewrite Ht.
  destruct (Z.eqb_spec t 0); [contradiction | reflexivity].
Qed.

Lemma fold_left_over_map {A B C : Type} (f : A -> B -> A) (g : C -> B)
      (l : list C) (a : A) :
  fold_left f (List.map g l) a = fold_left (fun a c => f a (g c)) l a.
Proof.
  revert a. induction l as [| c l IH]; simpl; intros a; [reflexivity | apply IH].
Qed.

Lemma map_of_values (P : Item -> Prop) (prev : list Item) :
  Forall P prev ->
  Forall P (map_values (map_of (List.map (fun item => (key item, item)) prev))).
Proof.
  intros H. unfold map_of. rewrite fold_left_over_map.
  apply (fold_set_values P (fun item => (key item, item))); [constructor | exact H].
Qed.

Lemma merge_batch_values (P : Item -> Prop) (now : Z) (m : JMap) (newData : list Item) :
  Forall P (map_values m) ->
  Forall (fun item => P (stamp now item)) newData ->
  Forall P (map_values (merge_batch now m newData)).
Proof.
  intros Hm Hl.
  apply (fold_set_values P (fun item => (key item, stamp now item))); assumption.
Qed.

Lemma validItems_stamped (now retention : Z) (newData prev : list Item) :
  now <> 0%Z -> Forall stamped prev ->
  Forall stamped (validItems now retention newData prev).
Proof.
  intros Hnow Hprev. unfold validItems.
  apply Forall_forall. intros x Hx. apply filter_In in Hx. destruct Hx as [Hx _].
  revert x Hx. apply Forall_forall.
  apply merge_batch_values; [apply map_of_values, Hprev |].
  apply Forall_forall. intros item _. apply stamp_stamped, Hnow.
Qed.

Lemma validItems_fresh (now retention : Z) (newData prev : list Item) :
  Forall (fun item => fresh now retention item = true)
         (validItems now retention newData prev).
Proof.
  unfold validItems. apply Forall_forall. intros x Hx.
  apply filter_In in Hx. apply Hx.
Qed.

Lemma ingest_subset (now retention : Z) (newData prev : list Item) (x : Item) :
  In x (ingest now retention newData prev) ->
  In x (validItems now retention newData prev).
Proof.
  unfold ingest. intros H. apply in_firstn in H.
  apply (Permutation_in x (Permutation_sym (sort_newest_perm _)) H).
Qed.

Lemma step_stamped (allData : list Item) (e : Event) :
  clock_set e -> Forall stamped allData -> Forall stamped (step allData e).
Proof.
  intros Hclock Hall. destruct e as [now retention newData | now retention]; simpl.
  - apply Forall_forall. intros x Hx. apply ingest_subset in Hx.
    revert x Hx. apply Forall_forall.
    apply validItems_stamped; assumption.
  - unfold cleanup. apply Forall_forall. intros x Hx.
    apply filter_In in Hx. destruct Hx as [Hx _].
    rewrite Forall_forall in Hall. apply Hall, Hx.
Qed.

Lemma run_snoc (events : list Event) (e : Event) :
  run (events ++ [e]) = step (run events) e.
Proof. unfold run. rewrite fold_left_app. reflexivity. Qed.

(** Every item the hook holds has been stamped. *)
Lemma run_stamped (events : list Event) :
  Forall clock_set events -> Forall stamped (run events).
Proof.
  induction events as [| e events IH] using rev_ind; intros H.
  - constructor.
  - rewrite run_snoc. apply Forall_app in H. destruct H as [Hes He].
    apply step_stamped; [apply (Forall_inv He) | apply IH, Hes].
Qed.

(** The retention test, read on a stamped item. *)
Lemma fresh_age (now retention : Z) (item : Item) :
  stamped item -> fresh now retention item = true ->
  exists t : Z, timestamp item = Some t /\ (now - t < retention)%Z.
Proof.
  intros (t & Ht & Hne) Hf. exists t. split; [exact Ht |].
  unfold fresh in Hf. rewrite (stamped_timestamp item t now Ht Hne) in Hf.
  apply Z.ltb_lt, Hf.
Qed.

Lemma stale_age (now retention : Z) (item : Item) (t : Z) :
  timestamp item = Some t -> t <> 0%Z -> (retention <= now - t)%Z ->
  fresh now retention item = false.
Proof.
  intros Ht Hne Hold. unfold fresh. rewrite (stamped_timestamp item t now Ht Hne).
  apply Z.ltb_ge, Hold.
Qed.

Lemma ingest_length (now retention : Z) (newData prev : list Item) :
  List.length (ingest now retention newData prev) <= maxCapacity.
Proof. unfold ingest. apply firstn_le_length. Qed.

End Retention.

(** C1.  The claim fails in the code when the window changes while a
    request is under way.  The hook is mounted with a window of 60
    minutes and holds a spot; the window is set to 5 minutes, and the
    spot, 10 minutes old, is dropped at once; the response of the request
    that was sent before the change then arrives, its updater still reads
    the window of 60 minutes, and the spot is held again: after this
    ingest the state holds an entry whose age, 611 seconds, exceeds the
    configured window of 300 seconds. *)
Theorem C1_in_flight_fetch_keeps_stale_entry :
  let events := DXWindow.window_changed_in_flight in
  let now := (DXWindow.spot_time + 611000)%Z in
  DXCluster.run (firstn 1 events) = [DXWindow.old_spot]
  /\ DXCluster.run (firstn 2 events) = []
  /\ DXCluster.run events = [DXWindow.old_spot]
  /\ DXWindow.configured DXWindow.mounted_window (firstn 1 events) = 3600000%Z
  /\ DXWindow.configured DXWindow.mounted_window events = 300000%Z
  /\ DXWindow.age now DXWindow.old_spot = 611000%Z
  /\ (DXWindow.configured DXWindow.mounted_window events
      < DXWindow.age now DXWindow.old_spot)%Z.
Proof. vm_compute. repeat split; reflexivity. Qed.

Section Merge.
Import DXCluster.

Lemma key_stamp (now : Z) (item : Item) : key (stamp now item) = key item.
Proof. reflexivity. Qed.

Lemma map_get_key_present (m : JMap) (k : string) (v : Item) :
  map_get m k = Some v -> In k (List.map fst m).
Proof.
  induction m as [| [k' v'] m IH]; simpl; [discriminate |].
  destruct (String.eqb_spec k' k) as [-> | Hne].
  - intros _. left. reflexivity.
  - intros H. right. apply IH, H.
Qed.

Lemma merge_batch_app (now : Z) (m : JMap) (before after : list Item) :
  merge_batch now m (before ++ after)
  = merge_batch now (merge_batch now m before) after.
Proof. unfold merge_batch. apply fold_left_app. Qed.

(** A key that a batch sets holds the stamped copy of one of the batch's
    items with that key (the last one). *)
Lemma merge_batch_sets (now : Z) (newData : list Item) (m : JMap) (item : Item) :
  In item newData ->
  exists item', In item' newData /\ key item' = key item
                /\ map_get (merge_batch now m newData) (key item)
                   = Some (stamp now item').
Proof.
  induction newData as [| x newData IH] using rev_ind; intros Hin; [contradiction |].
  rewrite merge_batch_app. simpl. unfold merge_item at 1.
  destruct (String.eqb_spec (key x) (key item)) as [Heq | Hne].
  - exists x. split; [apply in_or_app; right; left; reflexivity |].
    split; [exact Heq |]. rewrite <- Heq. apply map_get_set_same.
  - apply in_app_or in Hin. destruct Hin as [Hin | [-> | []]]; [| congruence].
    destruct (IH Hin) as (item' & Hin' & Hk & Hget).
    exists item'. split; [apply in_or_app; left; exact Hin' |].
    split; [exact Hk |].
    rewrite map_get_set_other by congruence. exact Hget.
Qed.

End Merge.

(** C7, as the code has it.  When the incoming report's key is already
    in the map, the entry is replaced by the incoming report, and its
    timestamp is the incoming one when that is truthy and the time of the
    fetch otherwise: the timestamp stored before is not kept.  The entry
    keeps its place and every other entry is unchanged. *)
Theorem C7_merge_replaces_whole_entry
        (now : Z) (m : DXCluster.JMap) (incoming stored : DXCluster.Item) :
  DXCluster.map_get m (DXCluster.key incoming) = Some stored ->
  let m' := DXCluster.merge_item now m incoming in
  let entry := DXCluster.stamp now incoming in
  DXCluster.map_get m' (DXCluster.key incoming) = Some entry
  /\ (DXCluster.dxCall entry = DXCluster.dxCall incoming
      /\ DXCluster.call entry = DXCluster.call incoming
      /\ DXCluster.freq entry = DXCluster.freq incoming
      /\ DXCluster.spotter entry = DXCluster.spotter incoming
      /\ DXCluster.comment entry = DXCluster.comment incoming
      /\ DXCluster.spotterLat entry = DXCluster.spotterLat incoming
      /\ DXCluster.spotterLon entry = DXCluster.spotterLon incoming
      /\ DXCluster.dxLat entry = DXCluster.dxLat incoming
      /\ DXCluster.dxLon entry = DXCluster.dxLon incoming)
  /\ (JS.truthy_Z (DXCluster.timestamp incoming) = true ->
      DXCluster.timestamp entry = DXCluster.timestamp incoming)
  /\ (JS.truthy_Z (DXCluster.timestamp incoming) = false ->
      DXCluster.timestamp entry = Some now)
  /\ (forall k, k <> DXCluster.key incoming ->
                DXCluster.map_get m' k = DXCluster.map_get m k)
  /\ List.map fst m' = List.map fst m.
Proof.
  intros Hstored m' entry. subst m' entry. unfold DXCluster.merge_item.
  split; [apply map_get_set_same |].
  split; [repeat split |].
  split; [| split; [| split]].
  - intros Ht. simpl. unfold DXCluster.timestamp_or. rewrite Ht.
    destruct (DXCluster.timestamp incoming); [reflexivity | discriminate Ht].
  - intros Ht. simpl. unfold DXCluster.timestamp_or. rewrite Ht. reflexivity.
  - intros k Hk. apply map_get_set_other, Hk.
  - apply map_set_keeps_order. apply (map_get_key_present _ _ _ Hstored).
Qed.

(** A spot first stored at time 1000 is reported again at time 2000
    without a timestamp. *)
Lemma C7_merge_replaces_whole_entry_witness :
  let stored := DXCluster.mkItem (Some "K1ABC") None (Some "14074.0") (Some "W1AW")
                                 (Some 1000%Z) (Some "CQ") None None None None in
  let incoming := DXCluster.mkItem (Some "K1ABC") None (Some "14074.0") (Some "W1AW")
                                   None (Some "FT8") None None None None in
  DXCluster.map_get
    (DXCluster.merge_item 2000 [(DXCluster.key stored, stored)] incoming)
    (DXCluster.key incoming)
  = Some (DXCluster.stamp 2000 incoming).
Proof.
  intros stored incoming.
  refine (proj1 (C7_merge_replaces_whole_entry 2000%Z
                   [(DXCluster.key stored, stored)] incoming stored _)).
  reflexivity.
Defined.

(** C7, as claimed, fails: the spot stored at time 1000 and reported
    again at time 2000 without a timestamp is held with timestamp 2000,
    not 1000. *)
Lemma C7_original_timestamp_is_overwritten :
  let stored := DXCluster.mkItem (Some "K1ABC") None (Some "14074.0") (Some "W1AW")
                                 (Some 1000%Z) (Some "CQ") None None None None in
  let incoming := DXCluster.mkItem (Some "K1ABC") None (Some "14074.0") (Some "W1AW")
                                   None (Some "FT8") None None None None in
  DXCluster.key incoming = DXCluster.key stored
  /\ List.map DXCluster.timestamp
              (DXCluster.ingest 2000 1800000 [incoming] [stored])
     = [Some 2000%Z].
Proof. split; vm_compute; reflexivity. Qed.

(** C6, as the code has it.  No report of a batch is skipped: a report
    that misses an identity field is merged like any other, under the key
    in which the missing field reads [undefined], and the reports after it
    are merged as usual.  When the batch is fresh and the capacity is not
    exceeded, it is held after the ingest. *)
Theorem C6_reports_missing_fields_are_merged
        (now retention : Z) (prev newData : list DXCluster.Item)
        (item : DXCluster.Item) :
  In item newData ->
  let existingMap :=
    DXCluster.map_of (List.map (fun i => (DXCluster.key i, i)) prev) in
  (exists item',
      In item' newData /\ DXCluster.key item' = DXCluster.key item
      /\ DXCluster.map_get (DXCluster.merge_batch now existingMap newData)
                           (DXCluster.key item)
         = Some (DXCluster.stamp now item'))
  /\ (DXCluster.dxCall item = None ->
      DXCluster.key item
      = "undefined-" ++ JS.show (DXCluster.freq item) ++ "-"
                     ++ JS.show (DXCluster.spotter item))
  /\ (DXCluster.freq item = None ->
      DXCluster.key item
      = JS.show (DXCluster.dxCall item) ++ "-undefined-"
                ++ JS.show (DXCluster.spotter item))
  /\ (DXCluster.spotter item = None ->
      DXCluster.key item
      = JS.show (DXCluster.dxCall item) ++ "-"
                ++ JS.show (DXCluster.freq item) ++ "-undefined")
  /\ (forall before after,
         newData = (before ++ item :: after)%list ->
         DXCluster.merge_batch now existingMap newData
         = DXCluster.merge_batch now
             (DXCluster.merge_item now
                (DXCluster.merge_batch now existingMap before) item)
             after)
  /\ ((forall x, In x newData ->
                 DXCluster.fresh now retention (DXCluster.stamp now x) = true) ->
      List.length (DXCluster.validItems now retention newData prev)
      <= DXCluster.maxCapacity ->
      exists v, In v (DXCluster.ingest now retention newData prev)
                /\ DXCluster.key v = DXCluster.key item).
Proof.
  intros Hin existingMap.
  destruct (merge_batch_sets now newData existingMap item Hin)
    as (item' & Hin' & Hkey & Hget).
  split; [exists item'; repeat split; assumption |].
  split; [intros H; unfold DXCluster.key; rewrite H; reflexivity |].
  split; [intros H; unfold DXCluster.key; rewrite H; reflexivity |].
  split; [intros H; unfold DXCluster.key; rewrite H; reflexivity |].
  split.
  - intros before after ->. rewrite merge_batch_app. reflexivity.
  - intros Hfresh Hcap. exists (DXCluster.stamp now item').
    split; [| rewrite key_stamp; exact Hkey].
    unfold DXCluster.ingest. rewrite firstn_all2.
    2:{ rewrite <- (Permutation_length (sort_newest_perm _)). exact Hcap. }
    apply (Permutation_in _ (sort_newest_perm _)).
    unfold DXCluster.validItems. apply filter_In.
    split; [apply (map_get_in_values _ _ _ Hget) | apply Hfresh, Hin'].
Qed.

(** A batch of two reports, the first without [spotter]. *)
Lemma C6_reports_missing_fields_are_merged_witness :
  let bad := DXCluster.mkItem (Some "K1ABC") None (Some "14074.0") None
                              None None None None None None in
  let good := DXCluster.mkItem (Some "G0XYZ") None (Some "7074.0") (Some "W1AW")
                               None None None None None None in
  exists v, In v (DXCluster.ingest 1000 1800000 [bad; good] [])
            /\ DXCluster.key v = DXCluster.key bad.
Proof.
  intros bad good.
  refine (proj2 (proj2 (proj2 (proj2 (proj2
            (C6_reports_missing_fields_are_merged 1000%Z 1800000%Z []
               [bad; good] bad _))))) _ _).
  - left. reflexivity.
  - intros x [<- | [<- | []]]; reflexivity.
  - vm_compute. lia.
Defined.

(** C6, as claimed, fails: the report without [spotter] is not skipped;
    it is held, under the key [K1ABC-14074.0-undefined]. *)
Lemma C6_report_without_spotter_is_held :
  let bad := DXCluster.mkItem (Some "K1ABC") None (Some "14074.0") None
                              None None None None None None in
  let good := DXCluster.mkItem (Some "G0XYZ") None (Some "7074.0") (Some "W1AW")
                               None None None None None None in
  DXCluster.ingest 1000 1800000 [bad; good] []
  = [DXCluster.stamp 1000 bad; DXCluster.stamp 1000 good]
  /\ DXCluster.key bad = "K1ABC-14074.0-undefined".
Proof. split; vm_compute; reflexivity. Qed.

Section KeyFacts.
Import DXCluster.

Lemma split_at_dash (a a' b b' : string) :
  no_dash a -> no_dash a' ->
  a ++ "-" ++ b = a' ++ "-" ++ b' -> a = a' /\ b = b'.
Proof.
  revert a'. induction a as [| c a IH]; intros [| c' a'] Ha Ha' H; simpl in *.
  - injection H as H. split; [reflexivity | exact H].
  - injection H as Hc _. destruct Ha' as [Hc' _]. congruence.
  - injection H as Hc _. destruct Ha as [Hc' _]. congruence.
  - injection H as -> H. destruct Ha as [_ Ha]. destruct Ha' as [_ Ha'].
    destruct (IH a' Ha Ha' H) as [-> ->]. split; reflexivity.
Qed.

(** Where the call and the frequency hold no separator the key tells
    the three fields apart. *)
Lemma key_injective_without_dash (x y : Item) :
  no_dash (JS.show (dxCall x)) -> no_dash (JS.show (dxCall y)) ->
  no_dash (JS.show (freq x)) -> no_dash (JS.show (freq y)) ->
  key x = key y ->
  JS.show (dxCall x) = JS.show (dxCall y)
  /\ JS.show (freq x) = JS.show (freq y)
  /\ JS.show (spotter x) = JS.show (spotter y).
Proof.
  intros Hdx Hdy Hfx Hfy H. unfold key in H.
  destruct (split_at_dash _ _ _ _ Hdx Hdy H) as [Hd H'].
  destruct (split_at_dash _ _ _ _ Hfx Hfy H') as [Hf Hs].
  repeat split; assumption.
Qed.

End KeyFacts.

(** C9.  The claim is that the key tells distinct (call, frequency,
    spotter) triples apart.  It does not: the spot of [K1ABC-7] on
    [14074] by [W1AW] and the spot of [K1ABC] on [7] by [14074-W1AW] get
    the same key, and of the two only the later one is held. *)
Theorem C9_key_collision :
  let first := DXCluster.mkItem (Some "K1ABC-7") None (Some "14074") (Some "W1AW")
                                None (Some "first") None None None None in
  let second := DXCluster.mkItem (Some "K1ABC") None (Some "7") (Some "14074-W1AW")
                                 None (Some "second") None None None None in
  DXCluster.dxCall first <> DXCluster.dxCall second
  /\ DXCluster.key first = DXCluster.key second
  /\ DXCluster.ingest 1000 1800000 [first; second] []
     = [DXCluster.stamp 1000 second].
Proof.
  intros first second. split; [discriminate |].
  split; vm_compute; reflexivity.
Qed.

Section FilterCriteria.
Import DXCluster.

Variable getCallsignInfo : option string -> CallsignInfo.
Variable getBandFromFreq : option string -> option string.
Variable detectMode : option string -> option string.

Local Abbreviation keep :=
  (DXCluster.keep getCallsignInfo getBandFromFreq detectMode).
Local Abbreviation applyFilters :=
  (DXCluster.applyFilters getCallsignInfo getBandFromFreq detectMode).











End FilterCriteria.




(** The specification's test of the continent filter: Europe to Europe
    is excluded, Europe to North America is included. *)
Example continent_filter_asymmetry :
  let domestic := DXCluster.mkItem (Some "DL9XYZ") None (Some "14074.0") (Some "DL1ABC")
                                   None None None None None None in
  let dx := DXCluster.mkItem (Some "K1ABC") None (Some "14074.0") (Some "DL1ABC")
                             None None None None None None in
  DXCluster.applyFilters DXCluster.sample_getCallsignInfo
    DXCluster.sample_getBandFromFreq DXCluster.sample_detectMode
    [domestic; dx] (Some (DXCluster.only_continents ["EU"]))
  = [dx].
Proof. vm_compute. reflexivity. Qed.

(* ================================================================== *)
(** * More on the DX cluster hook: what the state always looks like *)
(* ================================================================== *)

Section MapShape.
Import DXCluster.

(** The entry of an item in the map the updater builds. *)
Local Abbreviation entry := (fun item : Item => (key item, item)).

Lemma map_set_appends (m : JMap) (k : string) (v : Item) :
  ~ In k (List.map fst m) ->
  map_set m k v = (m ++ [(k, v)])%list.
Proof.
  induction m as [| [k' v'] m IH]; simpl; intros Hout; [reflexivity |].
  destruct (String.eqb_spec k' k) as [-> | Hne].
  - exfalso. apply Hout. left. reflexivity.
  - rewrite IH; [reflexivity |]. intros Hin. apply Hout. right. exact Hin.
Qed.

Lemma map_set_nodup (m : JMap) (k : string) (v : Item) :
  NoDup (List.map fst m) -> NoDup (List.map fst (map_set m k v)).
Proof.
  intros H.
  destruct (in_dec string_dec k (List.map fst m)) as [Hin | Hout].
  - rewrite (map_set_keeps_order _ _ _ Hin). exact H.
  - rewrite (map_set_appends _ _ _ Hout), map_app.
    apply NoDup_app; [exact H | repeat constructor; intros [] |].
    intros x Hx [<- | []]. contradiction.
Qed.

(** Every entry sits under the key of its value. *)
Local Abbreviation keyed := (Forall (fun e : string * Item => fst e = key (snd e))).

Lemma map_set_keyed (m : JMap) (v : Item) :
  keyed m -> keyed (map_set m (key v) v).
Proof.
  induction m as [| [k' v'] m IH]; simpl; intros H.
  - repeat constructor.
  - destruct (String.eqb k' (key v)).
    + constructor; [reflexivity | apply (Forall_inv_tail H)].
    + constructor; [apply (Forall_inv H) | apply IH, (Forall_inv_tail H)].
Qed.

Lemma fold_set_shape (f : Item -> Item) (l : list Item) (m : JMap) :
  (forall x, key (f x) = key x) ->
  NoDup (List.map fst m) -> keyed m ->
  let m' := fold_left (fun m x => map_set m (key x) (f x)) l m in
  NoDup (List.map fst m') /\ keyed m'.
Proof.
  intros Hf. revert m. induction l as [| x l IH]; simpl; intros m Hn Hk.
  - split; assumption.
  - apply IH.
    + apply map_set_nodup, Hn.
    + rewrite <- (Hf x). apply map_set_keyed, Hk.
Qed.

Lemma keyed_values_keys (m : JMap) :
  keyed m -> List.map key (map_values m) = List.map fst m.
Proof.
  unfold map_values. induction m as [| [k v] m IH]; simpl; intros H.
  - reflexivity.
  - rewrite (IH (Forall_inv_tail H)). f_equal. symmetry. apply (Forall_inv H).
Qed.

Lemma merged_shape (now : Z) (newData prev : list Item) :
  let m := merge_batch now (map_of (List.map entry prev)) newData in
  NoDup (List.map fst m) /\ keyed m.
Proof.
  assert (H0 : NoDup (List.map fst (map_of (List.map entry prev)))
               /\ keyed (map_of (List.map entry prev))).
  { unfold map_of. rewrite fold_left_over_map.
    apply (fold_set_shape (fun x => x)); [reflexivity | constructor | constructor]. }
  destruct H0 as [Hn Hk].
  apply (fold_set_shape (stamp now)); [intros x; apply key_stamp | exact Hn | exact Hk].
Qed.

End MapShape.

Section KeysUnique.
Import DXCluster.

Lemma NoDup_map_filter {A B : Type} (g : A -> B) (f : A -> bool) (l : list A) :
  NoDup (List.map g l) -> NoDup (List.map g (filter f l)).
Proof.
  induction l as [| a l IH]; simpl; intros H; [constructor |].
  inversion H as [| ? ? Hout Hl]; subst.
  destruct (f a); [| apply IH, Hl].
  simpl. constructor; [| apply IH, Hl].
  intros Hin. apply Hout.
  apply in_map_iff in Hin. destruct Hin as (x & Hx & Hxin).
  apply in_map_iff. exists x. split; [exact Hx |].
  apply filter_In in Hxin. apply Hxin.
Qed.

Lemma NoDup_map_firstn {A B : Type} (g : A -> B) (n : nat) (l : list A) :
  NoDup (List.map g l) -> NoDup (List.map g (firstn n l)).
Proof.
  revert n. induction l as [| a l IH]; intros [| n] H; simpl; try constructor.
  - inversion H as [| ? ? Hout Hl]; subst.
    intros Hin. apply Hout.
    apply in_map_iff in Hin. destruct Hin as (x & Hx & Hxin).
    apply in_map_iff. exists x. split; [exact Hx | apply (in_firstn _ _ _ Hxin)].
  - inversion H; subst. apply IH. assumption.
Qed.

Lemma validItems_keys_unique (now retention : Z) (newData prev : list Item) :
  NoDup (List.map key (validItems now retention newData prev)).
Proof.
  unfold validItems. apply NoDup_map_filter.
  destruct (merged_shape now newData prev) as [Hn Hk].
  rewrite (keyed_values_keys _ Hk). exact Hn.
Qed.

Lemma ingest_keys_unique (now retention : Z) (newData prev : list Item) :
  NoDup (List.map key (ingest now retention newData prev)).
Proof.
  unfold ingest. apply NoDup_map_firstn.
  apply (Permutation_NoDup
           (Permutation_map key (sort_newest_perm _))).
  apply validItems_keys_unique.
Qed.

End KeysUnique.

(** X1.  The state never holds two items with the same key: whatever the
    batches held, a key that comes again replaces the item it names. *)
Theorem allData_keys_unique (events : list DXCluster.Event) :
  NoDup (List.map DXCluster.key (DXCluster.run events)).
Proof.
  induction events as [| e events IH] using rev_ind; [constructor |].
  rewrite run_snoc. destruct e as [now retention newData | now retention]; simpl.
  - apply ingest_keys_unique.
  - unfold DXCluster.cleanup. apply NoDup_map_filter, IH.
Qed.

Section AlwaysSorted.
Import DXCluster.

Lemma sorted_firstn (n : nat) (l : list Item) :
  StronglySorted newest_first l -> StronglySorted newest_first (firstn n l).
Proof.
  revert n. induction l as [| a l IH]; intros [| n] H; simpl; try constructor.
  - apply StronglySorted_inv in H. apply IH, H.
  - apply StronglySorted_inv in H. destruct H as [_ H].
    apply Forall_forall. intros x Hx. rewrite Forall_forall in H.
    apply H, (in_firstn _ _ _ Hx).
Qed.

Lemma sorted_filter (f : Item -> bool) (l : list Item) :
  StronglySorted newest_first l -> StronglySorted newest_first (filter f l).
Proof.
  induction l as [| a l IH]; simpl; intros H; [constructor |].
  apply StronglySorted_inv in H. destruct H as [Hl Ha].
  destruct (f a); [| apply IH, Hl].
  constructor; [apply IH, Hl |].
  apply Forall_forall. intros x Hx. apply filter_In in Hx.
  rewrite Forall_forall in Ha. apply Ha, Hx.
Qed.

End AlwaysSorted.

(** X2.  The state is always in the order of the list display: newest first.
    A fetch sorts it, and the clean-up on a retention change keeps the
    order. *)
Theorem allData_newest_first (events : list DXCluster.Event) :
  StronglySorted DXCluster.newest_first (DXCluster.run events).
Proof.
  induction events as [| e events IH] using rev_ind; [constructor |].
  rewrite run_snoc. destruct e as [now retention newData | now retention]; simpl.
  - unfold DXCluster.ingest. apply sorted_firstn, sort_newest_sorted.
  - unfold DXCluster.cleanup. apply sorted_filter, IH.
Qed.

Section SameBatchTwice.
Import DXCluster.

Local Abbreviation entry := (fun item : Item => (key item, item)).
Local Abbreviation keyed := (Forall (fun e : string * Item => fst e = key (snd e))).

Lemma map_get_absent (m : JMap) (k : string) :
  ~ In k (List.map fst m) -> map_get m k = None.
Proof.
  induction m as [| [k' v'] m IH]; simpl; intros Hout; [reflexivity |].
  destruct (String.eqb_spec k' k) as [-> | Hne].
  - exfalso. apply Hout. left. reflexivity.
  - apply IH. intros Hin. apply Hout. right. exact Hin.
Qed.

Lemma map_get_entry (m : JMap) (k : string) (v : Item) :
  NoDup (List.map fst m) -> In (k, v) m -> map_get m k = Some v.
Proof.
  induction m as [| [k' v'] m IH]; simpl; intros Hn Hin; [contradiction |].
  inversion Hn as [| ? ? Hout Hn']; subst.
  destruct Hin as [Heq | Hin].
  - injection Heq as -> ->. rewrite String.eqb_refl. reflexivity.
  - destruct (String.eqb_spec k' k) as [-> | Hne]; [| apply IH; assumption].
    exfalso. apply Hout. apply in_map_iff. exists (k, v). split; [reflexivity | exact Hin].
Qed.

Lemma keyed_value_entry (m : JMap) (v : Item) :
  keyed m -> In v (map_values m) -> In (key v, v) m.
Proof.
  intros Hk Hin. unfold map_values in Hin.
  apply in_map_iff in Hin. destruct Hin as ([k v'] & Hv & Hin). simpl in Hv. subst v'.
  rewrite Forall_forall in Hk. specialize (Hk _ Hin). simpl in Hk. subst k. exact Hin.
Qed.

(** A map made of items with distinct keys lists them as they came. *)
Lemma fold_set_fresh_keys (l : list Item) (m : JMap) :
  NoDup (List.map fst m ++ List.map key l) ->
  fold_left (fun m x => map_set m (key x) x) l m = (m ++ List.map entry l)%list.
Proof.
  revert m. induction l as [| x l IH]; simpl; intros m Hn.
  - rewrite app_nil_r. reflexivity.
  - rewrite map_set_appends.
    + rewrite IH.
      * rewrite <- app_assoc. reflexivity.
      * rewrite map_app. simpl. rewrite <- app_assoc. exact Hn.
    + intros Hin. apply NoDup_remove_2 in Hn. apply Hn.
      apply in_or_app. left. exact Hin.
Qed.

Lemma map_of_distinct (l : list Item) :
  NoDup (List.map key l) -> map_of (List.map entry l) = List.map entry l.
Proof.
  intros Hn. unfold map_of. rewrite fold_left_over_map.
  apply (fold_set_fresh_keys l []). exact Hn.
Qed.

(** What a batch leaves under a key does not depend on the map it is
    merged into: the batch's own value if it sets the key, the map's
    otherwise. *)
Lemma merge_batch_get (now : Z) (newData : list Item) (m : JMap) (k : string) :
  map_get (merge_batch now m newData) k
  = match map_get (merge_batch now [] newData) k with
    | Some v => Some v
    | None => map_get m k
    end.
Proof.
  induction newData as [| x newData IH] using rev_ind; [reflexivity |].
  rewrite !merge_batch_app. simpl. unfold merge_item.
  destruct (String.eqb_spec (key x) k) as [<- | Hne].
  - rewrite !map_get_set_same. reflexivity.
  - rewrite !map_get_set_other by congruence. exact IH.
Qed.

(** Merging keeps the keys that were there, in their places. *)
Lemma merge_batch_keys (now : Z) (newData : list Item) (m : JMap) :
  exists ext, List.map fst (merge_batch now m newData) = (List.map fst m ++ ext)%list.
Proof.
  induction newData as [| x newData IH] using rev_ind.
  - exists []. rewrite app_nil_r. reflexivity.
  - destruct IH as [ext IH]. rewrite merge_batch_app. simpl. unfold merge_item.
    destruct (in_dec string_dec (key x) (List.map fst (merge_batch now m newData)))
      as [Hin | Hout].
    + exists ext. rewrite (map_set_keeps_order _ _ _ Hin). exact IH.
    + exists (ext ++ [key x])%list.
      rewrite (map_set_appends _ _ _ Hout), map_app, IH, <- app_assoc. reflexivity.
Qed.

(** Entries whose keys spell out the keys of [s], each equal to the item
    of [s] with its key, are the entries of [s]. *)
Lemma entries_aligned (p : JMap) (s : list Item) :
  List.map fst p = List.map key s ->
  (forall k v e, In (k, v) p -> In e s -> key e = k -> v = e) ->
  List.map snd p = s.
Proof.
  revert s. induction p as [| [k v] p IH]; intros [| e s] Hk Hv; simpl in *;
    try discriminate; [reflexivity |].
  injection Hk as Hk1 Hk2.
  rewrite (Hv k v e); [| left; reflexivity | left; reflexivity | symmetry; exact Hk1].
  f_equal. apply IH; [exact Hk2 |].
  intros k' v' e' Hin He Hkey. apply (Hv k' v' e'); [right | right |]; assumption.
Qed.

Lemma filter_all {A : Type} (f : A -> bool) (l : list A) :
  Forall (fun x => f x = true) l -> filter f l = l.
Proof.
  induction l as [| a l IH]; simpl; intros H; [reflexivity |].
  rewrite (Forall_inv H), (IH (Forall_inv_tail H)). reflexivity.
Qed.

(** An item at least as new as all of a list goes in front of it. *)
Lemma insert_newest_front (a : Item) (l : list Item) :
  Forall (newest_first a) l -> insert_newest a l = a :: l.
Proof.
  destruct l as [| b l]; simpl; intros H; [reflexivity |].
  pose proof (Forall_inv H) as Hb. unfold newest_first in Hb.
  destruct (Z.ltb_spec 0 (timestamp_or b 0 - timestamp_or a 0)); [lia | reflexivity].
Qed.

(** Sorting leaves a sorted front alone when nothing behind it is newer. *)
Lemma sort_sorted_front (s rest : list Item) :
  StronglySorted newest_first s ->
  (forall k x, In k s -> In x rest -> newest_first k x) ->
  sort_newest (s ++ rest) = (s ++ sort_newest rest)%list.
Proof.
  induction s as [| a s IH]; simpl; intros Hs Hrest; [reflexivity |].
  apply StronglySorted_inv in Hs. destruct Hs as [Hs Ha].
  rewrite IH; [| exact Hs | intros k x Hk Hx; apply Hrest; [right |]; assumption].
  apply insert_newest_front.
  apply Forall_app. split; [exact Ha |].
  apply Forall_forall. intros x Hx. apply Hrest; [left; reflexivity |].
  apply (Permutation_in x (Permutation_sym (sort_newest_perm rest)) Hx).
Qed.

Lemma ingest_fresh (now retention : Z) (newData prev : list Item) :
  Forall (fun item => fresh now retention item = true)
         (ingest now retention newData prev).
Proof.
  apply Forall_forall. intros x Hx. apply ingest_subset in Hx.
  pose proof (validItems_fresh now retention newData prev) as H.
  rewrite Forall_forall in H. apply H, Hx.
Qed.

End SameBatchTwice.

Section IngestIdempotent.
Import DXCluster.

Local Abbreviation entry := (fun item : Item => (key item, item)).

Variables (now retention : Z) (newData prev : list Item).

Let held := ingest now retention newData prev.
Let first_map := merge_batch now (map_of (List.map entry prev)) newData.
Let second_map := merge_batch now (map_of (List.map entry held)) newData.

Lemma held_in_first_map (e : Item) :
  In e held -> map_get first_map (key e) = Some e.
Proof.
  intros He. apply ingest_subset in He. unfold validItems in He.
  apply filter_In in He. destruct He as [He _].
  destruct (merged_shape now newData prev) as [Hn Hk].
  apply (map_get_entry _ _ _ Hn). apply keyed_value_entry; assumption.
Qed.

Lemma held_in_second_map (e : Item) :
  In e held -> map_get second_map (key e) = Some e.
Proof.
  intros He. pose proof (held_in_first_map e He) as H1.
  unfold first_map in H1. rewrite merge_batch_get in H1.
  unfold second_map. rewrite merge_batch_get.
  destruct (map_get (merge_batch now [] newData) (key e)) as [v |]; [exact H1 |].
  rewrite map_of_distinct by apply ingest_keys_unique.
  apply map_get_entry.
  - rewrite map_map. simpl. apply ingest_keys_unique.
  - apply in_map_iff. exists e. split; [reflexivity | exact He].
Qed.

(** The second merge lists the held items first, unchanged, and after
    them only items that the first merge held too and the first slice or
    the first age test dropped. *)
Lemma second_map_values :
  exists rest,
    map_values second_map = (held ++ rest)%list
    /\ forall x, In x rest ->
                 In x (map_values first_map) /\ ~ In (key x) (List.map key held).
Proof.
  destruct (merged_shape now newData held) as [Hn Hk]. fold second_map in Hn, Hk.
  destruct (merge_batch_keys now newData (map_of (List.map entry held))) as [ext Hext].
  fold second_map in Hext.
  rewrite map_of_distinct in Hext by apply ingest_keys_unique.
  rewrite map_map in Hext. simpl in Hext.
  set (n := List.length held).
  assert (Hfront : List.map fst (firstn n second_map) = List.map key held).
  { rewrite <- firstn_map, Hext, firstn_app, length_map.
    fold n. rewrite Nat.sub_diag. simpl. rewrite app_nil_r.
    unfold n. rewrite <- (length_map key held). apply firstn_all. }
  assert (Hback : List.map fst (skipn n second_map) = ext).
  { rewrite <- skipn_map, Hext, skipn_app, length_map. fold n.
    rewrite Nat.sub_diag. simpl.
    unfold n. rewrite <- (length_map key held), skipn_all. reflexivity. }
  exists (List.map snd (skipn n second_map)). split.
  - unfold map_values. rewrite <- (firstn_skipn n second_map) at 1.
    rewrite map_app. f_equal.
    apply entries_aligned; [exact Hfront |].
    intros k v e Hin He Hkey.
    assert (Hget : map_get second_map k = Some v).
    { apply (map_get_entry _ _ _ Hn). apply (in_firstn _ _ _ Hin). }
    rewrite <- Hkey, (held_in_second_map e He) in Hget. congruence.
  - intros x Hx. apply in_map_iff in Hx. destruct Hx as ([k x'] & Hx' & Hin).
    simpl in Hx'. subst x'.
    assert (Hin' : In (k, x) second_map).
    { rewrite <- (firstn_skipn n second_map). apply in_or_app. right. exact Hin. }
    assert (Hkx : k = key x).
    { rewrite Forall_forall in Hk. apply (Hk _ Hin'). }
    assert (Hout : ~ In k (List.map key held)).
    { rewrite Hext in Hn. intros Hheld.
      assert (Hk_ext : In k ext).
      { rewrite <- Hback. apply in_map_iff. exists (k, x). split; [reflexivity | exact Hin]. }
      clear - Hn Hheld Hk_ext.
      induction (List.map key held) as [| a l IH]; [contradiction |].
      simpl in Hn. inversion Hn as [| ? ? Ha Hl]; subst.
      destruct Hheld as [-> | Hheld]; [| apply IH; assumption].
      apply Ha. apply in_or_app. right. exact Hk_ext. }
    pose proof (map_get_entry _ _ _ Hn Hin') as Hget.
    unfold second_map in Hget. rewrite merge_batch_get in Hget.
    rewrite map_of_distinct in Hget by apply ingest_keys_unique.
    rewrite (map_get_absent (List.map entry held) k) in Hget
      by (rewrite map_map; exact Hout).
    split; [| rewrite <- Hkx; exact Hout].
    apply (map_get_in_values _ k). unfold first_map. rewrite merge_batch_get.
    destruct (map_get (merge_batch now [] newData) k); [exact Hget | discriminate Hget].
Qed.

End IngestIdempotent.

(** X3.  Handing the same batch to the updater a second time, at the same
    time, changes nothing: the items, their order and their timestamps
    are those the first call left. *)
Theorem ingest_twice_is_ingest_once
        (now retention : Z) (newData prev : list DXCluster.Item) :
  DXCluster.ingest now retention newData
    (DXCluster.ingest now retention newData prev)
  = DXCluster.ingest now retention newData prev.
Proof.
  set (held := DXCluster.ingest now retention newData prev).
  destruct (second_map_values now retention newData prev) as (rest & Hvalues & Hrest).
  fold held in Hvalues, Hrest.
  unfold DXCluster.ingest at 1. unfold DXCluster.validItems.
  rewrite Hvalues, filter_app.
  rewrite (filter_all _ held) by apply ingest_fresh.
  set (late := filter (DXCluster.fresh now retention) rest).
  set (sorted := DXCluster.sort_newest
                   (DXCluster.validItems now retention newData prev)).
  assert (Hheld : held = firstn DXCluster.maxCapacity sorted) by reflexivity.
  assert (Hlate : forall x, In x late ->
                            In x (skipn DXCluster.maxCapacity sorted)).
  { intros x Hx. unfold late in Hx. apply filter_In in Hx. destruct Hx as [Hx Hf].
    destruct (Hrest x Hx) as [Hfirst Hkey].
    assert (Hs : In x sorted).
    { apply (Permutation_in x (sort_newest_perm _)).
      unfold DXCluster.validItems. apply filter_In. split; assumption. }
    rewrite <- (firstn_skipn DXCluster.maxCapacity sorted) in Hs.
    apply in_app_or in Hs. destruct Hs as [Hs | Hs]; [| exact Hs].
    exfalso. apply Hkey. rewrite Hheld. apply in_map, Hs. }
  rewrite sort_sorted_front.
  - destruct late as [| x late'] eqn:E.
    + change (DXCluster.sort_newest []) with (@nil DXCluster.Item).
      rewrite app_nil_r. apply firstn_all2. apply ingest_length.
    + assert (Hfull : List.length held = DXCluster.maxCapacity).
      { rewrite Hheld, length_firstn.
        assert (Hx : In x (skipn DXCluster.maxCapacity sorted))
          by (apply Hlate; left; reflexivity).
        assert (DXCluster.maxCapacity < List.length sorted); [| lia].
        destruct (Nat.lt_ge_cases DXCluster.maxCapacity (List.length sorted))
          as [Hlt | Hge]; [exact Hlt |].
        rewrite skipn_all2 in Hx by exact Hge. contradiction. }
      rewrite firstn_app, Hfull, Nat.sub_diag, firstn_O, app_nil_r.
      apply firstn_all2. rewrite Hfull. apply Nat.le_refl.
  - rewrite Hheld. apply sorted_firstn, sort_newest_sorted.
  - intros k x Hk Hx. rewrite Hheld in Hk.
    apply (sorted_slice DXCluster.maxCapacity sorted);
      [apply sort_newest_sorted | exact Hk | apply Hlate, Hx].
Qed.

Section QuietPoll.
Import DXCluster.

Lemma sort_sorted (l : list Item) :
  StronglySorted newest_first l -> sort_newest l = l.
Proof.
  intros H. pose proof (sort_sorted_front l [] H) as E.
  rewrite !app_nil_r in E. apply E. intros k x _ [].
Qed.

Lemma step_length (allData : list Item) (e : Event) :
  List.length allData <= maxCapacity -> List.length (step allData e) <= maxCapacity.
Proof.
  intros H. destruct e as [now retention newData | now retention]; simpl.
  - apply ingest_length.
  - unfold cleanup. pose proof (filter_length_le (fresh now retention) allData). lia.
Qed.

Lemma run_length (events : list Event) : List.length (run events) <= maxCapacity.
Proof.
  induction events as [| e events IH] using rev_ind.
  - unfold maxCapacity. simpl. lia.
  - rewrite run_snoc. apply step_length, IH.
Qed.

End QuietPoll.

(** X4.  A poll that brings no report does what the clean-up does: it drops
    the items that have become stale and leaves the others as they are, in
    their order. *)
Theorem empty_fetch_is_cleanup (events : list DXCluster.Event) (now retention : Z) :
  DXCluster.ingest now retention [] (DXCluster.run events)
  = DXCluster.cleanup now retention (DXCluster.run events).
Proof.
  unfold DXCluster.ingest, DXCluster.validItems, DXCluster.cleanup.
  rewrite map_of_distinct by apply allData_keys_unique.
  change (DXCluster.merge_batch now ?m []) with m.
  unfold DXCluster.map_values. rewrite map_map. cbn [snd]. rewrite map_id.
  rewrite sort_sorted by (apply sorted_filter, allData_newest_first).
  apply firstn_all2.
  pose proof (filter_length_le (DXCluster.fresh now retention) (DXCluster.run events)).
  pose proof (run_length events). lia.
Qed.

Section PathsView.
Import DXCluster DXViews.

Variable getCallsignInfo : option string -> CallsignInfo.
Variable getBandFromFreq : option string -> option string.
Variable detectMode : option string -> option string.

Local Abbreviation applyFilters :=
  (DXCluster.applyFilters getCallsignInfo getBandFromFreq detectMode).





End PathsView.


(* ================================================================== *)
(** * More on the filters *)
(* ================================================================== *)

Section KeptReports.
Import DXCluster.

Variable getCallsignInfo : option string -> CallsignInfo.
Variable getBandFromFreq : option string -> option string.
Variable detectMode : option string -> option string.

Local Abbreviation keep :=
  (DXCluster.keep getCallsignInfo getBandFromFreq detectMode).

Lemma existsb_false_all {A : Type} (f : A -> bool) (l : list A) :
  existsb f l = false -> forall x, In x l -> f x = false.
Proof.
  intros H x Hx. destruct (f x) eqn:E; [| reflexivity].
  assert (existsb f l = true) by (apply existsb_exists; exists x; split; assumption).
  congruence.
Qed.

Lemma includesStr_In (l : list string) (x : option string) :
  includesStr l x = true <-> exists s, x = Some s /\ In s l.
Proof.
  destruct x as [s |]; simpl.
  - rewrite existsb_exists. split.
    + intros (y & Hy & E). apply String.eqb_eq in E. subst y.
      exists s. split; [reflexivity | exact Hy].
    + intros (s' & Hs & Hin). injection Hs as <-.
      exists s. split; [exact Hin | apply String.eqb_refl].
  - split; [discriminate | intros (s & Hs & _); discriminate Hs].
Qed.

Lemma includesZ_In (l : list Z) (x : option Z) :
  includesZ l x = true <-> exists z, x = Some z /\ In z l.
Proof.
  destruct x as [z |]; simpl.
  - rewrite existsb_exists. split.
    + intros (y & Hy & E). apply Z.eqb_eq in E. subst y.
      exists z. split; [reflexivity | exact Hy].
    + intros (z' & Hz & Hin). injection Hz as <-.
      exists z. split; [exact Hin | apply Z.eqb_refl].
  - split; [discriminate | intros (z & Hz & _); discriminate Hz].
Qed.

(** The conditions of the callback, one by one, for a report it keeps. *)
Lemma keep_conditions (filters : Filters) (item : Item) :
  keep filters item = true ->
  ((match watchlistOnly filters with Some b => b | None => false end
     && nonempty (watchlist filters))
    && negb (existsb (fun w => call_includes (dx_call item) (JS.toUpperCase w))
                     (elems (watchlist filters))) = false)
  /\ nonempty (excludeList filters)
     && existsb (call_startsWith (dx_call item)) (elems (excludeList filters)) = false
  /\ nonempty (cqZones filters)
     && (negb (JS.truthy_Z (cqZone (getCallsignInfo (spotter item))))
         || negb (includesZ (elems (cqZones filters))
                            (cqZone (getCallsignInfo (spotter item))))) = false
  /\ nonempty (ituZones filters)
     && (negb (JS.truthy_Z (ituZone (getCallsignInfo (spotter item))))
         || negb (includesZ (elems (ituZones filters))
                            (ituZone (getCallsignInfo (spotter item))))) = false
  /\ nonempty (continents filters)
     && (negb (JS.truthy_str (continent (getCallsignInfo (spotter item))))
         || negb (includesStr (elems (continents filters))
                              (continent (getCallsignInfo (spotter item))))) = false
  /\ nonempty (continents filters)
     && (JS.truthy_str (continent (getCallsignInfo (dx_call item)))
         && includesStr (elems (continents filters))
                        (continent (getCallsignInfo (dx_call item)))) = false
  /\ nonempty (bands filters)
     && negb (includesStr (elems (bands filters)) (getBandFromFreq (freq item))) = false
  /\ nonempty (modes filters)
     && (negb (JS.truthy_str (detectMode (comment item)))
         || negb (includesStr (elems (modes filters)) (detectMode (comment item)))) = false.
Proof.
  unfold DXCluster.keep.
  repeat match goal with
         | |- (if ?c then false else _) = true -> _ =>
             destruct c; [discriminate |]
         end.
  intros _. repeat split; reflexivity.
Qed.

End KeptReports.

(** X8.  A report that the filter keeps passes every criterion that is
    configured (a list criterion is configured when its list is not
    empty): its call contains a watchlist entry when the watchlist is
    exclusive, starts with no excluded prefix, its spotter's zones and
    continent resolve into the selected ones, its destination's continent,
    if it resolves, is outside them, and its band and mode are among the
    selected ones. *)
Theorem kept_report_passes_every_criterion
        (getCallsignInfo : option string -> DXCluster.CallsignInfo)
        (getBandFromFreq detectMode : option string -> option string)
        (filters : DXCluster.Filters) (item : DXCluster.Item) :
  DXCluster.keep getCallsignInfo getBandFromFreq detectMode filters item = true ->
  let spotterInfo := getCallsignInfo (DXCluster.spotter item) in
  let dxInfo := getCallsignInfo (DXCluster.dx_call item) in
  (DXCluster.watchlistOnly filters = Some true ->
   DXCluster.nonempty (DXCluster.watchlist filters) = true ->
   exists w, In w (DXCluster.elems (DXCluster.watchlist filters))
             /\ DXCluster.call_includes (DXCluster.dx_call item) (JS.toUpperCase w) = true)
  /\ (forall exc, In exc (DXCluster.elems (DXCluster.excludeList filters)) ->
                  DXCluster.call_startsWith (DXCluster.dx_call item) exc = false)
  /\ (DXCluster.nonempty (DXCluster.cqZones filters) = true ->
      exists z, DXCluster.cqZone spotterInfo = Some z /\ z <> 0%Z
                /\ In z (DXCluster.elems (DXCluster.cqZones filters)))
  /\ (DXCluster.nonempty (DXCluster.ituZones filters) = true ->
      exists z, DXCluster.ituZone spotterInfo = Some z /\ z <> 0%Z
                /\ In z (DXCluster.elems (DXCluster.ituZones filters)))
  /\ (DXCluster.nonempty (DXCluster.continents filters) = true ->
      (exists c, DXCluster.continent spotterInfo = Some c /\ c <> ""
                 /\ In c (DXCluster.elems (DXCluster.continents filters)))
      /\ (forall c, DXCluster.continent dxInfo = Some c -> c <> "" ->
                    ~ In c (DXCluster.elems (DXCluster.continents filters))))
  /\ (DXCluster.nonempty (DXCluster.bands filters) = true ->
      exists b, getBandFromFreq (DXCluster.freq item) = Some b
                /\ In b (DXCluster.elems (DXCluster.bands filters)))
  /\ (DXCluster.nonempty (DXCluster.modes filters) = true ->
      exists m, detectMode (DXCluster.comment item) = Some m /\ m <> ""
                /\ In m (DXCluster.elems (DXCluster.modes filters))).
Proof.
  intros Hkeep spotterInfo dxInfo. subst spotterInfo dxInfo.
  destruct (keep_conditions _ _ _ _ _ Hkeep)
    as (Hw & He & Hcq & Hitu & Hc1 & Hc2 & Hb & Hm).
  split; [| split; [| split; [| split; [| split; [| split]]]]].
  - intros Honly Hlist. rewrite Honly, Hlist in Hw. simpl in Hw.
    apply negb_false_iff, existsb_exists in Hw. exact Hw.
  - intros exc Hin.
    destruct (DXCluster.excludeList filters) as [[| e l] |]; simpl in Hin; try contradiction.
    simpl DXCluster.nonempty in He. rewrite andb_true_l in He.
    apply (existsb_false_all _ _ He). exact Hin.
  - intros Hne. rewrite Hne, andb_true_l in Hcq.
    apply orb_false_iff in Hcq. destruct Hcq as [Ht Hi].
    apply negb_false_iff in Ht. apply negb_false_iff, includesZ_In in Hi.
    destruct Hi as (z & Hz & Hin). exists z. repeat split; [exact Hz | | exact Hin].
    rewrite Hz in Ht. simpl in Ht. intros ->. discriminate Ht.
  - intros Hne. rewrite Hne, andb_true_l in Hitu.
    apply orb_false_iff in Hitu. destruct Hitu as [Ht Hi].
    apply negb_false_iff in Ht. apply negb_false_iff, includesZ_In in Hi.
    destruct Hi as (z & Hz & Hin). exists z. repeat split; [exact Hz | | exact Hin].
    rewrite Hz in Ht. simpl in Ht. intros ->. discriminate Ht.
  - intros Hne. rewrite Hne, andb_true_l in Hc1, Hc2. split.
    + apply orb_false_iff in Hc1. destruct Hc1 as [Ht Hi].
      apply negb_false_iff in Ht. apply negb_false_iff, includesStr_In in Hi.
      destruct Hi as (c & Hc & Hin). exists c. repeat split; [exact Hc | | exact Hin].
      rewrite Hc in Ht. simpl in Ht. intros ->. discriminate Ht.
    + intros c Hc Hne' Hin. rewrite Hc in Hc2.
      assert (Ht : JS.truthy_str (Some c) = true).
      { simpl. apply negb_true_iff, String.eqb_neq, Hne'. }
      rewrite Ht, andb_true_l in Hc2.
      assert (Hi : DXCluster.includesStr
                     (DXCluster.elems (DXCluster.continents filters)) (Some c) = true).
      { apply includesStr_In. exists c. split; [reflexivity | exact Hin]. }
      congruence.
  - intros Hne. rewrite Hne, andb_true_l in Hb.
    apply negb_false_iff, includesStr_In in Hb. exact Hb.
  - intros Hne. rewrite Hne, andb_true_l in Hm.
    apply orb_false_iff in Hm. destruct Hm as [Ht Hi].
    apply negb_false_iff in Ht. apply negb_false_iff, includesStr_In in Hi.
    destruct Hi as (m & Hmm & Hin). exists m. repeat split; [exact Hmm | | exact Hin].
    rewrite Hmm in Ht. simpl in Ht. intros ->. discriminate Ht.
Qed.

(** With [continents: ["EU"]], the spot of [K1ABC] by [DL1ABC] is kept,
    so its spotter is in Europe. *)
Lemma kept_report_passes_every_criterion_witness :
  exists c,
    DXCluster.continent (DXCluster.sample_getCallsignInfo (Some "DL1ABC")) = Some c
    /\ c <> "" /\ In c ["EU"].
Proof.
  refine (proj1 (proj1 (proj2 (proj2 (proj2 (proj2
            (kept_report_passes_every_criterion
               DXCluster.sample_getCallsignInfo DXCluster.sample_getBandFromFreq
               DXCluster.sample_detectMode (DXCluster.only_continents ["EU"])
               (DXCluster.mkItem (Some "K1ABC") None (Some "14074.0") (Some "DL1ABC")
                                 None None None None None None) _))))) _)).
  - reflexivity.
  - reflexivity.
Defined.

Section IdleFilters.
Import DXCluster DXFilters.

Variable getCallsignInfo : option string -> CallsignInfo.
Variable getBandFromFreq : option string -> option string.
Variable detectMode : option string -> option string.

Lemma idle_keeps (filters : Filters) (item : Item) :
  idle filters ->
  DXCluster.keep getCallsignInfo getBandFromFreq detectMode filters item = true.
Proof.
  intros (Hw & He & Hcq & Hitu & Hc & Hb & Hm & Hs). unfold DXCluster.keep.
  rewrite He, Hcq, Hitu, Hc, Hb, Hm. cbn [andb].
  assert (Hw' : (match watchlistOnly filters with Some b => b | None => false end
                 && nonempty (watchlist filters)) = false).
  { destruct Hw as [Hw | Hw]; [| rewrite Hw; apply andb_false_r].
    destruct (watchlistOnly filters) as [[|] |]; [congruence | reflexivity | reflexivity]. }
  rewrite Hw'. cbn [andb].
  destruct Hs as [Hs | Hs]; rewrite Hs; [reflexivity | rewrite andb_false_r; reflexivity].
Qed.

End IdleFilters.

(** X9.  Empty lists filter nothing: when every list of the filters object is
    missing or empty, the watchlist is not exclusive and the search text
    is missing or blank, the filter returns the data as it is, whatever
    other properties the object has. *)
Theorem idle_filters_return_all
        (getCallsignInfo : option string -> DXCluster.CallsignInfo)
        (getBandFromFreq detectMode : option string -> option string)
        (filters : DXCluster.Filters) (data : list DXCluster.Item) :
  DXFilters.idle filters ->
  DXCluster.applyFilters getCallsignInfo getBandFromFreq detectMode data (Some filters)
  = data.
Proof.
  intros Hidle. unfold DXCluster.applyFilters.
  destruct (DXCluster.no_keys filters); [reflexivity |].
  apply filter_all. apply Forall_forall. intros item _.
  apply idle_keeps, Hidle.
Qed.

(** Filters left over from a cleared form: empty lists, a blank search
    box, and a retention setting. *)
Lemma idle_filters_return_all_witness :
  let item := DXCluster.mkItem (Some "K1ABC") None (Some "14074.0") (Some "W1AW")
                               None None None None None None in
  DXCluster.applyFilters DXCluster.sample_getCallsignInfo
    DXCluster.sample_getBandFromFreq DXCluster.sample_detectMode [item]
    (Some (DXCluster.mkFilters (Some true) (Some []) (Some []) (Some []) None
                               (Some []) (Some []) (Some []) (Some "  ")
                               (Some 10%Z)))
  = [item].
Proof.
  intros item. apply idle_filters_return_all.
  repeat split; try reflexivity; right; reflexivity.
Defined.

Section SearchText.
Import JS DXCluster DXFilters.

Lemma is_space_upper (c : ascii) : is_space (upper_char c) = is_space c.
Proof. destruct c as [[] [] [] [] [] [] [] []]; reflexivity. Qed.

Lemma trimStart_upper (s : string) :
  trimStart (toUpperCase s) = toUpperCase (trimStart s).
Proof.
  induction s as [| c s IH]; simpl; [reflexivity |].
  rewrite is_space_upper. destruct (is_space c); [exact IH | reflexivity].
Qed.

Lemma trimEnd_upper (s : string) :
  trimEnd (toUpperCase s) = toUpperCase (trimEnd s).
Proof.
  induction s as [| c s IH]; simpl; [reflexivity |].
  rewrite IH, is_space_upper.
  destruct (trimEnd s) as [| c' t]; simpl; [| reflexivity].
  destruct (is_space c); reflexivity.
Qed.

Lemma trim_upper (s : string) : trim (toUpperCase s) = toUpperCase (trim s).
Proof. unfold trim. rewrite trimStart_upper, trimEnd_upper. reflexivity. Qed.

End SearchText.

(** X10.  The search text is matched without regard to its letter case: the
    filter keeps the same reports for a text and for its upper-case
    form. *)
Theorem callsign_search_ignores_case
        (getCallsignInfo : option string -> DXCluster.CallsignInfo)
        (getBandFromFreq detectMode : option string -> option string)
        (filters : DXCluster.Filters) (text : string) (data : list DXCluster.Item) :
  DXCluster.applyFilters getCallsignInfo getBandFromFreq detectMode data
    (Some (DXFilters.with_callsign filters (Some (JS.toUpperCase text))))
  = DXCluster.applyFilters getCallsignInfo getBandFromFreq detectMode data
      (Some (DXFilters.with_callsign filters (Some text))).
Proof.
  unfold DXCluster.applyFilters.
  assert (Hkeys : DXCluster.no_keys
                    (DXFilters.with_callsign filters (Some (JS.toUpperCase text)))
                  = DXCluster.no_keys (DXFilters.with_callsign filters (Some text))).
  { unfold DXCluster.no_keys, DXFilters.with_callsign. simpl.
    destruct (DXCluster.watchlistOnly filters), (DXCluster.watchlist filters),
      (DXCluster.excludeList filters), (DXCluster.cqZones filters),
      (DXCluster.ituZones filters), (DXCluster.continents filters),
      (DXCluster.bands filters), (DXCluster.modes filters); reflexivity. }
  rewrite Hkeys.
  destruct (DXCluster.no_keys (DXFilters.with_callsign filters (Some text)));
    [reflexivity |].
  apply filter_ext. intros item. unfold DXCluster.keep, DXFilters.with_callsign.
  cbn [DXCluster.watchlistOnly DXCluster.watchlist DXCluster.excludeList
       DXCluster.cqZones DXCluster.ituZones DXCluster.continents DXCluster.bands
       DXCluster.modes DXCluster.callsign JS.show option_map JS.truthy_str].
  rewrite trim_upper, toUpperCase_idempotent, !toUpperCase_empty.
  reflexivity.
Qed.

(* ================================================================== *)
(** * More on the PSKReporter hook *)
(* ================================================================== *)

Section BestSnr.
Import PSKStats.
Local Open Scope Q_scope.

(** The accumulator of the [reduce]: [null], or a report that ranks
    above the floor. *)
Local Abbreviation above_floor :=
  (fun acc : option Heard => match acc with Some r => -99 < rank (Some r) | None => True end).

Lemma better_spec (acc : option Heard) (r : Heard) :
  above_floor acc ->
  above_floor (better acc r)
  /\ rank acc <= rank (better acc r)
  /\ rank (Some r) <= rank (better acc r)
  /\ (better acc r = acc \/ better acc r = Some r).
Proof.
  intros Hacc. unfold better.
  destruct (JS.ltb (rank acc) (rank (Some r))) eqn:E.
  - apply ltb_true_iff in E. repeat split.
    + destruct acc as [a |]; simpl in *; Lqa.lra.
    + Lqa.lra.
    + apply Qle_refl.
    + right. reflexivity.
  - apply ltb_false_iff in E. repeat split.
    + exact Hacc.
    + apply Qle_refl.
    + exact E.
    + left. reflexivity.
Qed.

Lemma fold_better (l : list Heard) (acc : option Heard) :
  above_floor acc ->
  let best := fold_left better l acc in
  above_floor best
  /\ rank acc <= rank best
  /\ (forall r, In r l -> rank (Some r) <= rank best)
  /\ (best = acc \/ exists r, In r l /\ best = Some r).
Proof.
  revert acc. induction l as [| x l IH]; simpl; intros acc Hacc.
  - repeat split; [exact Hacc | apply Qle_refl | intros r [] | left; reflexivity].
  - destruct (better_spec acc x Hacc) as (H1 & H2 & H3 & H4).
    destruct (IH (better acc x) H1) as (I1 & I2 & I3 & I4).
    repeat split.
    + exact I1.
    + apply (Qle_trans _ _ _ H2 I2).
    + intros r [<- | Hr]; [apply (Qle_trans _ _ _ H3 I2) | apply I3, Hr].
    + destruct I4 as [I4 | (r & Hr & I4)].
      * rewrite I4. destruct H4 as [H4 | H4]; [left; exact H4 |].
        right. exists x. split; [left; reflexivity | exact H4].
      * right. exists r. split; [right; exact Hr | exact I4].
Qed.

End BestSnr.

(** X11.  The best report is one of the reports, ranks above -99 dB and no
    report ranks above it, a report ranking by its SNR and by -99 when
    the SNR is absent or exactly 0.  There is none exactly when no report
    ranks above -99 dB: so a list of reports that all have an SNR of 0 dB
    has no best report. *)
Theorem bestSnr_is_a_maximum (txReports : list PSKStats.Heard) :
  (forall best, PSKStats.bestSnr txReports = Some best ->
     In best txReports
     /\ (-99 < PSKStats.rank (Some best))%Q
     /\ forall r, In r txReports ->
                  (PSKStats.rank (Some r) <= PSKStats.rank (Some best))%Q)
  /\ (PSKStats.bestSnr txReports = None <->
      forall r, In r txReports -> (PSKStats.rank (Some r) <= -99)%Q).
Proof.
  destruct (fold_better txReports None I) as (H1 & _ & H3 & H4).
  assert (Hbest : PSKStats.bestSnr txReports = fold_left PSKStats.better txReports None).
  { destruct txReports; reflexivity. }
  rewrite Hbest. split.
  - intros best E. rewrite E in H1, H3, H4. repeat split.
    + destruct H4 as [H4 | (r & Hr & H4)]; [discriminate H4 |].
      assert (best = r) by congruence. subst best. exact Hr.
    + exact H1.
    + exact H3.
  - split.
    + intros E r Hr. rewrite E in H3. apply (H3 r Hr).
    + intros Hall.
      destruct (fold_left PSKStats.better txReports None) as [b |] eqn:E; [| reflexivity].
      exfalso. destruct H4 as [H4 | (r & Hr & H4)]; [discriminate H4 |].
      assert (b = r) by congruence. subst b.
      specialize (Hall r Hr). simpl in H1, Hall.
      apply (Qlt_not_le _ _ H1 Hall).
Qed.

Section SpreadSet.
Import PSKStats.

Lemma same_true_iff (a b : option string) : same a b = true <-> a = b.
Proof.
  destruct a as [x |], b as [y |]; simpl; split; intros H;
    try discriminate; try reflexivity.
  - apply String.eqb_eq in H. congruence.
  - injection H as <-. apply String.eqb_refl.
Qed.

Lemma existsb_same (x : option string) (l : list (option string)) :
  existsb (same x) l = true <-> In x l.
Proof.
  rewrite existsb_exists. split.
  - intros (y & Hy & E). apply same_true_iff in E. subst y. exact Hy.
  - intros H. exists x. split; [exact H | apply same_true_iff; reflexivity].
Qed.

Lemma spread_set_spec (seen l : list (option string)) :
  NoDup (spread_set seen l)
  /\ forall x, In x (spread_set seen l) <-> In x l /\ ~ In x seen.
Proof.
  revert seen. induction l as [| a l IH]; intros seen; simpl.
  - split; [constructor | intros x; split; [intros [] | intros [[] _]]].
  - destruct (existsb (same a) seen) eqn:E.
    + apply existsb_same in E. destruct (IH seen) as [Hn Hi].
      split; [exact Hn |]. intros x. rewrite Hi. split.
      * intros [Hx Hs]. split; [right; exact Hx | exact Hs].
      * intros [[<- | Hx] Hs]; [contradiction | split; assumption].
    + assert (Hout : ~ In a seen).
      { intros Hin. apply existsb_same in Hin. congruence. }
      destruct (IH (a :: seen)) as [Hn Hi]. split.
      * constructor; [| exact Hn]. intros Hin. apply Hi in Hin.
        destruct Hin as [_ Hin]. apply Hin. left. reflexivity.
      * intros x. split.
        -- intros [<- | Hx]; [split; [left; reflexivity | exact Hout] |].
           apply Hi in Hx. destruct Hx as [Hx Hs].
           split; [right; exact Hx |]. intros Hin. apply Hs. right. exact Hin.
        -- intros [[<- | Hx] Hs]; [left; reflexivity |].
           destruct (same a x) eqn:Eax.
           ++ apply same_true_iff in Eax. left. exact Eax.
           ++ right. apply Hi. split; [exact Hx |].
              intros [Hax | Hin]; [| contradiction].
              apply same_true_iff in Hax. congruence.
Qed.

Lemma NoDup_filter {A : Type} (f : A -> bool) (l : list A) :
  NoDup l -> NoDup (filter f l).
Proof.
  intros H. rewrite <- (map_id (filter f l)). apply NoDup_map_filter.
  rewrite map_id. exact H.
Qed.

End SpreadSet.

(** X12.  The bands of the summary hold no band twice, and they are exactly
    the bands of the reports that are neither empty nor [Unknown]. *)
Theorem txBands_are_the_known_bands (txReports : list PSKStats.Heard) :
  NoDup (PSKStats.txBands txReports)
  /\ forall b, In b (PSKStats.txBands txReports) <->
               exists s, b = Some s /\ s <> "" /\ s <> "Unknown"
                         /\ exists r, In r txReports /\ PSKStats.band r = Some s.
Proof.
  unfold PSKStats.txBands.
  destruct (spread_set_spec [] (List.map PSKStats.band txReports)) as [Hn Hi].
  split; [apply NoDup_filter, Hn |].
  intros b. rewrite filter_In, Hi, in_map_iff. split.
  - intros [[(r & Hr & Hin) _] Hf].
    apply andb_true_iff in Hf. destruct Hf as [Ht Hu].
    destruct b as [s |]; [| discriminate Ht].
    exists s. split; [reflexivity |]. split; [| split].
    + intros ->. discriminate Ht.
    + intros ->. discriminate Hu.
    + exists r. split; assumption.
  - intros (s & -> & Hne & Hu & r & Hin & Hr). split.
    + split; [exists r; split; assumption | intros []].
    + apply andb_true_iff. split.
      * simpl. apply negb_true_iff, String.eqb_neq, Hne.
      * simpl. apply negb_true_iff, String.eqb_neq, Hu.
Qed.

(* ================================================================== *)
(** * More on the locator decoding *)
(* ================================================================== *)

(** Only the first six characters of a locator are read, and a fifth
    character without a sixth is not read either, in both copies. *)
Lemma locator_tail_is_ignored (c0 c1 c2 c3 c4 c5 : ascii) (rest : string) :
  let six := String c0 (String c1 (String c2 (String c3 (String c4 (String c5 ""))))) in
  let four := String c0 (String c1 (String c2 (String c3 ""))) in
  PSK.gridToLatLon (Some (six ++ rest)) = PSK.gridToLatLon (Some six)
  /\ WSPR.gridToLatLon (Some (six ++ rest)) = WSPR.gridToLatLon (Some six)
  /\ PSK.gridToLatLon (Some (four ++ String c4 "")) = PSK.gridToLatLon (Some four)
  /\ WSPR.gridToLatLon (Some (four ++ String c4 "")) = WSPR.gridToLatLon (Some four).
Proof. repeat split; reflexivity. Qed.

Section CellArithmetic.
Import Locator Maidenhead.
Local Open Scope Q_scope.

Lemma center_lon_units (c : Cell) : 24 * center_lon c == inject_Z (lon_units c).
Proof.
  destruct c as [f0 f1 d0 d1 [[a b] |]]; unfold center_lon, lon_units;
    cbn [subsquare field_lon square_lon];
    repeat (rewrite inject_Z_plus || rewrite inject_Z_mult); field.
Qed.

Lemma center_lat_units (c : Cell) : 48 * center_lat c == inject_Z (lat_units c).
Proof.
  destruct c as [f0 f1 d0 d1 [[a b] |]]; unfold center_lat, lat_units;
    cbn [subsquare field_lat square_lat];
    repeat (rewrite inject_Z_plus || rewrite inject_Z_mult); field.
Qed.

Lemma inject_Z_lt (x y : Z) : (x < y)%Z -> inject_Z x < inject_Z y.
Proof. intros H. rewrite <- Zlt_Qlt. exact H. Qed.

Lemma inject_Z_eq (x y : Z) : inject_Z x == inject_Z y -> x = y.
Proof. intros H. unfold Qeq, inject_Z in H. cbn [Qnum Qden] in H. lia. Qed.

Lemma units_in_range (c : Cell) :
  in_range c ->
  (-180 * 24 < lon_units c < 180 * 24)%Z /\ (-90 * 48 < lat_units c < 90 * 48)%Z.
Proof.
  destruct c as [f0 f1 d0 d1 [[a b] |]]; unfold in_range, lon_units, lat_units;
    cbn [subsquare field_lon field_lat square_lon square_lat]; lia.
Qed.

Lemma units_determine_cell (c c' : Cell) :
  in_range c -> in_range c' ->
  lon_units c = lon_units c' -> lat_units c = lat_units c' -> c = c'.
Proof.
  destruct c as [f0 f1 d0 d1 [[a b] |]], c' as [f0' f1' d0' d1' [[a' b'] |]];
    unfold in_range, lon_units, lat_units;
    cbn [subsquare field_lon field_lat square_lon square_lat];
    intros Hr Hr' Hlon Hlat;
    try (exfalso; lia);
    assert (f0 = f0') by lia; assert (f1 = f1') by lia;
    assert (d0 = d0') by lia; assert (d1 = d1') by lia; subst.
  - assert (a = a') by lia. assert (b = b') by lia. subst. reflexivity.
  - reflexivity.
Qed.

(** What [read] gives is a letter index and a digit value. *)
Lemma letter_index_range (c : ascii) (k : Z) :
  letter_index c = Some k -> (0 <= k <= 25)%Z.
Proof.
  destruct c as [[] [] [] [] [] [] [] []]; vm_compute; intros H;
    first [discriminate H | injection H as <-; split; discriminate].
Qed.

Lemma digit_value_range (c : ascii) (k : Z) :
  digit_value c = Some k -> (0 <= k <= 9)%Z.
Proof.
  destruct c as [[] [] [] [] [] [] [] []]; vm_compute; intros H;
    first [discriminate H | injection H as <-; split; discriminate].
Qed.

End CellArithmetic.

Section DecodedCells.
Import Locator Maidenhead.

Lemma PSK_decodes_numbers (s : string) (cell : Cell) :
  read s = Some cell ->
  exists la lo,
    PSK.gridToLatLon (Some s) = Some (mkLatLon (JS.Num la) (JS.Num lo))
    /\ (la == center_lat cell)%Q /\ (lo == center_lon cell)%Q.
Proof.
  intros Hread.
  destruct (PSK_decodes s cell Hread) as ([la lo] & Hp & Hlat & Hlon).
  simpl in Hlat, Hlon.
  destruct la as [| la]; [contradiction |]. destruct lo as [| lo]; [contradiction |].
  exists la, lo. split; [exact Hp | split; assumption].
Qed.

(** The first four characters of a locator that reads as a cell read as
    its square. *)
Lemma read_square (s : string) (cell : Cell) :
  read s = Some cell -> read (substring 0 4 s) = Some (square_of cell).
Proof.
  intros H.
  destruct (read_shape s cell H) as (c0 & c1 & c2 & c3 & rest & -> & H0 & H1 & H2 & H3 & _).
  destruct cell as [f0 f1 d0 d1 sub]. simpl in H0, H1, H2, H3.
  cbn [substring]. unfold read. rewrite H0, H1, H2, H3.
  destruct rest; reflexivity.
Qed.

End DecodedCells.

(** X16.  A locator of the Maidenhead system decodes to a point of the globe:
    latitude strictly between -90 and 90, longitude strictly between
    -180 and 180. *)
Theorem maidenhead_locator_is_on_the_globe (s : string) (cell : Locator.Cell) :
  Locator.read s = Some cell -> Maidenhead.in_range cell ->
  exists la lo,
    PSK.gridToLatLon (Some s) = Some (mkLatLon (JS.Num la) (JS.Num lo))
    /\ (-90 < la < 90)%Q /\ (-180 < lo < 180)%Q.
Proof.
  intros Hread Hrange.
  destruct (PSK_decodes_numbers s cell Hread) as (la & lo & Hp & Hlat & Hlon).
  exists la, lo. split; [exact Hp |].
  destruct (units_in_range cell Hrange) as [[Hlo1 Hlo2] [Hla1 Hla2]].
  apply inject_Z_lt in Hlo1, Hlo2, Hla1, Hla2.
  rewrite <- center_lon_units in Hlo1, Hlo2.
  rewrite <- center_lat_units in Hla1, Hla2.
  change (inject_Z (-180 * 24)) with (-180 * 24)%Q in Hlo1.
  change (inject_Z (180 * 24)) with (180 * 24)%Q in Hlo2.
  change (inject_Z (-90 * 48)) with (-90 * 48)%Q in Hla1.
  change (inject_Z (90 * 48)) with (90 * 48)%Q in Hla2.
  rewrite Hlat, Hlon. split; split; Lqa.lra.
Qed.

(** The last cell of the system, near the north pole and the date
    line. *)
Lemma maidenhead_locator_is_on_the_globe_witness :
  exists la lo,
    PSK.gridToLatLon (Some "RR99xx") = Some (mkLatLon (JS.Num la) (JS.Num lo))
    /\ (-90 < la < 90)%Q /\ (-180 < lo < 180)%Q.
Proof.
  apply (maidenhead_locator_is_on_the_globe
           "RR99xx" (Locator.mkCell 17 17 9 9 (Some (23, 23))%Z)).
  - reflexivity.
  - unfold Maidenhead.in_range. simpl. lia.
Defined.

(** X17.  Two Maidenhead locators that decode to the same coordinates name the
    same cell: the decoding never maps two different cells, of the same
    precision or not, to one point. *)
Theorem maidenhead_decoding_is_injective (s t : string) (c c' : Locator.Cell) :
  Locator.read s = Some c -> Locator.read t = Some c' ->
  Maidenhead.in_range c -> Maidenhead.in_range c' ->
  Locator.same_result (PSK.gridToLatLon (Some s)) (PSK.gridToLatLon (Some t)) ->
  c = c'.
Proof.
  intros Hs Ht Hr Hr' Hsame.
  destruct (PSK_decodes_numbers s c Hs) as (la & lo & Hp & Hlat & Hlon).
  destruct (PSK_decodes_numbers t c' Ht) as (la' & lo' & Hp' & Hlat' & Hlon').
  rewrite Hp, Hp' in Hsame. destruct Hsame as [Ela Elo]. simpl in Ela, Elo.
  apply units_determine_cell; [exact Hr | exact Hr' | |]; apply inject_Z_eq.
  - rewrite <- !center_lon_units, <- Hlon, <- Hlon', Elo. reflexivity.
  - rewrite <- !center_lat_units, <- Hlat, <- Hlat', Ela. reflexivity.
Qed.

Lemma maidenhead_decoding_is_injective_witness :
  Locator.mkCell 3 13 7 0 None = Locator.mkCell 3 13 7 0 None.
Proof.
  apply (maidenhead_decoding_is_injective "DN70" "dn70x");
    try reflexivity; try (unfold Maidenhead.in_range; simpl; lia).
  vm_compute. split; reflexivity.
Defined.

(** X18.  The point a six-character Maidenhead locator decodes to lies inside
    the square of its first four characters: less than one degree of
    longitude and half a degree of latitude from the point those four
    decode to. *)
Theorem subsquare_is_inside_its_square (s : string) (c : Locator.Cell) :
  Locator.read s = Some c -> Maidenhead.in_range c ->
  exists la lo la4 lo4,
    PSK.gridToLatLon (Some s) = Some (mkLatLon (JS.Num la) (JS.Num lo))
    /\ PSK.gridToLatLon (Some (substring 0 4 s))
       = Some (mkLatLon (JS.Num la4) (JS.Num lo4))
    /\ (-1 < lo - lo4 < 1)%Q
    /\ (- (1 # 2) < la - la4 < 1 # 2)%Q.
Proof.
  intros Hread Hr.
  destruct (PSK_decodes_numbers s c Hread) as (la & lo & Hp & Hlat & Hlon).
  destruct (PSK_decodes_numbers _ _ (read_square s c Hread))
    as (la4 & lo4 & Hp4 & Hlat4 & Hlon4).
  exists la, lo, la4, lo4. split; [exact Hp |]. split; [exact Hp4 |].
  set (sq := Maidenhead.square_of c) in *.
  pose proof (center_lon_units c) as E1. pose proof (center_lon_units sq) as E2.
  pose proof (center_lat_units c) as E3. pose proof (center_lat_units sq) as E4.
  assert (Hu : (Maidenhead.lon_units sq + -24 < Maidenhead.lon_units c
                < Maidenhead.lon_units sq + 24)%Z
               /\ (Maidenhead.lat_units sq + -24 < Maidenhead.lat_units c
                   < Maidenhead.lat_units sq + 24)%Z).
  { subst sq. clear - Hr. destruct c as [f0 f1 d0 d1 [[a b] |]];
      unfold Maidenhead.in_range, Maidenhead.lon_units, Maidenhead.lat_units,
        Maidenhead.square_of in *;
      cbn [Locator.subsquare Locator.field_lon Locator.field_lat
           Locator.square_lon Locator.square_lat] in *; lia. }
  destruct Hu as [[H1 H2] [H3 H4]].
  apply inject_Z_lt in H1, H2, H3, H4.
  rewrite inject_Z_plus in H1, H2, H3, H4.
  rewrite <- E1, <- E2 in H1, H2. rewrite <- E3, <- E4 in H3, H4.
  change (inject_Z (-24)) with (-24)%Q in H1, H3.
  change (inject_Z 24) with 24%Q in H2, H4.
  rewrite Hlat, Hlon, Hlat4, Hlon4. split; split; Lqa.lra.
Qed.

Lemma subsquare_is_inside_its_square_witness :
  exists la lo la4 lo4,
    PSK.gridToLatLon (Some "DN70ax") = Some (mkLatLon (JS.Num la) (JS.Num lo))
    /\ PSK.gridToLatLon (Some (substring 0 4 "DN70ax"))
       = Some (mkLatLon (JS.Num la4) (JS.Num lo4))
    /\ (-1 < lo - lo4 < 1)%Q
    /\ (- (1 # 2) < la - la4 < 1 # 2)%Q.
Proof.
  apply (subsquare_is_inside_its_square
           "DN70ax" (Locator.mkCell 3 13 7 0 (Some (0, 23))%Z)).
  - reflexivity.
  - unfold Maidenhead.in_range. simpl. lia.
Defined.

Section UncheckedCharacters.
Import JS.

Lemma is_digit_upper (c : ascii) : is_digit (upper_char c) = is_digit c.
Proof. destruct c as [[] [] [] [] [] [] [] []]; reflexivity. Qed.

(** The decoder on a locator of four or more characters, character by
    character: the code of any character is a number, and only a square
    character that is not a digit gives [NaN]. *)
Lemma PSK_decode_shape (c0 c1 c2 c3 : ascii) (rest : string) :
  exists p,
    PSK.gridToLatLon (Some (String c0 (String c1 (String c2 (String c3 rest))))) = Some p
    /\ (lon p = NaN <-> is_digit c2 = false)
    /\ (lat p = NaN <-> is_digit c3 = false).
Proof.
  unfold PSK.gridToLatLon.
  destruct rest as [| c4 [| c5 rest]];
    cbn -[Qplus Qmult Qminus Qdiv inject_Z nat_of_ascii upper_char is_digit Nat.sub];
    unfold charCodeAt, parseInt_at; cbn [String.get];
    rewrite !is_digit_upper;
    eexists; (split; [reflexivity |]);
    destruct (is_digit c2), (is_digit c3); simpl;
    split; split; intros H; first [discriminate H | reflexivity].
Qed.

End UncheckedCharacters.

(** X15.  Of a locator of ASCII characters, four or more of them, only the
    two square characters are checked, and not by refusing the locator:
    the result is never [null]; its longitude is [NaN] exactly when the
    third character is not a digit and its latitude exactly when the
    fourth is not, so whatever stands in the letter places decodes to
    numbers.  (The model says the same of every string; it is stated for
    the strings on which the model's [toUpperCase] is the method.) *)
Theorem only_square_digits_matter (s : string) :
  Maidenhead.ascii_only s = true ->
  4 <= String.length s ->
  exists p c2 c3,
    PSK.gridToLatLon (Some s) = Some p
    /\ String.get 2 s = Some c2 /\ String.get 3 s = Some c3
    /\ (lon p = JS.NaN <-> JS.is_digit c2 = false)
    /\ (lat p = JS.NaN <-> JS.is_digit c3 = false).
Proof.
  intros _ Hlen.
  destruct s as [| c0 [| c1 [| c2 [| c3 rest]]]]; simpl in Hlen; try lia.
  destruct (PSK_decode_shape c0 c1 c2 c3 rest) as (p & Hp & Hlon & Hlat).
  exists p, c2, c3. repeat split; try assumption; try apply Hlon; try apply Hlat.
Qed.

(** [1234] is decoded, to a point that is not on the globe. *)
Lemma only_square_digits_matter_witness :
  exists p c2 c3,
    PSK.gridToLatLon (Some "1234") = Some p
    /\ String.get 2 "1234" = Some c2 /\ String.get 3 "1234" = Some c3
    /\ (lon p = JS.NaN <-> JS.is_digit c2 = false)
    /\ (lat p = JS.NaN <-> JS.is_digit c3 = false).
Proof.
  apply (only_square_digits_matter "1234"); [reflexivity | simpl; lia].
Defined.

(** X14.  A report that brings no coordinates of its own and a locator of
    ASCII characters whose square is not two digits is left out of the
    view: the [NaN] that the locator decodes to is falsy. *)
Theorem report_with_malformed_square_is_dropped
        (grid : PSK.Report -> option string) (now : Z) (r : PSK.Report)
        (s : string) (c2 c3 : ascii) :
  JS.truthy (PSK.r_lat r) = false -> JS.truthy (PSK.r_lon r) = false ->
  grid r = Some s -> Maidenhead.ascii_only s = true -> 4 <= String.length s ->
  String.get 2 s = Some c2 -> String.get 3 s = Some c3 ->
  JS.is_digit c2 = false \/ JS.is_digit c3 = false ->
  PSK.located (PSK.resolve grid now r) = false.
Proof.
  intros Hlat Hlon Hg _ Hlen H2 H3 Hbad.
  destruct s as [| c0 [| c1 [| d2 [| d3 rest]]]]; simpl in Hlen; try lia.
  cbn [String.get Nat.eqb] in H2, H3.
  assert (d2 = c2) by congruence. assert (d3 = c3) by congruence. subst d2 d3.
  destruct (PSK_decode_shape c0 c1 c2 c3 rest) as (p & Hp & Nlon & Nlat).
  rewrite located_resolve, Hlat, Hlon, Hg. simpl orb.
  unfold PSK.grid_lat, PSK.grid_lon. rewrite Hp.
  change (JS.truthy_str (Some (String c0 (String c1 (String c2 (String c3 rest))))))
    with true. cbv iota.
  destruct Hbad as [Hbad | Hbad].
  - apply Nlon in Hbad. rewrite Hbad. apply andb_false_r.
  - apply Nlat in Hbad. rewrite Hbad. reflexivity.
Qed.

Lemma report_with_malformed_square_is_dropped_witness :
  PSK.located
    (PSK.resolve PSK.receiverGrid 0%Z
       (PSK.mkReport JS.VUndefined JS.VUndefined (Some "JO??") None
                     JS.VUndefined JS.VUndefined)) = false.
Proof.
  apply (report_with_malformed_square_is_dropped
           PSK.receiverGrid 0%Z _ "JO??" "?"%char "?"%char);
    try reflexivity.
  left. reflexivity.
Defined.

Section Reprocessing.
Import JS.

Variable grid : PSK.Report -> option string.
Variable now : Z.

(** The grid property read is one that resolving carries over. *)
Hypothesis grid_kept : forall r, grid (PSK.resolve grid now r) = grid r.





End Reprocessing.


(* ================================================================== *)
(** * The retention setting *)
(* ================================================================== *)

(** X6.  For a retention setting that is missing, 0 or positive the retention
    is positive (a setting of 0 gives the 30 minutes of a missing one,
    1 800 000 ms), and a report that comes without a timestamp, stamped
    with the time of the fetch, passes the age test of that fetch. *)
Theorem report_without_timestamp_is_fresh
        (filters : option DXCluster.Filters) (now : Z) (item : DXCluster.Item) :
  (forall f m, filters = Some f -> DXCluster.spotRetentionMinutes f = Some m ->
               (0 <= m)%Z) ->
  JS.truthy_Z (DXCluster.timestamp item) = false ->
  (0 < DXCluster.spotRetentionMs filters)%Z
  /\ DXCluster.fresh now (DXCluster.spotRetentionMs filters)
                     (DXCluster.stamp now item) = true
  /\ ((forall f, filters = Some f ->
                 JS.truthy_Z (DXCluster.spotRetentionMinutes f) = false) ->
      DXCluster.spotRetentionMs filters = 1800000%Z).
Proof.
  intros Hmin Hts.
  assert (Hpos : (0 < DXCluster.spotRetentionMs filters)%Z).
  { unfold DXCluster.spotRetentionMs. destruct filters as [f |]; [| lia].
    destruct (DXCluster.spotRetentionMinutes f) as [m |] eqn:E; simpl; [| lia].
    specialize (Hmin f m eq_refl E).
    destruct (Z.eqb_spec m 0); simpl; lia. }
  split; [exact Hpos |]. split.
  - unfold DXCluster.fresh.
    assert (Hnow : DXCluster.timestamp_or (DXCluster.stamp now item) now = now).
    { unfold DXCluster.timestamp_or at 1. simpl DXCluster.timestamp.
      unfold DXCluster.timestamp_or. rewrite Hts. simpl.
      destruct (Z.eqb now 0); reflexivity. }
    rewrite Hnow. apply Z.ltb_lt. lia.
  - intros Hunset. unfold DXCluster.spotRetentionMs.
    destruct filters as [f |]; [| reflexivity].
    rewrite (Hunset f eq_refl). reflexivity.
Qed.

Lemma report_without_timestamp_is_fresh_witness :
  DXCluster.fresh 1000
    (DXCluster.spotRetentionMs
       (Some (DXCluster.mkFilters None None None None None None None None None
                                  (Some 0%Z))))
    (DXCluster.stamp 1000
       (DXCluster.mkItem (Some "K1ABC") None (Some "14074.0") (Some "W1AW")
                         None None None None None None)) = true.
Proof.
  refine (proj1 (proj2 (report_without_timestamp_is_fresh _ 1000%Z _ _ _))).
  - intros f m Hf Hm. injection Hf as <-. simpl in Hm. injection Hm as <-. lia.
  - reflexivity.
Defined.

(* ================================================================== *)
(** * More on the great-circle path, in exact arithmetic *)
(* ================================================================== *)

Section PathSymmetry.
Import GreatCircle.
Local Open Scope R_scope.

Lemma distance_symmetric (p1 l1 p2 l2 : R) :
  distance Real p2 l2 p1 l1 = distance Real p1 l1 p2 l2.
Proof.
  unfold distance.
  cbn [m_add m_sub m_mul m_div m_sin m_cos m_acos Real].
  f_equal. replace (l1 - l2) with (- (l2 - l1)) by ring.
  rewrite cos_neg. ring.
Qed.

(** The point at step [i] from [b] to [a] is the point at step [n - i]
    from [a] to [b]: the two weights change places. *)
Lemma point_reversed (p1 l1 p2 l2 d : R) (n i : nat) :
  (i <= n)%nat -> (1 <= n)%nat ->
  point Real p2 l2 p1 l1 d n i = point Real p1 l1 p2 l2 d n (n - i).
Proof.
  intros Hi Hn. unfold point.
  cbn [m_add m_sub m_mul m_div m_sin m_cos m_atan2 m_sqrt m_nat m_pi Real].
  assert (HnR : INR n <> 0) by (apply not_0_INR; lia).
  rewrite (minus_INR n i Hi).
  replace (INR 1 - (INR n - INR i) / INR n) with (INR i / INR n)
    by (simpl; field; exact HnR).
  replace ((INR n - INR i) / INR n) with (INR 1 - INR i / INR n)
    by (simpl; field; exact HnR).
  set (A := sin ((INR 1 - INR i / INR n) * d) / sin d).
  set (B := sin (INR i / INR n * d) / sin d).
  replace (B * cos p1 * cos l1 + A * cos p2 * cos l2)
    with (A * cos p2 * cos l2 + B * cos p1 * cos l1) by ring.
  replace (B * cos p1 * sin l1 + A * cos p2 * sin l2)
    with (A * cos p2 * sin l2 + B * cos p1 * sin l1) by ring.
  replace (B * sin p1 + A * sin p2) with (A * sin p2 + B * sin p1) by ring.
  reflexivity.
Qed.

Lemma rev_seq (n : nat) :
  rev (seq 0 (S n)) = List.map (fun i => (n - i)%nat) (seq 0 (S n)).
Proof.
  induction n as [| n IH]; [reflexivity |].
  rewrite seq_S at 1. rewrite rev_app_distr.
  replace (rev [(0 + S n)%nat]) with [S n] by reflexivity.
  rewrite IH.
  replace (seq 0 (S (S n))) with (0%nat :: List.map S (seq 0 (S n)))
    by (rewrite seq_shift; reflexivity).
  rewrite map_cons, map_map. reflexivity.
Qed.

End PathSymmetry.

(** X19.  In exact arithmetic the path from [b] to [a] is the path from [a] to
    [b] read backwards, for endpoints with non-degenerate separation. *)
Theorem reversed_path_is_path_reversed (lat1 lon1 lat2 lon2 : R) (steps : nat) :
  1 <= steps ->
  sin (GreatCircle.separation lat1 lon1 lat2 lon2) <> 0%R ->
  GreatCircle.getGreatCirclePath GreatCircle.Real lat2 lon2 lat1 lon1 steps
  = rev (GreatCircle.getGreatCirclePath GreatCircle.Real lat1 lon1 lat2 lon2 steps).
Proof.
  intros Hsteps _. unfold GreatCircle.getGreatCirclePath.
  rewrite <- map_rev, rev_seq, map_map, distance_symmetric.
  apply map_ext_in. intros i Hi. apply in_seq in Hi.
  apply point_reversed; lia.
Qed.

Lemma reversed_path_is_path_reversed_witness :
  GreatCircle.getGreatCirclePath GreatCircle.Real 0%R 90%R 0%R 0%R 30
  = rev (GreatCircle.getGreatCirclePath GreatCircle.Real 0%R 0%R 0%R 90%R 30).
Proof.
  apply reversed_path_is_path_reversed; [lia |].
  rewrite separation_quarter_turn, sin_PI2. lra.
Defined.

Section PathBounds.
Import GreatCircle.
Local Open Scope R_scope.

(** [atan2] lies in [(-PI, PI]], and in [[-PI/2, PI/2]] for a second
    argument that is not negative. *)
Lemma Ratan2_bounds (y x : R) : - PI < Ratan2 y x <= PI.
Proof.
  pose proof (atan_bound (y / x)) as [Hlo Hhi]. pose proof PI_RGT_0 as Hpi.
  unfold Ratan2.
  destruct (Rlt_dec 0 x) as [Hx | Hx]; [lra |].
  destruct (Rlt_dec x 0) as [Hx' | Hx'].
  - destruct (Rle_dec 0 y) as [Hy | Hy].
    + assert (y / x <= 0).
      { unfold Rdiv. assert (/ x < 0) by (apply Rinv_lt_0_compat; exact Hx'). nra. }
      assert (atan (y / x) <= 0).
      { rewrite <- atan_0. destruct (Req_dec (y / x) 0) as [-> | Hne]; [lra |].
        left. apply atan_increasing. lra. }
      lra.
    + assert (0 < y / x).
      { unfold Rdiv. assert (/ x < 0) by (apply Rinv_lt_0_compat; exact Hx'). nra. }
      assert (0 < atan (y / x)).
      { rewrite <- atan_0. apply atan_increasing. assumption. }
      lra.
  - destruct (Rlt_dec 0 y); [lra |]. destruct (Rlt_dec y 0); lra.
Qed.

Lemma Ratan2_right_half (y x : R) : 0 <= x -> - (PI / 2) <= Ratan2 y x <= PI / 2.
Proof.
  intros Hx. pose proof (atan_bound (y / x)) as [Hlo Hhi]. pose proof PI_RGT_0 as Hpi.
  unfold Ratan2.
  destruct (Rlt_dec 0 x); [lra |].
  destruct (Rlt_dec x 0); [lra |].
  destruct (Rlt_dec 0 y); [lra |]. destruct (Rlt_dec y 0); lra.
Qed.

Lemma toDeg_bounds (r lo hi : R) :
  lo * PI / 180 <= r <= hi * PI / 180 -> lo <= toDeg Real r <= hi.
Proof.
  intros [H1 H2]. unfold toDeg. cbn [m_mul m_div m_nat m_pi Real].
  rewrite INR_180. pose proof PI_RGT_0 as Hpi.
  assert (Hinv : 0 < / PI) by (apply Rinv_0_lt_compat; exact Hpi).
  unfold Rdiv in *. split.
  - replace lo with (lo * PI * / 180 * 180 * / PI) by (field; lra).
    apply Rmult_le_compat_r; [lra | nra].
  - replace hi with (hi * PI * / 180 * 180 * / PI) by (field; lra).
    apply Rmult_le_compat_r; [lra | nra].
Qed.

Lemma toDeg_strict (r lo : R) : lo * PI / 180 < r -> lo < toDeg Real r.
Proof.
  intros H1. unfold toDeg. cbn [m_mul m_div m_nat m_pi Real].
  rewrite INR_180. pose proof PI_RGT_0 as Hpi.
  assert (Hinv : 0 < / PI) by (apply Rinv_0_lt_compat; exact Hpi).
  unfold Rdiv in *.
  replace lo with (lo * PI * / 180 * 180 * / PI) by (field; lra).
  apply Rmult_lt_compat_r; [lra | nra].
Qed.

Lemma point_bounds (p1 l1 p2 l2 d : R) (n i : nat) :
  let p := point Real p1 l1 p2 l2 d n i in
  -90 <= fst p <= 90 /\ -180 < snd p <= 180.
Proof.
  unfold point.
  cbn [m_add m_sub m_mul m_div m_sin m_cos m_atan2 m_sqrt m_nat m_pi Real fst snd].
  pose proof PI_RGT_0 as Hpi.
  split.
  - apply toDeg_bounds.
    match goal with
    | |- _ <= Ratan2 ?y ?x <= _ =>
        pose proof (Ratan2_right_half y x (sqrt_pos _)) as H
    end.
    lra.
  - match goal with
    | |- _ < toDeg Real (Ratan2 ?y ?x) <= _ =>
        pose proof (Ratan2_bounds y x) as H
    end.
    split; [apply toDeg_strict; lra |].
    apply toDeg_bounds with (lo := -180). lra.
Qed.

End PathBounds.

(** X20.  In exact arithmetic every point of a path between endpoints with
    non-degenerate separation is a point of the globe: latitude in
    [[-90, 90]], longitude in [(-180, 180]], wherever the endpoints
    are. *)
Theorem path_points_are_on_the_globe
        (lat1 lon1 lat2 lon2 : R) (numPoints : nat) (p : R * R) :
  sin (GreatCircle.separation lat1 lon1 lat2 lon2) <> 0%R ->
  In p (GreatCircle.getGreatCirclePath GreatCircle.Real lat1 lon1 lat2 lon2 numPoints) ->
  (-90 <= fst p <= 90)%R /\ (-180 < snd p <= 180)%R.
Proof.
  intros _ Hin. unfold GreatCircle.getGreatCirclePath in Hin.
  apply in_map_iff in Hin. destruct Hin as (i & <- & _).
  apply point_bounds.
Qed.

Lemma path_points_are_on_the_globe_witness :
  (-90 <= fst (0%R, 0%R) <= 90)%R /\ (-180 < snd (0%R, 0%R) <= 180)%R.
Proof.
  apply (path_points_are_on_the_globe 0%R 0%R 0%R 90%R 30).
  - rewrite separation_quarter_turn, sin_PI2. lra.
  - apply (nth_error_In _ 0). rewrite path_nth by lia.
    rewrite point_first.
    2:{ change (sin (GreatCircle.separation 0 0 0 90) <> 0)%R.
        rewrite separation_quarter_turn, sin_PI2. lra. }
    rewrite back_from_vector_coordinates by lra. reflexivity.
Defined.

(* ================================================================== *)
(** * The layers of the WSPR plugin *)
(* ================================================================== *)

Section Markers.
Import WSPRLayer.

Lemma has_true_iff (set : list string) (k : string) : has set k = true <-> In k set.
Proof.
  unfold has. rewrite existsb_exists. split.
  - intros (x & Hx & E). apply String.eqb_eq in E. subst x. exact Hx.
  - intros H. exists k. split; [exact H | apply String.eqb_refl].
Qed.

Lemma has_false_iff (set : list string) (k : string) : has set k = false <-> ~ In k set.
Proof.
  rewrite <- has_true_iff. destruct (has set k); split; intros H; congruence.
Qed.

Lemma tx_keys_app (a b : list Layer) : tx_keys (a ++ b) = (tx_keys a ++ tx_keys b)%list.
Proof. unfold tx_keys. apply flat_map_app. Qed.

Lemma rx_keys_app (a b : list Layer) : rx_keys (a ++ b) = (rx_keys a ++ rx_keys b)%list.
Proof. unfold rx_keys. apply flat_map_app. Qed.

Lemma seen_snoc_iff (key : Spot -> string) (seen : list Spot) (spot : Spot)
      (set : list string) (k : string) :
  (In k set <-> exists s, In s seen /\ key s = k) ->
  (In k (key spot :: set) <-> exists s, In s (seen ++ [spot]) /\ key s = k).
Proof.
  intros H. split.
  - intros [<- | Hin].
    + exists spot. split; [apply in_or_app; right; left; reflexivity | reflexivity].
    + apply H in Hin. destruct Hin as (s & Hs & Hk).
      exists s. split; [apply in_or_app; left; exact Hs | exact Hk].
  - intros (s & Hs & Hk). apply in_app_or in Hs. destruct Hs as [Hs | [<- | []]].
    + right. apply H. exists s. split; assumption.
    + left. exact Hk.
Qed.

Lemma seen_snoc_has (key : Spot -> string) (seen : list Spot) (spot : Spot)
      (set : list string) (k : string) :
  In (key spot) set ->
  (In k set <-> exists s, In s seen /\ key s = k) ->
  (In k set <-> exists s, In s (seen ++ [spot]) /\ key s = k).
Proof.
  intros Hhas H. split.
  - intros Hin. apply H in Hin. destruct Hin as (s & Hs & Hk).
    exists s. split; [apply in_or_app; left; exact Hs | exact Hk].
  - intros (s & Hs & Hk). apply in_app_or in Hs. destruct Hs as [Hs | [<- | []]].
    + apply H. exists s. split; assumption.
    + rewrite <- Hk. exact Hhas.
Qed.

(** The fields of [consistent] after a turn, each from its field
    before. *)
Ltac turn_field :=
  cbn [newPaths newMarkers txStations rxStations];
  rewrite ?length_app, ?tx_keys_app, ?rx_keys_app;
  cbn [List.length tx_keys rx_keys flat_map rev app];
  rewrite ?app_nil_r;
  first [ lia
        | assumption
        | congruence
        | (constructor; assumption)
        | (intros k; apply seen_snoc_iff; auto)
        | (intros k; apply seen_snoc_has; auto) ].

Lemma draw_consistent (seen : list Spot) (d : Drawn) (spot : Spot) :
  consistent seen d -> consistent (seen ++ [spot]) (draw d spot).
Proof.
  intros [Hp Hm Htu Hru Htm Hrm Htc Hrc]. unfold draw.
  destruct (has (txStations d) (txKey spot)) eqn:Et;
    cbn [newPaths newMarkers txStations rxStations];
    destruct (has (rxStations d) (rxKey spot)) eqn:Er.
  - apply has_true_iff in Et, Er. constructor; turn_field.
  - apply has_true_iff in Et. apply has_false_iff in Er. constructor; turn_field.
  - apply has_false_iff in Et. apply has_true_iff in Er. constructor; turn_field.
  - apply has_false_iff in Et, Er. constructor; turn_field.
Qed.

Lemma fold_draw_consistent (l seen : list Spot) (d : Drawn) :
  consistent seen d -> consistent (seen ++ l) (fold_left draw l d).
Proof.
  revert seen d. induction l as [| spot l IH]; intros seen d H; simpl.
  - rewrite app_nil_r. exact H.
  - replace (seen ++ spot :: l)%list with ((seen ++ [spot]) ++ l)%list
      by (rewrite <- app_assoc; reflexivity).
    apply IH, draw_consistent, H.
Qed.

Lemma render_consistent (wsprData : list Spot) :
  consistent (firstn 500 wsprData) (render wsprData).
Proof.
  unfold render.
  apply (fold_draw_consistent (firstn 500 wsprData) [] (mkDrawn [] [] [] [])).
  constructor; cbn [newPaths newMarkers txStations rxStations].
  - reflexivity.
  - reflexivity.
  - apply NoDup_nil.
  - apply NoDup_nil.
  - reflexivity.
  - reflexivity.
  - intros k. split; [intros [] | intros (s & [] & _)].
  - intros k. split; [intros [] | intros (s & [] & _)].
Qed.

End Markers.

(** X21.  The WSPR layer draws one path for each of the first 500 spots and
    one marker for each station: a sender (or receiver) key gets exactly
    one marker however many spots name it, every spot drawn has its two
    stations marked, and no marker is for a station that no drawn spot
    names. *)
Theorem wspr_layer_marks_each_station_once (wsprData : list WSPRLayer.Spot) :
  let drawn := WSPRLayer.render wsprData in
  let limited := firstn 500 wsprData in
  List.length (WSPRLayer.newPaths drawn) = Nat.min 500 (List.length wsprData)
  /\ NoDup (WSPRLayer.tx_keys (WSPRLayer.newMarkers drawn))
  /\ NoDup (WSPRLayer.rx_keys (WSPRLayer.newMarkers drawn))
  /\ List.length (WSPRLayer.newMarkers drawn)
     = List.length (WSPRLayer.tx_keys (WSPRLayer.newMarkers drawn))
       + List.length (WSPRLayer.rx_keys (WSPRLayer.newMarkers drawn))
  /\ (forall k, In k (WSPRLayer.tx_keys (WSPRLayer.newMarkers drawn)) <->
                exists s, In s limited /\ WSPRLayer.txKey s = k)
  /\ (forall k, In k (WSPRLayer.rx_keys (WSPRLayer.newMarkers drawn)) <->
                exists s, In s limited /\ WSPRLayer.rxKey s = k)
  /\ List.length (WSPRLayer.newMarkers drawn)
     <= 2 * List.length (WSPRLayer.newPaths drawn).
Proof.
  intros drawn limited.
  destruct (render_consistent wsprData) as [Hp Hm Htu Hru Htm Hrm Htc Hrc].
  fold drawn in Hp, Hm, Htu, Hru, Htm, Hrm, Htc, Hrc. fold limited in Hp, Htc, Hrc.
  assert (Hlim : List.length limited = Nat.min 500 (List.length wsprData))
    by (unfold limited; apply length_firstn).
  assert (Hcount : forall (key : WSPRLayer.Spot -> string) (set : list string),
             NoDup set ->
             (forall k, In k set -> exists s, In s limited /\ key s = k) ->
             List.length set <= List.length limited).
  { intros key set Hn Hall.
    rewrite <- (length_map key limited). apply NoDup_incl_length; [exact Hn |].
    intros k Hk. destruct (Hall k Hk) as (s & Hs & <-). apply in_map, Hs. }
  assert (Htx_le : List.length (WSPRLayer.txStations drawn) <= List.length limited)
    by (apply (Hcount WSPRLayer.txKey); [exact Htu | intros k Hk; apply Htc, Hk]).
  assert (Hrx_le : List.length (WSPRLayer.rxStations drawn) <= List.length limited)
    by (apply (Hcount WSPRLayer.rxKey); [exact Hru | intros k Hk; apply Hrc, Hk]).
  rewrite Htm, Hrm, !length_rev.
  split; [lia |].
  split; [apply NoDup_rev, Htu |].
  split; [apply NoDup_rev, Hru |].
  split; [exact Hm |].
  split; [intros k; rewrite <- in_rev; apply Htc |].
  split; [intros k; rewrite <- in_rev; apply Hrc |].
  lia.
Qed.

(* ================================================================== *)
(** * Colour and weight together; where held items come from *)
(* ================================================================== *)

Section ColourAndWeight.
Import WSPRLayer.

Ltac decide_bands :=
  repeat match goal with
         | |- context [JS.ltb ?a ?b] => destruct (JS.ltb a b)
         end.

Lemma colour_fixes_weight (a b : option Q) :
  WSPR.getSNRColor a = WSPR.getSNRColor b ->
  WSPR.getLineWeight a = WSPR.getLineWeight b.
Proof.
  destruct a as [a |], b as [b |]; unfold WSPR.getSNRColor, WSPR.getLineWeight;
    decide_bands; intros H; first [reflexivity | discriminate H].
Qed.

Lemma draw_paths (d : Drawn) (x : Spot) :
  newPaths (draw d x)
  = (newPaths d
     ++ [Path x (WSPR.getSNRColor (snr x)) (WSPR.getLineWeight (snr x))])%list.
Proof.
  unfold draw.
  destruct (has (txStations d) (txKey x)); cbn [newPaths rxStations];
    destruct (has (rxStations d) (rxKey x)); reflexivity.
Qed.

Lemma fold_draw_paths (l : list Spot) (d : Drawn) :
  newPaths (fold_left draw l d)
  = (newPaths d
     ++ List.map (fun x => Path x (WSPR.getSNRColor (snr x))
                                 (WSPR.getLineWeight (snr x))) l)%list.
Proof.
  revert d. induction l as [| x l IH]; intros d; simpl.
  - rewrite app_nil_r. reflexivity.
  - rewrite IH, draw_paths, <- app_assoc. reflexivity.
Qed.

End ColourAndWeight.

(** X22.  The paths of the WSPR layer are those of the first 500 spots, in
    their order, each coloured and weighted by its own SNR; and two paths
    of the same colour have the same weight, because the two classifiers
    cut the SNR at the same places. *)
Theorem wspr_paths_colour_and_weight (wsprData : list WSPRLayer.Spot) :
  WSPRLayer.newPaths (WSPRLayer.render wsprData)
  = List.map (fun x => WSPRLayer.Path x (WSPR.getSNRColor (WSPRLayer.snr x))
                                      (WSPR.getLineWeight (WSPRLayer.snr x)))
             (firstn 500 wsprData)
  /\ forall s t c c' w w',
      In (WSPRLayer.Path s c w) (WSPRLayer.newPaths (WSPRLayer.render wsprData)) ->
      In (WSPRLayer.Path t c' w') (WSPRLayer.newPaths (WSPRLayer.render wsprData)) ->
      c = c' -> w = w'.
Proof.
  assert (E : WSPRLayer.newPaths (WSPRLayer.render wsprData)
              = List.map (fun x => WSPRLayer.Path x (WSPR.getSNRColor (WSPRLayer.snr x))
                                                  (WSPR.getLineWeight (WSPRLayer.snr x)))
                         (firstn 500 wsprData)).
  { unfold WSPRLayer.render. rewrite fold_draw_paths. reflexivity. }
  split; [exact E |].
  intros s t c c' w w' Hs Ht Hc. rewrite E in Hs, Ht.
  apply in_map_iff in Hs. destruct Hs as (x & Hx & _).
  apply in_map_iff in Ht. destruct Ht as (y & Hy & _).
  injection Hx as _ <- <-. injection Hy as _ <- <-.
  apply colour_fixes_weight, Hc.
Qed.

Section Provenance.
Import DXCluster.

Local Abbreviation entry := (fun item : Item => (key item, item)).

Lemma merged_values_origin (now : Z) (newData prev : list Item) (x : Item) :
  In x (map_values (merge_batch now (map_of (List.map entry prev)) newData)) ->
  In x prev \/ exists item, In item newData /\ x = stamp now item.
Proof.
  pose (P := fun v : Item =>
               In v prev \/ exists item, In item newData /\ v = stamp now item).
  assert (H : Forall P (map_values
                          (merge_batch now (map_of (List.map entry prev)) newData))).
  { apply merge_batch_values.
    - apply map_of_values. apply Forall_forall. intros v Hv. left. exact Hv.
    - apply Forall_forall. intros item Hitem. right.
      exists item. split; [exact Hitem | reflexivity]. }
  rewrite Forall_forall in H. apply H.
Qed.

End Provenance.

(** X5.  The items held after a fetch are items that were held before or
    items of the batch stamped with the time of the fetch, and nothing
    else; and an item whose key is in the batch is one of the batch, not
    the one held before. *)
Theorem held_items_come_from_state_or_batch
        (now retention : Z) (newData prev : list DXCluster.Item) (x : DXCluster.Item) :
  In x (DXCluster.ingest now retention newData prev) ->
  (In x prev \/ exists item, In item newData /\ x = DXCluster.stamp now item)
  /\ ((exists item, In item newData /\ DXCluster.key item = DXCluster.key x) ->
      exists item, In item newData /\ x = DXCluster.stamp now item).
Proof.
  intros Hx. apply ingest_subset in Hx. unfold DXCluster.validItems in Hx.
  apply filter_In in Hx. destruct Hx as [Hx _].
  split; [apply merged_values_origin, Hx |].
  intros (item & Hitem & Hkey).
  destruct (merged_shape now newData prev) as [Hn Hk].
  pose proof (map_get_entry _ _ _ Hn (keyed_value_entry _ _ Hk Hx)) as Hget.
  destruct (merge_batch_sets now newData
              (DXCluster.map_of (List.map (fun i => (DXCluster.key i, i)) prev))
              item Hitem) as (item' & Hin' & _ & Hget').
  rewrite Hkey, Hget in Hget'. injection Hget' as ->.
  exists item'. split; [exact Hin' | reflexivity].
Qed.

(** The spot held since time 1000 is reported again at time 2000: what
    is held then is the new report. *)
Lemma held_items_come_from_state_or_batch_witness :
  let stored := DXCluster.mkItem (Some "K1ABC") None (Some "14074.0") (Some "W1AW")
                                 (Some 1000%Z) (Some "CQ") None None None None in
  let incoming := DXCluster.mkItem (Some "K1ABC") None (Some "14074.0") (Some "W1AW")
                                   None (Some "FT8") None None None None in
  In (DXCluster.stamp 2000 incoming) [stored]
  \/ exists item, In item [incoming]
                  /\ DXCluster.stamp 2000 incoming = DXCluster.stamp 2000 item.
Proof.
  intros stored incoming.
  refine (proj1 (held_items_come_from_state_or_batch
                   2000%Z 1800000%Z [incoming] [stored] _ _)).
  vm_compute. left. reflexivity.
Defined.

(* ================================================================== *)
(** * The path follows the great circle in equal steps *)
(* ================================================================== *)

Section EqualSteps.
Import GreatCircle.
Local Open Scope R_scope.

(** [Math.atan2] gives the polar angle of a point of the plane. *)
Lemma Ratan2_polar_angle (y x : R) :
  R_sqrt.sqrt (x * x + y * y) * cos (Ratan2 y x) = x
  /\ R_sqrt.sqrt (x * x + y * y) * sin (Ratan2 y x) = y.
Proof.
  assert (Hscale : forall u, 0 < 1 + u²) by (intros u; unfold Rsqr; nra).
  assert (Hroot : forall u, 0 < R_sqrt.sqrt (1 + u²))
    by (intros u; apply sqrt_lt_R0, Hscale).
  assert (Hpos : 0 < x -> R_sqrt.sqrt (x * x + y * y)
                          = x * R_sqrt.sqrt (1 + (y / x)²)).
  { intros Hx. apply sqrt_lem_1.
    - nra.
    - pose proof (Hroot (y / x)). nra.
    - replace (x * R_sqrt.sqrt (1 + (y / x)²) * (x * R_sqrt.sqrt (1 + (y / x)²)))
        with (x * x * (R_sqrt.sqrt (1 + (y / x)²) * R_sqrt.sqrt (1 + (y / x)²)))
        by ring.
      rewrite sqrt_sqrt by (apply Rlt_le, Hscale).
      unfold Rsqr. field. lra. }
  assert (Hneg : x < 0 -> R_sqrt.sqrt (x * x + y * y)
                          = - x * R_sqrt.sqrt (1 + (y / x)²)).
  { intros Hx. apply sqrt_lem_1.
    - nra.
    - pose proof (Hroot (y / x)). nra.
    - replace (- x * R_sqrt.sqrt (1 + (y / x)²) * (- x * R_sqrt.sqrt (1 + (y / x)²)))
        with (x * x * (R_sqrt.sqrt (1 + (y / x)²) * R_sqrt.sqrt (1 + (y / x)²)))
        by ring.
      rewrite sqrt_sqrt by (apply Rlt_le, Hscale).
      unfold Rsqr. field. lra. }
  destruct (Rtotal_order 0 x) as [Hx | [Hx | Hx]].
  - rewrite (Ratan2_right y x Hx), (Hpos Hx), cos_atan, sin_atan.
    pose proof (Hroot (y / x)).
    split; field; lra.
  - subst x. destruct (Rtotal_order 0 y) as [Hy | [Hy | Hy]].
    + rewrite (Ratan2_up y Hy), cos_PI2, sin_PI2.
      replace (0 * 0 + y * y) with (y * y) by ring.
      rewrite sqrt_square by lra. split; ring.
    + subst y. replace (0 * 0 + 0 * 0) with 0 by ring.
      rewrite sqrt_0. split; ring.
    + rewrite (Ratan2_down y Hy), cos_neg, sin_neg, cos_PI2, sin_PI2.
      replace (0 * 0 + y * y) with (- y * - y) by ring.
      rewrite sqrt_square by lra. split; ring.
  - pose proof (Hroot (y / x)).
    destruct (Rle_or_lt 0 y) as [Hy | Hy].
    + rewrite (Ratan2_upper_left y x Hx Hy), (Hneg Hx).
      rewrite neg_cos, neg_sin, cos_atan, sin_atan.
      split; field; lra.
    + rewrite (Ratan2_lower_left y x Hx Hy), (Hneg Hx).
      replace (atan (y / x) - PI) with (- (PI - atan (y / x))) by ring.
      rewrite cos_neg, sin_neg, Rtrigo_facts.cos_pi_minus, Rtrigo_facts.sin_pi_minus.
      rewrite cos_atan, sin_atan.
      split; field; lra.
Qed.

(** The latitude and the longitude the loop body takes of a vector of
    length 1 name that vector. *)
Lemma vector_of_angles (x y z : R) :
  x * x + y * y + z * z = 1 ->
  Sphere.vector (Ratan2 z (R_sqrt.sqrt (x * x + y * y))) (Ratan2 y x) = (x, y, z).
Proof.
  intros Hunit. unfold Sphere.vector.
  set (r := R_sqrt.sqrt (x * x + y * y)).
  assert (Hr : r * r = x * x + y * y) by (apply sqrt_sqrt; nra).
  destruct (Ratan2_polar_angle y x) as [Hcos Hsin]. fold r in Hcos, Hsin.
  destruct (Ratan2_polar_angle z r) as [Hc Hs].
  replace (r * r + z * z) with 1 in Hc, Hs by lra.
  rewrite sqrt_1, Rmult_1_l in Hc, Hs.
  rewrite Hc, Hs, Hcos, Hsin. reflexivity.
Qed.

Lemma unit_vector_toDeg (phi lam : R) :
  unit_vector (toDeg Real phi, toDeg Real lam) = Sphere.vector phi lam.
Proof.
  unfold unit_vector, Sphere.vector. cbn [fst snd].
  rewrite !toRad_toDeg. reflexivity.
Qed.

Lemma vector_is_unit (phi lam : R) :
  Sphere.dot (Sphere.vector phi lam) (Sphere.vector phi lam) = 1.
Proof.
  unfold Sphere.dot, Sphere.vector.
  pose proof (sin2_cos2 phi) as Hp. pose proof (sin2_cos2 lam) as Hl.
  unfold Rsqr in Hp, Hl. nra.
Qed.

(** The argument of [Math.acos] in lines 326-329 is the scalar product
    of the two vectors, and lies in the domain of [acos]. *)
Lemma distance_dot (p1 l1 p2 l2 : R) :
  distance Real p1 l1 p2 l2
  = acos (Sphere.dot (Sphere.vector p1 l1) (Sphere.vector p2 l2)).
Proof.
  unfold distance, Sphere.dot, Sphere.vector.
  cbn [m_add m_sub m_mul m_div m_sin m_cos m_acos Real].
  f_equal. rewrite cos_minus. ring.
Qed.

Lemma dot_bounds (p1 l1 p2 l2 : R) :
  -1 <= Sphere.dot (Sphere.vector p1 l1) (Sphere.vector p2 l2) <= 1.
Proof.
  unfold Sphere.dot, Sphere.vector.
  replace (cos p1 * cos l1 * (cos p2 * cos l2) + cos p1 * sin l1 * (cos p2 * sin l2)
           + sin p1 * sin p2)
    with (sin p1 * sin p2 + cos p1 * cos p2 * cos (l2 - l1))
    by (rewrite cos_minus; ring).
  pose proof (COS_bound (l2 - l1)) as [Hlo Hhi].
  pose proof (sin2_cos2 p1) as H1. pose proof (sin2_cos2 p2) as H2.
  unfold Rsqr in H1, H2.
  set (t := cos (l2 - l1)) in *.
  set (s1 := sin p1) in *. set (c1 := cos p1) in *.
  set (s2 := sin p2) in *. set (c2 := cos p2) in *.
  assert (Ha : s1 * s2 + c1 * c2 <= 1)
    by (pose proof (Rle_0_sqr (s1 - s2)); pose proof (Rle_0_sqr (c1 - c2));
        unfold Rsqr in *; lra).
  assert (Hb : s1 * s2 - c1 * c2 <= 1)
    by (pose proof (Rle_0_sqr (s1 - s2)); pose proof (Rle_0_sqr (c1 + c2));
        unfold Rsqr in *; lra).
  assert (Hc : -1 <= s1 * s2 + c1 * c2)
    by (pose proof (Rle_0_sqr (s1 + s2)); pose proof (Rle_0_sqr (c1 + c2));
        unfold Rsqr in *; lra).
  assert (Hd : -1 <= s1 * s2 - c1 * c2)
    by (pose proof (Rle_0_sqr (s1 + s2)); pose proof (Rle_0_sqr (c1 - c2));
        unfold Rsqr in *; lra).
  destruct (Rle_or_lt 0 (c1 * c2)) as [Hs | Hs]; split; nra.
Qed.

Lemma cos_distance (p1 l1 p2 l2 : R) :
  cos (distance Real p1 l1 p2 l2)
  = Sphere.dot (Sphere.vector p1 l1) (Sphere.vector p2 l2).
Proof. rewrite distance_dot. apply cos_acos, dot_bounds. Qed.

(** Scalar products of weighted sums of two vectors of length 1 whose
    scalar product is [cos d]. *)
Lemma weighted_dot (f g d : R) (u v : R * R * R) :
  sin d <> 0 ->
  Sphere.dot u u = 1 -> Sphere.dot v v = 1 -> Sphere.dot u v = cos d ->
  Sphere.dot (Sphere.weighted f d u v) (Sphere.weighted g d u v)
  = cos ((g - f) * d).
Proof.
  intros Hd Hu Hv Huv.
  destruct u as [[ux uy] uz], v as [[vx vy] vz].
  unfold Sphere.dot, Sphere.weighted in *.
  set (A := sin ((1 - f) * d) / sin d).
  set (B := sin (f * d) / sin d).
  set (A' := sin ((1 - g) * d) / sin d).
  set (B' := sin (g * d) / sin d).
  replace ((A * ux + B * vx) * (A' * ux + B' * vx)
           + (A * uy + B * vy) * (A' * uy + B' * vy)
           + (A * uz + B * vz) * (A' * uz + B' * vz))
    with (A * A' * (ux * ux + uy * uy + uz * uz)
          + B * B' * (vx * vx + vy * vy + vz * vz)
          + (A * B' + A' * B) * (ux * vx + uy * vy + uz * vz)) by ring.
  rewrite Hu, Hv, Huv. unfold A, B, A', B'.
  replace ((1 - f) * d) with (d - f * d) by ring.
  replace ((1 - g) * d) with (d - g * d) by ring.
  replace ((g - f) * d) with (g * d - f * d) by ring.
  rewrite !sin_minus, cos_minus.
  pose proof (sin2_cos2 d) as Hsc. unfold Rsqr in Hsc.
  set (sd := sin d) in *. set (cd := cos d) in *.
  set (sf := sin (f * d)). set (cf := cos (f * d)).
  set (sg := sin (g * d)). set (cg := cos (g * d)).
  apply Rmult_eq_reg_l with (r := sd * sd); [| nra].
  replace (sd * sd *
           ((sd * cf - cd * sf) / sd * ((sd * cg - cd * sg) / sd) * 1
            + sf / sd * (sg / sd) * 1
            + ((sd * cf - cd * sf) / sd * (sg / sd)
               + (sd * cg - cd * sg) / sd * (sf / sd)) * cd))
    with ((sd * cf - cd * sf) * (sd * cg - cd * sg) + sf * sg
          + ((sd * cf - cd * sf) * sg + (sd * cg - cd * sg) * sf) * cd)
    by (field; exact Hd).
  replace ((sd * cf - cd * sf) * (sd * cg - cd * sg) + sf * sg
           + ((sd * cf - cd * sf) * sg + (sd * cg - cd * sg) * sf) * cd)
    with (sd * sd * (cf * cg) + sf * sg * (1 - cd * cd)) by ring.
  replace (1 - cd * cd) with (sd * sd) by lra.
  ring.
Qed.

Lemma weighted_start (d : R) (u v : R * R * R) :
  sin d <> 0 -> Sphere.weighted 0 d u v = u.
Proof.
  intros Hd. destruct u as [[ux uy] uz], v as [[vx vy] vz].
  unfold Sphere.weighted.
  replace ((1 - 0) * d) with d by ring.
  replace (0 * d) with 0 by ring. rewrite sin_0.
  apply f_equal2; [apply f_equal2 |]; field; exact Hd.
Qed.

Lemma weighted_end (d : R) (u v : R * R * R) :
  sin d <> 0 -> Sphere.weighted 1 d u v = v.
Proof.
  intros Hd. destruct u as [[ux uy] uz], v as [[vx vy] vz].
  unfold Sphere.weighted.
  replace ((1 - 1) * d) with 0 by ring.
  replace (1 * d) with d by ring. rewrite sin_0.
  apply f_equal2; [apply f_equal2 |]; field; exact Hd.
Qed.

(** The pair the loop body returns names the weighted sum of the two
    endpoint vectors. *)
Lemma point_vector (p1 l1 p2 l2 : R) (n i : nat) :
  let d := distance Real p1 l1 p2 l2 in
  sin d <> 0 ->
  unit_vector (point Real p1 l1 p2 l2 d n i)
  = Sphere.weighted (INR i / INR n) d (Sphere.vector p1 l1) (Sphere.vector p2 l2).
Proof.
  intros d Hd.
  pose proof (weighted_dot (INR i / INR n) (INR i / INR n) d
                (Sphere.vector p1 l1) (Sphere.vector p2 l2) Hd
                (vector_is_unit p1 l1) (vector_is_unit p2 l2)
                (eq_sym (cos_distance p1 l1 p2 l2))) as Hunit.
  replace ((INR i / INR n - INR i / INR n) * d) with 0 in Hunit by ring.
  rewrite cos_0 in Hunit.
  unfold point.
  cbn [m_add m_sub m_mul m_div m_sin m_cos m_atan2 m_sqrt m_nat m_pi Real].
  change (INR 1) with 1.
  rewrite unit_vector_toDeg.
  rewrite vector_of_angles.
  - unfold Sphere.weighted, Sphere.vector.
    apply f_equal2; [apply f_equal2 |]; ring.
  - unfold Sphere.weighted, Sphere.vector, Sphere.dot in Hunit.
    etransitivity; [| exact Hunit]. ring.
Qed.

Lemma separation_dot (a b c d : R) :
  separation a b c d = acos (Sphere.dot (unit_vector (a, b)) (unit_vector (c, d))).
Proof. unfold separation. apply distance_dot. Qed.

Lemma separation_range (a b c d : R) : 0 <= separation a b c d <= PI.
Proof. rewrite separation_dot. apply acos_bound. Qed.

End EqualSteps.

(** X23.  In exact real arithmetic, for endpoints whose separation [d]
    has a non-zero sine and at least one step, the points of the path
    follow the great circle from the first endpoint to the second in
    equal steps: two points of the path at the indices [i <= j] are
    separated by the angle [(j - i) / numPoints * d], the point at [i] is
    at [i / numPoints * d] from the first endpoint and at
    [(numPoints - i) / numPoints * d] from the second. *)
Theorem path_points_are_equally_spaced
        (lat1 lon1 lat2 lon2 : R) (numPoints i j : nat) (p q : R * R) :
  1 <= numPoints -> i <= j -> j <= numPoints ->
  sin (GreatCircle.separation lat1 lon1 lat2 lon2) <> 0%R ->
  nth_error (GreatCircle.getGreatCirclePath GreatCircle.Real lat1 lon1 lat2 lon2
                                            numPoints) i = Some p ->
  nth_error (GreatCircle.getGreatCirclePath GreatCircle.Real lat1 lon1 lat2 lon2
                                            numPoints) j = Some q ->
  let d := GreatCircle.separation lat1 lon1 lat2 lon2 in
  (GreatCircle.separation (fst p) (snd p) (fst q) (snd q)
   = INR (j - i) / INR numPoints * d
   /\ GreatCircle.separation lat1 lon1 (fst p) (snd p) = INR i / INR numPoints * d
   /\ GreatCircle.separation (fst p) (snd p) lat2 lon2
      = INR (numPoints - i) / INR numPoints * d)%R.
Proof.
  intros Hn Hij Hj Hd Hp Hq d.
  rewrite path_nth in Hp by lia.
  rewrite path_nth in Hq by lia.
  injection Hp as <-. injection Hq as <-.
  pose proof (separation_range lat1 lon1 lat2 lon2) as Hrange.
  fold d in Hrange.
  assert (HnR : (0 < INR numPoints)%R) by (apply lt_0_INR; lia).
  assert (Hi0 : (0 <= INR i)%R) by apply pos_INR.
  assert (HiR : (INR i <= INR j)%R) by (apply le_INR; exact Hij).
  assert (HjR : (INR j <= INR numPoints)%R) by (apply le_INR; exact Hj).
  set (u := Sphere.vector (GreatCircle.toRad GreatCircle.Real lat1)
                          (GreatCircle.toRad GreatCircle.Real lon1)).
  set (v := Sphere.vector (GreatCircle.toRad GreatCircle.Real lat2)
                          (GreatCircle.toRad GreatCircle.Real lon2)).
  assert (Hu : Sphere.dot u u = 1%R) by apply vector_is_unit.
  assert (Hv : Sphere.dot v v = 1%R) by apply vector_is_unit.
  assert (Huv : Sphere.dot u v = cos d) by (symmetry; apply cos_distance).
  assert (Hfrac : forall a : R, (0 <= a <= INR numPoints)%R ->
                                (0 <= a / INR numPoints * d <= PI)%R).
  { intros a [Ha0 Ha1].
    assert (0 <= a / INR numPoints <= 1)%R as [Hf0 Hf1].
    { split.
      - apply Rmult_le_pos; [exact Ha0 | apply Rlt_le, Rinv_0_lt_compat, HnR].
      - apply (Rmult_le_reg_r (INR numPoints)); [exact HnR |].
        unfold Rdiv. rewrite Rmult_assoc, Rinv_l by lra. lra. }
    split; [nra | nra]. }
  assert (Hpoint : forall k,
            GreatCircle.unit_vector
              (GreatCircle.point GreatCircle.Real
                 (GreatCircle.toRad GreatCircle.Real lat1)
                 (GreatCircle.toRad GreatCircle.Real lon1)
                 (GreatCircle.toRad GreatCircle.Real lat2)
                 (GreatCircle.toRad GreatCircle.Real lon2) d numPoints k)
            = Sphere.weighted (INR k / INR numPoints) d u v).
  { intros k. apply point_vector. exact Hd. }
  assert (Hstart : GreatCircle.unit_vector (lat1, lon1) = Sphere.weighted 0 d u v)
    by (rewrite weighted_start by exact Hd; reflexivity).
  assert (Hend : GreatCircle.unit_vector (lat2, lon2) = Sphere.weighted 1 d u v)
    by (rewrite weighted_end by exact Hd; reflexivity).
  rewrite !separation_dot, <- !surjective_pairing, !Hpoint, Hstart, Hend.
  rewrite !(weighted_dot _ _ d u v Hd Hu Hv Huv).
  rewrite !minus_INR by lia.
  split; [| split].
  - replace ((INR j / INR numPoints - INR i / INR numPoints) * d)%R
      with ((INR j - INR i) / INR numPoints * d)%R by (field; lra).
    apply acos_cos, Hfrac. lra.
  - replace ((INR i / INR numPoints - 0) * d)%R
      with (INR i / INR numPoints * d)%R by (field; lra).
    apply acos_cos, Hfrac. lra.
  - replace ((1 - INR i / INR numPoints) * d)%R
      with ((INR numPoints - INR i) / INR numPoints * d)%R by (field; lra).
    apply acos_cos, Hfrac. lra.
Qed.

Lemma path_points_are_equally_spaced_witness :
  let p := GreatCircle.point GreatCircle.Real
             (GreatCircle.toRad GreatCircle.Real 0%R) (GreatCircle.toRad GreatCircle.Real 0%R)
             (GreatCircle.toRad GreatCircle.Real 0%R) (GreatCircle.toRad GreatCircle.Real 90%R)
             (GreatCircle.separation 0%R 0%R 0%R 90%R) 2 1 in
  let q := GreatCircle.point GreatCircle.Real
             (GreatCircle.toRad GreatCircle.Real 0%R) (GreatCircle.toRad GreatCircle.Real 0%R)
             (GreatCircle.toRad GreatCircle.Real 0%R) (GreatCircle.toRad GreatCircle.Real 90%R)
             (GreatCircle.separation 0%R 0%R 0%R 90%R) 2 2 in
  (GreatCircle.separation (fst p) (snd p) (fst q) (snd q)
   = INR (2 - 1) / INR 2 * GreatCircle.separation 0 0 0 90
   /\ GreatCircle.separation 0 0 (fst p) (snd p)
      = INR 1 / INR 2 * GreatCircle.separation 0 0 0 90
   /\ GreatCircle.separation (fst p) (snd p) 0 90
      = INR (2 - 1) / INR 2 * GreatCircle.separation 0 0 0 90)%R.
Proof.
  intros p q.
  apply (path_points_are_equally_spaced 0%R 0%R 0%R 90%R 2 1 2 p q).
  - lia.
  - lia.
  - lia.
  - change (sin (GreatCircle.separation 0 0 0 90) <> 0)%R.
    rewrite separation_quarter_turn, sin_PI2. lra.
  - apply path_nth. lia.
  - apply path_nth. lia.
Defined.

(* ================================================================== *)
(** * What a fetch leaves, exactly *)
(* ================================================================== *)

Section FetchExact.
Import DXCluster DXWindow.

Local Abbreviation entry := (fun item : Item => (key item, item)).

(** A key that the batch does not bring keeps its entry. *)
Lemma merge_batch_untouched (now : Z) (l : list Item) (m : JMap) (k : string) :
  (forall y, In y l -> key y <> k) ->
  map_get (merge_batch now m l) k = map_get m k.
Proof.
  revert m. induction l as [| a l IH]; intros m Hl; [reflexivity |].
  change (merge_batch now m (a :: l)) with (merge_batch now (merge_item now m a) l).
  rewrite IH by (intros y Hy; apply Hl; right; exact Hy).
  unfold merge_item. apply map_get_set_other.
  intros E. apply (Hl a); [left; reflexivity | symmetry; exact E].
Qed.

(** The last report of the batch under a key is the entry of that key. *)
Lemma merge_batch_last (now : Z) (l : list Item) (m : JMap) (item : Item) :
  last_of_batch l item ->
  map_get (merge_batch now m l) (key item) = Some (stamp now item).
Proof.
  intros (before & after & -> & Hafter).
  rewrite merge_batch_app.
  change (merge_batch now (merge_batch now m before) (item :: after))
    with (merge_batch now (merge_item now (merge_batch now m before) item) after).
  rewrite merge_batch_untouched by exact Hafter.
  unfold merge_item. apply map_get_set_same.
Qed.

(** An entry of the batch's own map is the last report under its key. *)
Lemma merge_batch_found (now : Z) (l : list Item) (k : string) (v : Item) :
  map_get (merge_batch now [] l) k = Some v ->
  exists item, last_of_batch l item /\ key item = k /\ v = stamp now item.
Proof.
  revert v. induction l as [| y l IH] using rev_ind; intros v H; [discriminate H |].
  rewrite merge_batch_app in H.
  change (merge_batch now (merge_batch now [] l) [y])
    with (map_set (merge_batch now [] l) (key y) (stamp now y)) in H.
  destruct (string_dec (key y) k) as [E | Hne].
  - subst k. rewrite map_get_set_same in H.
    assert (v = stamp now y) by congruence. subst v.
    exists y. split; [| split; reflexivity].
    exists l, []. split; [reflexivity | intros other []].
  - rewrite map_get_set_other in H by (intros E; apply Hne; symmetry; exact E).
    destruct (IH v H) as (item & (before & after & -> & Hafter) & Hk & Hv).
    exists item. split; [| split; assumption].
    exists before, (after ++ [y])%list. split.
    + rewrite <- app_assoc. reflexivity.
    + intros other Hin. apply in_app_or in Hin.
      destruct Hin as [Hin | [<- | []]]; [apply Hafter, Hin |].
      rewrite Hk. exact Hne.
Qed.

(** The values of the merged map are the merged set. *)
Lemma merged_values (now : Z) (newData prev : list Item) (x : Item) :
  NoDup (List.map key prev) ->
  In x (map_values (merge_batch now (map_of (List.map entry prev)) newData))
  <-> merged now newData prev x.
Proof.
  intros Hprev.
  assert (Hkeys : List.map fst (List.map entry prev) = List.map key prev)
    by (rewrite map_map; reflexivity).
  split.
  - intros Hin.
    destruct (merged_shape now newData prev) as [Hnodup Hkeyed].
    pose proof (map_get_entry _ _ _ Hnodup (keyed_value_entry _ _ Hkeyed Hin)) as Hget.
    rewrite merge_batch_get in Hget.
    destruct (map_get (merge_batch now [] newData) (key x)) as [v |] eqn:E.
    + assert (v = x) by congruence. subst v.
      destruct (merge_batch_found now newData (key x) x E) as (item & Hlast & _ & Hx).
      left. exists item. split; assumption.
    + right. rewrite (map_of_distinct prev Hprev) in Hget.
      split.
      * apply map_get_in_values in Hget. unfold map_values in Hget.
        rewrite map_map, map_id in Hget. exact Hget.
      * intros item Hitem Hk.
        destruct (merge_batch_sets now newData [] item Hitem) as (item' & _ & _ & Hset).
        rewrite Hk, E in Hset. discriminate Hset.
  - intros [(item & Hlast & ->) | [Hin Hnew]].
    + apply (map_get_in_values _ (key item)). apply merge_batch_last, Hlast.
    + apply (map_get_in_values _ (key x)).
      rewrite merge_batch_untouched by exact Hnew.
      rewrite (map_of_distinct prev Hprev).
      apply map_get_entry.
      * rewrite Hkeys. exact Hprev.
      * apply (in_map entry) in Hin. exact Hin.
Qed.

Lemma fresh_iff_age (now retention : Z) (x : Item) :
  fresh now retention x = true <-> (age now x < retention)%Z.
Proof. unfold fresh, age. apply Z.ltb_lt. Qed.

Lemma validItems_survive (now retention : Z) (newData prev : list Item) (x : Item) :
  NoDup (List.map key prev) ->
  In x (validItems now retention newData prev) <-> survives now retention newData prev x.
Proof.
  intros Hprev. unfold validItems, survives.
  rewrite filter_In, (merged_values now newData prev x Hprev), fresh_iff_age.
  reflexivity.
Qed.

(** What the sort and the slice leave out is not newer than anything
    they keep, and they leave something out only at the limit. *)
Lemma slice_complete (l : list Item) (x : Item) :
  In x l ->
  let kept := firstn maxCapacity (sort_newest l) in
  In x kept
  \/ (List.length kept = maxCapacity /\ forall k, In k kept -> newest_first k x).
Proof.
  intros Hin kept.
  assert (Hs : In x (sort_newest l))
    by (apply (Permutation_in _ (sort_newest_perm l)), Hin).
  rewrite <- (firstn_skipn maxCapacity (sort_newest l)) in Hs.
  apply in_app_or in Hs. destruct Hs as [Hk | Hd]; [left; exact Hk | right].
  split.
  - unfold kept. rewrite length_firstn.
    destruct (Nat.le_gt_cases (List.length (sort_newest l)) maxCapacity) as [Hle | Hgt];
      [| lia].
    rewrite (skipn_all2 _ Hle) in Hd. destruct Hd.
  - intros k Hk. apply (sorted_slice maxCapacity (sort_newest l));
      [apply sort_newest_sorted | exact Hk | exact Hd].
Qed.

End FetchExact.

(** X24.  What a fetch leaves, for any state that holds no key twice (as
    every state of the hook does) and any batch, under the window
    [retention] that the fetch reads.  The merged set is the last report
    of the batch under each key, stamped, and the items held before whose
    key the batch does not bring; its entries with an age below the
    window survive.  Every item held after the fetch is a survivor; a
    survivor is held unless 200 items are held, none of them older than
    it; no item is held twice and at most 200 are held; when more than
    200 survive, exactly 200 are held; and when at most 200 survive, the
    state is the survivors.  The age of an item that carries a timestamp
    is the time since then. *)
Theorem fetch_holds_the_newest_fresh_items
        (now retention : Z) (newData prev : list DXCluster.Item) :
  NoDup (List.map DXCluster.key prev) ->
  let next := DXCluster.ingest now retention newData prev in
  let survives := DXWindow.survives now retention newData prev in
  (forall x, In x next -> survives x)
  /\ (forall x, survives x ->
        In x next
        \/ (List.length next = 200
            /\ forall k, In k next -> DXCluster.newest_first k x))
  /\ NoDup next
  /\ List.length next <= 200
  /\ (forall l, NoDup l -> (forall x, In x l -> survives x) ->
                200 < List.length l -> List.length next = 200)
  /\ (forall l, NoDup l -> (forall x, In x l <-> survives x) ->
                List.length l <= 200 -> Permutation next l)
  /\ (forall x t, DXCluster.timestamp x = Some t -> t <> 0%Z ->
                  DXWindow.age now x = (now - t)%Z).
Proof.
  intros Hprev next survives.
  assert (Hsound : forall x, In x next -> survives x).
  { intros x Hin. apply ingest_subset in Hin.
    apply (validItems_survive now retention newData prev x Hprev), Hin. }
  assert (Hcomplete : forall x, survives x ->
            In x next
            \/ (List.length next = 200
                /\ forall k, In k next -> DXCluster.newest_first k x)).
  { intros x Hx.
    apply (validItems_survive now retention newData prev x Hprev) in Hx.
    apply (slice_complete _ x Hx). }
  assert (Hunique : NoDup next).
  { apply (NoDup_map_inv DXCluster.key). apply ingest_keys_unique. }
  assert (Hlen : List.length next <= 200) by apply ingest_length.
  split; [exact Hsound |].
  split; [exact Hcomplete |].
  split; [exact Hunique |].
  split; [exact Hlen |].
  split; [| split].
  - intros l Hl Hall Hover.
    destruct (Nat.eq_dec (List.length next) 200) as [E | Hne]; [exact E | exfalso].
    assert (Hincl : incl l next).
    { intros x Hx. destruct (Hcomplete x (Hall x Hx)) as [H | [H _]];
        [exact H | contradiction]. }
    pose proof (NoDup_incl_length Hl Hincl). lia.
  - intros l Hl Hiff Hfew.
    apply (NoDup_Permutation Hunique Hl).
    intros x. split.
    + intros Hin. apply Hiff, Hsound, Hin.
    + intros Hin.
      destruct (Hcomplete x (proj1 (Hiff x) Hin)) as [H | [Hfull _]]; [exact H |].
      assert (Hincl : incl next l)
        by (intros y Hy; apply Hiff, Hsound, Hy).
      assert (Hsize : List.length l <= List.length next) by lia.
      exact (NoDup_length_incl Hunique Hsize Hincl x Hin).
  - intros x t Ht Hne. unfold DXWindow.age.
    rewrite (stamped_timestamp x t now Ht Hne). reflexivity.
Qed.

(** The state holds a spot; a fetch, 8 minutes after the spot was made
    and under a window of 60 minutes, brings the same spot twice over,
    the second time with a comment: the second report survives, and is
    held. *)
Lemma fetch_holds_the_newest_fresh_items_witness :
  let now := (DXWindow.spot_time + 480000)%Z in
  let again :=
    DXCluster.mkItem (Some "K1ABC") None (Some "14074.0") (Some "W1AW")
                     (Some (DXWindow.spot_time + 60000)%Z) (Some "FT8")
                     None None None None in
  let next := DXCluster.ingest now 3600000 [DXWindow.old_spot; again]
                               [DXWindow.old_spot] in
  In again next
  \/ (List.length next = 200
      /\ forall k, In k next -> DXCluster.newest_first k again).
Proof.
  intros now again next.
  pose proof (fetch_holds_the_newest_fresh_items
                now 3600000 [DXWindow.old_spot; again] [DXWindow.old_spot]) as H.
  cbv zeta in H.
  assert (Hprev : NoDup (List.map DXCluster.key [DXWindow.old_spot]))
    by (repeat constructor; intros []).
  destruct (H Hprev) as (_ & Hcomplete & _).
  apply Hcomplete. split.
  - left. exists again. split; [| reflexivity].
    exists [DXWindow.old_spot], []. split; [reflexivity | intros other []].
  - vm_compute. reflexivity.
Defined.
